(** * graphql-sync: the synchronous GraphQL executor

    A shallow embedding of the two executors found in the repository:

    - [Execute]: the executor that follows [graphql.js] in [src/graphql.js]
      ([execute], [buildExecutionContext], [collectFields],
      [completeValue], ...), with response paths and located errors;
    - [Legacy]: the earlier executor of [src/execution/execute.js];
    - [graphql]: the entry point of [src/graphql.js], over the parser, the
      validator and the executor it imports.

    JavaScript values are an inductive type, the mutable parts of a run
    (the error list of the execution context, the effects of resolvers)
    are threaded through a state-and-exception monad, and the recursion of
    value completion through sub-selections is bounded by a fuel
    argument. What the executors import (coercion, error location,
    iterall) and what the host decides when a value is an object (its
    conversion to a string, the properties it inherits) are the fields of
    one record, [Externals]. *)

From Stdlib Require Import String List ZArith Bool Lia DecimalString.
From stdpp Require Import base strings gmap.

Import ListNotations.
Local Open Scope string_scope.
Local Open Scope list_scope.

Set Implicit Arguments.
Unset Strict Implicit.
Set Warnings "-register-all".

(* ================================================================== *)
(** ** The query document (graphql/language/ast) *)
(* ================================================================== *)

(** Names are the Name tokens of the grammar: letters, digits and
    underscores, not starting with a digit; [constructor] and [__proto__]
    are names, an array index is not. Nodes carry no location. *)

(** A value literal of the query language. *)
Inductive ValueNode :=
| VariableNode (name : string)
| IntValueNode (value : Z)
| StringValueNode (value : string)
| BooleanValueNode (value : bool)
| NullValueNode
| EnumValueNode (value : string).

Record ArgumentNode := mkArgument {
  argument_name : string;
  argument_value : ValueNode
}.

Record DirectiveNode := mkDirective {
  directive_name : string;
  directive_arguments : list ArgumentNode
}.

(** [directives] is tested with [directives && ...] by the executor, so an
    absent list is kept apart from an empty one. *)
Inductive SelectionNode :=
| FIELD (field : FieldNode)
| INLINE_FRAGMENT (typeCondition : option string)
                  (directives : option (list DirectiveNode))
                  (selectionSet : list SelectionNode)
| FRAGMENT_SPREAD (name : string) (directives : option (list DirectiveNode))
with FieldNode :=
| mkField (alias : option string) (name : string)
          (arguments : list ArgumentNode)
          (directives : option (list DirectiveNode))
          (selectionSet : option (list SelectionNode)).

Definition field_alias (f : FieldNode) := let (a, _, _, _, _) := f in a.
Definition field_name (f : FieldNode) := let (_, n, _, _, _) := f in n.
Definition field_arguments (f : FieldNode) := let (_, _, a, _, _) := f in a.
Definition field_directives (f : FieldNode) := let (_, _, _, d, _) := f in d.
Definition field_selectionSet (f : FieldNode) := let (_, _, _, _, s) := f in s.

Record FragmentDefinitionNode := mkFragment {
  fragment_name : string;
  fragment_typeCondition : option string;
  fragment_directives : option (list DirectiveNode);
  fragment_selectionSet : list SelectionNode
}.

Inductive OperationType :=
| OpQuery | OpMutation | OpSubscription | OpOther (keyword : string).

Record VariableDefinitionNode := mkVariableDefinition {
  variable_name : string;
  variable_type : string;
  variable_defaultValue : option ValueNode
}.

Record OperationDefinitionNode := mkOperation {
  operation_operation : OperationType;
  operation_name : option string;
  operation_variableDefinitions : option (list VariableDefinitionNode);
  operation_directives : option (list DirectiveNode);
  operation_selectionSet : list SelectionNode
}.

(** A top-level definition; [OTHER_DEFINITION] stands for every kind the
    executor does not run (type-system definitions). *)
Inductive DefinitionNode :=
| OPERATION_DEFINITION (operation : OperationDefinitionNode)
| FRAGMENT_DEFINITION (fragment : FragmentDefinitionNode)
| OTHER_DEFINITION (kind : string).

Definition DocumentNode := list DefinitionNode.

Inductive ASTNode :=
| NodeOfField (n : FieldNode)
| NodeOfOperation (n : OperationDefinitionNode)
| NodeOfDefinition (n : DefinitionNode).

(* ================================================================== *)
(** ** JavaScript values *)
(* ================================================================== *)

Inductive PathKey := KeyName (name : string) | KeyIndex (index : nat).

(** The linked response path: [PathRoot] is the [undefined] the root
    selection set starts from. *)
Inductive ResponsePath :=
| PathRoot
| PathCons (prev : ResponsePath) (key : PathKey).

Inductive ErrorClass := ErrorC | TypeErrorC | GraphQLErrorC.

Record ErrorObject := mkError {
  error_class : ErrorClass;
  error_message : string;
  error_nodes : option (list ASTNode);
  error_path : option (list PathKey)
}.

(** [VObject inherits props]: the own enumerable properties in insertion
    order, and whether [Object.prototype] is on the prototype chain (an
    object literal) or not ([Object.create(null)]). *)
Inductive Value :=
| VUndefined
| VNull
| VNaN
| VBoolean (b : bool)
| VNumber (z : Z)
| VString (s : string)
| VArray (items : list Value)
| VObject (inherits : bool) (props : list (string * Value))
| VFunction (id : nat)
| VError (e : ErrorObject).

(** graphql/jsutils/isNullish: [null], [undefined] or [NaN]. *)
Definition isNullish (v : Value) : bool :=
  match v with
  | VUndefined | VNull | VNaN => true
  | _ => false
  end.

(** JavaScript truthiness. *)
Definition truthy (v : Value) : bool :=
  match v with
  | VUndefined | VNull | VNaN => false
  | VBoolean b => b
  | VNumber z => negb (z =? 0)%Z
  | VString s => negb (String.eqb s EmptyString)
  | _ => true
  end.

Definition instanceofError (v : Value) : bool :=
  match v with VError _ => true | _ => false end.

Definition dquote : string := String (Ascii.ascii_of_nat 34) EmptyString.

(** *** Numbers as strings

    [Number::toString]: the digits are the shortest decimal that has the
    number as its value, the closest to it when several do; from [1e21] on
    they are written with an exponent. [VNumber z] is the number value of
    the integer [z]: [z] itself up to [2^53], the nearest double (ties to
    even) beyond. *)

Definition digits (n : Z) : string := NilZero.string_of_int (Z.to_int n).

Definition numberValue (n : Z) : Z :=
  let bits := (Z.log2 n + 1)%Z in
  if (bits <=? 53)%Z then n
  else
    let e := (bits - 53)%Z in
    let q := Z.shiftr n e in
    let r := (n - Z.shiftl q e)%Z in
    let half := Z.shiftl 1 (e - 1) in
    Z.shiftl (if (half <? r)%Z || ((r =? half)%Z && Z.odd q) then (q + 1)%Z else q) e.

(** The [k] digits [s] and the exponent [n] with [s * 10^(n-k)] of number
    value [x], for the least [k] from the given one on. *)
Fixpoint shortest (fuel : nat) (k x n : Z) : Z * Z :=
  match fuel with
  | O => (x, n)
  | S fuel' =>
      let p := (10 ^ (n - k))%Z in
      let lo := (x / p)%Z in
      let hi := (lo + 1)%Z in
      let okLo := (numberValue (lo * p) =? x)%Z in
      let okHi := (numberValue (hi * p) =? x)%Z in
      let s :=
        if okLo && okHi then
          let below := (x - lo * p)%Z in
          let above := (hi * p - x)%Z in
          if (below <? above)%Z then Some lo
          else if (above <? below)%Z then Some hi
          else if Z.even lo then Some lo else Some hi
        else if okLo then Some lo
        else if okHi then Some hi
        else None in
      match s with
      | Some s => (s, if (s =? 10 ^ k)%Z then (n + 1)%Z else n)
      | None => shortest fuel' (k + 1)%Z x n
      end
  end.

Fixpoint stripZeros (fuel : nat) (s : Z) : Z :=
  match fuel with
  | O => s
  | S fuel' =>
      if (0 <? s)%Z && (s mod 10 =? 0)%Z then stripZeros fuel' (s / 10)%Z else s
  end.

Fixpoint zeros (n : nat) : string :=
  match n with
  | O => EmptyString
  | S n' => "0" ++ zeros n'
  end.

Definition positiveToString (z : Z) : string :=
  let x := numberValue z in
  if (2 ^ 1024 <=? x)%Z then "Infinity"
  else
    let length := String.length (digits x) in
    let (s0, n) := shortest length 1 x (Z.of_nat length) in
    let s := digits (stripZeros length s0) in
    let k := Z.of_nat (String.length s) in
    if (n <=? 21)%Z then s ++ zeros (Z.to_nat (n - k))
    else
      match s with
      | String first EmptyString => String first ("e+" ++ digits (n - 1))
      | String first rest => String first ("." ++ rest ++ "e+" ++ digits (n - 1))
      | EmptyString => s
      end.

Definition numberToString (z : Z) : string :=
  if (z =? 0)%Z then "0"
  else if (z <? 0)%Z then "-" ++ positiveToString (- z)
  else positiveToString z.

Definition Error_ (message : string) : Value :=
  VError (mkError ErrorC message None None).

Definition TypeError_ (message : string) : Value :=
  VError (mkError TypeErrorC message None None).

Definition GraphQLError_ (message : string) (nodes : option (list ASTNode)) : Value :=
  VError (mkError GraphQLErrorC message nodes None).

(** How a JavaScript call ends. *)
Inductive Result (A : Type) :=
| Ok (a : A)
| Raise (thrown : Value).
Arguments Ok {A} a.
Arguments Raise {A} thrown.

(** The same for the executor's recursive functions, which may also run out
    of fuel. *)
Inductive Outcome (A : Type) :=
| Ret (a : A)
| Throw (thrown : Value)
| OutOfFuel.
Arguments Ret {A} a.
Arguments Throw {A} thrown.
Arguments OutOfFuel {A}.

Definition ofResult {A} (r : Result A) : Outcome A :=
  match r with Ok a => Ret a | Raise v => Throw v end.

(* ================================================================== *)
(** ** The type system (graphql/type) *)
(* ================================================================== *)

(** An output type as the executor inspects it: the two wrappers, and a
    named type whose definition the schema holds. Two types are the same
    object ([===]) when they are equal here. *)
Inductive GraphQLType :=
| GraphQLNonNull (ofType : GraphQLType)
| GraphQLList (ofType : GraphQLType)
| GraphQLNamedType (name : string).

Fixpoint GraphQLType_eqb (a b : GraphQLType) : bool :=
  match a, b with
  | GraphQLNonNull x, GraphQLNonNull y => GraphQLType_eqb x y
  | GraphQLList x, GraphQLList y => GraphQLType_eqb x y
  | GraphQLNamedType n, GraphQLNamedType m => String.eqb n m
  | _, _ => false
  end.

(** [String(type)]. *)
Fixpoint typeToString (t : GraphQLType) : string :=
  match t with
  | GraphQLNonNull t' => typeToString t' ++ "!"
  | GraphQLList t' => "[" ++ typeToString t' ++ "]"
  | GraphQLNamedType n => n
  end.

(** [type.name]: the wrappers have none. *)
Definition typeName (t : GraphQLType) : string :=
  match t with
  | GraphQLNamedType n => n
  | _ => "undefined"
  end.

Definition isNonNull (t : GraphQLType) : bool :=
  match t with GraphQLNonNull _ => true | _ => false end.

(** What a [resolveType] function may hand back: a type, the name of one,
    or anything else ([undefined] when none was found). *)
Inductive RuntimeTypeOrName :=
| RuntimeType (t : GraphQLType)
| RuntimeName (name : string)
| RuntimeOther (v : Value).

(** The [info] argument of resolvers. The references to the schema and to
    the fragment map, which never change during a run, are left out. *)
Record GraphQLResolveInfo := mkInfo {
  info_fieldName : string;
  info_fieldNodes : list FieldNode;
  info_returnType : GraphQLType;
  info_parentType : GraphQLType;
  info_path : ResponsePath;
  info_rootValue : Value;
  info_operation : OperationDefinitionNode;
  info_variableValues : gmap string Value
}.

Record GraphQLArgument := mkArgumentDef {
  argdef_name : string;
  argdef_type : GraphQLType;
  argdef_defaultValue : option Value
}.

Record GraphQLDirective := mkDirectiveDef {
  directivedef_name : string;
  directivedef_args : list GraphQLArgument
}.

(** graphql/type/directives. *)
Definition GraphQLSkipDirective : GraphQLDirective :=
  mkDirectiveDef "skip"
    [mkArgumentDef "if" (GraphQLNonNull (GraphQLNamedType "Boolean")) None].

Definition GraphQLIncludeDirective : GraphQLDirective :=
  mkDirectiveDef "include"
    [mkArgumentDef "if" (GraphQLNonNull (GraphQLNamedType "Boolean")) None].

Section TypeSystem.

(** The world resolvers act on. *)
Context {W : Type}.

(** [resolve(source, args, context, info)]. *)
Definition GraphQLFieldResolver : Type :=
  Value -> gmap string Value -> Value -> GraphQLResolveInfo ->
  W -> Result Value * W.

Record GraphQLField := mkFieldDef {
  fielddef_name : string;
  fielddef_type : GraphQLType;
  fielddef_args : list GraphQLArgument;
  fielddef_resolve : option GraphQLFieldResolver
}.

(** The definition of a named type, with the callbacks the executor
    invokes on it. *)
Inductive TypeDefinition :=
| GraphQLScalarType (serialize : option (Value -> Result Value))
| GraphQLEnumType (serialize : option (Value -> Result Value))
| GraphQLObjectType
    (fields : list (string * GraphQLField))
    (isTypeOf : option (Value -> Value -> GraphQLResolveInfo -> Result Value))
| GraphQLInterfaceType
    (fields : list (string * GraphQLField))
    (resolveType : option (Value -> Value -> GraphQLResolveInfo -> Result RuntimeTypeOrName))
| GraphQLUnionType
    (resolveType : option (Value -> Value -> GraphQLResolveInfo -> Result RuntimeTypeOrName))
| GraphQLInputObjectType.

Record GraphQLSchema := mkSchema {
  schema_typeMap : gmap string TypeDefinition;
  schema_queryType : GraphQLType;
  schema_mutationType : option GraphQLType;
  schema_subscriptionType : option GraphQLType;
  schema_getPossibleTypes : GraphQLType -> list GraphQLType;
  schema_isPossibleType : GraphQLType -> GraphQLType -> bool
}.

Definition typeDefinition (schema : GraphQLSchema) (t : GraphQLType)
  : option TypeDefinition :=
  match t with
  | GraphQLNamedType n => schema_typeMap schema !! n
  | _ => None
  end.

(** [schema.getType(name)]. *)
Definition getType (schema : GraphQLSchema) (name : string) : option GraphQLType :=
  match schema_typeMap schema !! name with
  | Some _ => Some (GraphQLNamedType name)
  | None => None
  end.

(** [type.serialize]. *)
Definition serializeOf (schema : GraphQLSchema) (t : GraphQLType)
  : option (Value -> Result Value) :=
  match typeDefinition schema t with
  | Some (GraphQLScalarType f) | Some (GraphQLEnumType f) => f
  | _ => None
  end.

(** graphql/type/definition: [isLeafType], [isAbstractType],
    [instanceof GraphQLObjectType]. *)
Definition isLeafType (schema : GraphQLSchema) (t : GraphQLType) : bool :=
  match typeDefinition schema t with
  | Some (GraphQLScalarType _) | Some (GraphQLEnumType _) => true
  | _ => false
  end.

Definition isAbstractType (schema : GraphQLSchema) (t : GraphQLType) : bool :=
  match typeDefinition schema t with
  | Some (GraphQLInterfaceType _ _) | Some (GraphQLUnionType _) => true
  | _ => false
  end.

Definition isObjectType (schema : GraphQLSchema) (t : GraphQLType) : bool :=
  match typeDefinition schema t with
  | Some (GraphQLObjectType _ _) => true
  | _ => false
  end.

Definition isTypeOfOf (schema : GraphQLSchema) (t : GraphQLType) :=
  match typeDefinition schema t with
  | Some (GraphQLObjectType _ f) => f
  | _ => None
  end.

Definition resolveTypeOf (schema : GraphQLSchema) (t : GraphQLType) :=
  match typeDefinition schema t with
  | Some (GraphQLInterfaceType _ f) | Some (GraphQLUnionType f) => f
  | _ => None
  end.

(** [type.getFields()[fieldName]]. *)
Fixpoint lookupField (fields : list (string * GraphQLField)) (fieldName : string)
  : option GraphQLField :=
  match fields with
  | [] => None
  | (n, d) :: rest => if String.eqb n fieldName then Some d else lookupField rest fieldName
  end.

Definition getFields (schema : GraphQLSchema) (t : GraphQLType)
  : list (string * GraphQLField) :=
  match typeDefinition schema t with
  | Some (GraphQLObjectType fields _) | Some (GraphQLInterfaceType fields _) => fields
  | _ => []
  end.

(** One resolver invocation, as the ghost log of a run records it. *)
Record Call := mkCall {
  call_parentType : GraphQLType;
  call_fieldName : string;
  call_source : Value
}.

(** What a run mutates: the error list of the execution context and the
    world of the resolvers; [calls] is a ghost log of the resolver
    invocations, in order. *)
Record State := mkState {
  errors : list Value;
  calls : list Call;
  world : W
}.

Definition pushError (e : Value) (s : State) : State :=
  mkState (errors s ++ [e]) (calls s) (world s).

Definition M (A : Type) : Type := State -> Outcome A * State.

Definition ret {A} (a : A) : M A := fun s => (Ret a, s).
Definition throw {A} (v : Value) : M A := fun s => (Throw v, s).
Definition outOfFuel {A} : M A := fun s => (OutOfFuel, s).

Definition bind {A B} (m : M A) (k : A -> M B) : M B :=
  fun s =>
    match m s with
    | (Ret a, s') => k a s'
    | (Throw v, s') => (Throw v, s')
    | (OutOfFuel, s') => (OutOfFuel, s')
    end.

(** [try { m } catch (error) { handler(error) }]. *)
Definition tryCatch {A} (m : M A) (handler : Value -> M A) : M A :=
  fun s =>
    match m s with
    | (Throw v, s') => handler v s'
    | r => r
    end.

Definition liftResult {A} (r : Result A) : M A := fun s => (ofResult r, s).
Definition liftOutcome {A} (r : Outcome A) : M A := fun s => (r, s).

(** The collaborators that are not part of the executor: argument and
    variable coercion ([./values]), error location ([graphql/error]),
    type lookup for a type condition ([graphql/utilities/typeFromAST]),
    the introspection meta-fields ([graphql/type/introspection]), the
    call of a function-valued property, and, for the earlier executor,
    the [getObjectType] method of abstract types. Error location is
    taken to give an error for every thrown value.

    With them, what the host decides about a value that is an object:
    - [objectToString]: its conversion to a string, which runs the
      [toString] and [valueOf] the object has or inherits, and throws when
      they give no primitive (an object without prototype);
    - [hostProperty]: the value of a property that is not part of the
      representation of the value: one it inherits from its prototype, or
      an own property of a function, of an error beyond its message, of a
      primitive ([undefined] when there is none);
    - [iterall_isCollection] and [iterall_forEach]: what [iterall] makes of
      an object that is not an array: whether its [length] or its iterator
      make it a collection, and the items [forEach] visits, each with the
      key it passes, followed by what the iteration throws when it fails. *)
Record Externals := mkExternals {
  getArgumentValues :
    list GraphQLArgument -> list ArgumentNode -> gmap string Value ->
    Result (gmap string Value);
  getVariableValues :
    GraphQLSchema -> list VariableDefinitionNode -> gmap string Value ->
    Result (gmap string Value);
  locatedError : Value -> list FieldNode -> option (list PathKey) -> Value;
  typeFromAST : GraphQLSchema -> string -> option GraphQLType;
  SchemaMetaFieldDef : GraphQLField;
  TypeMetaFieldDef : GraphQLField;
  TypeNameMetaFieldDef : GraphQLField;
  callFunction :
    nat -> Value -> gmap string Value -> Value -> GraphQLResolveInfo ->
    W -> Result Value * W;
  getObjectType :
    GraphQLSchema -> GraphQLType -> Value -> GraphQLResolveInfo ->
    Result (option GraphQLType);
  objectToString : Value -> Result string;
  hostProperty : Value -> string -> Value;
  iterall_isCollection : Value -> bool;
  iterall_forEach : Value -> list (PathKey * Value) * option Value
}.

(** The execution context; its error list lives in [State]. *)
Record ExecutionContext := mkContext {
  ctx_schema : GraphQLSchema;
  ctx_fragments : gmap string FragmentDefinitionNode;
  ctx_rootValue : Value;
  ctx_contextValue : Value;
  ctx_operation : OperationDefinitionNode;
  ctx_variableValues : gmap string Value;
  ctx_fieldResolver : GraphQLFieldResolver
}.

(** [{ data, errors }]; a key that is not written is [None]. *)
Record ExecutionResult := mkResult {
  result_data : option Value;
  result_errors : option (list Value)
}.

End TypeSystem.

Arguments GraphQLFieldResolver : clear implicits.
Arguments GraphQLField : clear implicits.
Arguments TypeDefinition : clear implicits.
Arguments GraphQLSchema : clear implicits.
Arguments State : clear implicits.
Arguments M : clear implicits.
Arguments Externals : clear implicits.
Arguments ExecutionContext : clear implicits.

Notation "'let*' x ':=' m 'in' k" := (bind m (fun x => k))
  (at level 10, x name, m at level 100, k at level 200).

Definition bindResult {A B} (r : Result A) (k : A -> Result B) : Result B :=
  match r with
  | Ok a => k a
  | Raise v => Raise v
  end.

Notation "'let?' x ':=' m 'in' k" := (bindResult m (fun x => k))
  (at level 10, x name, m at level 100, k at level 200).

(* ================================================================== *)
(** ** Helpers shared by the two executors *)
(* ================================================================== *)

(** The keys a response path holds, innermost first, and the array
    [responsePathAsArray] returns. *)
Fixpoint pathKeys (path : ResponsePath) : list PathKey :=
  match path with
  | PathRoot => []
  | PathCons prev key => key :: pathKeys prev
  end.

(** graphql/jsutils/find. *)
Definition find_ {A} (l : list A) (p : A -> bool) : option A := List.find p l.

(** The fields grouping: response keys in insertion order, each with the
    field nodes that share it. *)
Definition FieldsMap := list (string * list FieldNode).

(** [if (!fields[name]) fields[name] = []; fields[name].push(selection)]. *)
Fixpoint pushField (fields : FieldsMap) (name : string) (selection : FieldNode) : FieldsMap :=
  match fields with
  | [] => [(name, [selection])]
  | (k, nodes) :: rest =>
      if String.eqb k name then (k, nodes ++ [selection]) :: rest
      else (k, nodes) :: pushField rest name selection
  end.

Definition getFieldEntryKey (node : FieldNode) : string :=
  match field_alias node with
  | Some alias => alias
  | None => field_name node
  end.

(** Own properties of an object. *)
Fixpoint lookupProperty (props : list (string * Value)) (key : string) : option Value :=
  match props with
  | [] => None
  | (k, v) :: rest => if String.eqb k key then Some v else lookupProperty rest key
  end.

Fixpoint assignProperty (props : list (string * Value)) (key : string) (value : Value)
  : list (string * Value) :=
  match props with
  | [] => [(key, value)]
  | (k, v) :: rest =>
      if String.eqb k key then (k, value) :: rest
      else (k, v) :: assignProperty rest key value
  end.

(** [obj[key] = value] on a result object. On an object that inherits from
    [Object.prototype] the key [__proto__] is the accessor of the prototype:
    the assignment replaces the prototype when the value is an object or
    [null], does nothing otherwise, and never adds an own property. *)
Definition setProperty (obj : Value) (key : string) (value : Value) : Value :=
  match obj with
  | VObject inherits props =>
      if inherits && String.eqb key "__proto__" then
        match value with
        | VNull => VObject false props
        | VObject inherits' _ => VObject inherits' props
        | VArray _ | VError _ | VFunction _ => VObject true props
        | _ => obj
        end
      else VObject inherits (assignProperty props key value)
  | _ => obj
  end.

(** [Object.keys(obj)]. *)
Definition ownKeys (obj : Value) : list string :=
  match obj with
  | VObject _ props => map fst props
  | _ => []
  end.

Definition ownProperties (obj : Value) : list (string * Value) :=
  match obj with
  | VObject _ props => props
  | _ => []
  end.

(** [String(v)], which is also the conversion of [v] in a template literal
    and in [new Error(v)]: fixed by the language for a primitive, the
    object's own for an object. *)
Definition String_ {W} (ext : Externals W) (v : Value) : Result string :=
  match v with
  | VUndefined => Ok "undefined"
  | VNull => Ok "null"
  | VNaN => Ok "NaN"
  | VBoolean true => Ok "true"
  | VBoolean false => Ok "false"
  | VNumber z => Ok (numberToString z)
  | VString s => Ok s
  | VArray _ | VObject _ _ | VFunction _ | VError _ => objectToString ext v
  end.

(** [new Error(v)]: the message is [String(v)], empty for [undefined]; the
    construction throws when the conversion does. *)
Definition newError {W} (ext : Externals W) (v : Value) : Result Value :=
  match v with
  | VUndefined => Ok (Error_ EmptyString)
  | _ =>
      let? message := String_ ext v in
      Ok (Error_ message)
  end.

(** The index a property name denotes: the decimal digits of a natural
    number, without a leading zero. *)
Definition arrayIndex (name : string) : option nat :=
  match NilZero.uint_of_string name with
  | Some digits =>
      let index := Nat.of_uint digits in
      if String.eqb (NilZero.string_of_uint (Nat.to_uint index)) name
      then Some index else None
  | None => None
  end.

(** [source[name]]: the properties the representation of a value holds
    (the own properties of an object, the items and the length of an
    array, the message of an error), the host's for every other; reading a
    property of [null] or [undefined] throws. *)
Definition getProperty {W} (ext : Externals W) (source : Value) (name : string)
  : Result Value :=
  match source with
  | VUndefined =>
      Raise (TypeError_ ("Cannot read property '" ++ name ++ "' of undefined"))
  | VNull =>
      Raise (TypeError_ ("Cannot read property '" ++ name ++ "' of null"))
  | VObject inherits props =>
      match lookupProperty props name with
      | Some v => Ok v
      | None => Ok (if inherits then hostProperty ext source name else VUndefined)
      end
  | VArray items =>
      if String.eqb name "length" then Ok (VNumber (Z.of_nat (length items)))
      else
        match arrayIndex name with
        | Some index =>
            match nth_error items index with
            | Some item => Ok item
            | None => Ok (hostProperty ext source name)
            end
        | None => Ok (hostProperty ext source name)
        end
  | VError e =>
      if String.eqb name "message" then Ok (VString (error_message e))
      else Ok (hostProperty ext source name)
  | _ => Ok (hostProperty ext source name)
  end.

(** The items of an array with their indices, from [start] on. *)
Fixpoint indexed (start : nat) (items : list Value) : list (PathKey * Value) :=
  match items with
  | [] => []
  | item :: rest => (KeyIndex start, item) :: indexed (S start) rest
  end.

(** iterall's [isCollection]: an array is one, a primitive is not. *)
Definition isCollection {W} (ext : Externals W) (obj : Value) : bool :=
  match obj with
  | VArray _ => true
  | VObject _ _ | VFunction _ | VError _ => iterall_isCollection ext obj
  | _ => false
  end.

(** iterall's [forEach(collection, callback)], as the calls it makes: the
    items in order, each with the key passed as [index], then the value
    thrown if the iteration itself fails. On an array it is the array's
    [forEach]. *)
Definition forEach {W} (ext : Externals W) (collection : Value)
  : list (PathKey * Value) * option Value :=
  match collection with
  | VArray items => (indexed 0 items, None)
  | _ => iterall_forEach ext collection
  end.

(** The property names of [Object.prototype]: every object literal
    inherits them, each with a value that is truthy (a function, or the
    prototype itself for [__proto__]) and has no method [push]. *)
Definition ObjectPrototype : list string :=
  ["constructor"; "__defineGetter__"; "__defineSetter__"; "hasOwnProperty";
   "__lookupGetter__"; "__lookupSetter__"; "isPrototypeOf";
   "propertyIsEnumerable"; "toString"; "valueOf"; "__proto__"; "toLocaleString"].

Definition inheritedName (name : string) : bool :=
  existsb (String.eqb name) ObjectPrototype.

(** [directives && find(directives, d => d.name.value === def.name)]. *)
Definition findDirective (directives : option (list DirectiveNode))
    (def : GraphQLDirective) : option DirectiveNode :=
  match directives with
  | Some ds =>
      find_ ds (fun directive =>
                  String.eqb (directive_name directive) (directivedef_name def))
  | None => None
  end.

(** The [if] key of the coerced arguments of a directive node. *)
Definition ifArgument {W} (ext : Externals W) (ctx : ExecutionContext W)
    (def : GraphQLDirective) (node : DirectiveNode) : Result Value :=
  let? args := getArgumentValues ext (directivedef_args def)
                 (directive_arguments node) (ctx_variableValues ctx) in
  Ok (match args !! "if" with Some v => v | None => VUndefined end).

(** The coerced [if] argument of the directive [def] among [directives], when
    the directive is there. *)
Definition coercedIf {W} (ext : Externals W) (ctx : ExecutionContext W)
    (directives : option (list DirectiveNode)) (def : GraphQLDirective)
  : Result (option Value) :=
  match findDirective directives def with
  | Some node =>
      let? v := ifArgument ext ctx def node in
      Ok (Some v)
  | None => Ok None
  end.

(** The truthiness of the [operationName] argument. *)
Definition provided (operationName : option string) : bool :=
  match operationName with
  | Some name => negb (String.eqb name EmptyString)
  | None => false
  end.

Definition isSome {A} (o : option A) : bool :=
  match o with Some _ => true | None => false end.

(* ================================================================== *)
(** ** The executor of src/graphql.js *)
(* ================================================================== *)

Module Execute.

Section Executor.

Context {W : Type} (ext : Externals W).

Definition responsePathAsArray (path : ResponsePath) : list PathKey :=
  rev (pathKeys path).

Definition addPath (prev : ResponsePath) (key : PathKey) : ResponsePath :=
  PathCons prev key.

(** *** buildExecutionContext *)

(** The callback of [document.definitions.forEach], with the variables
    [operation] and [fragments] it assigns. *)
Fixpoint forEachDefinition (operationName : option string)
    (definitions : list DefinitionNode)
    (operation : option OperationDefinitionNode)
    (fragments : gmap string FragmentDefinitionNode)
  : Result (option OperationDefinitionNode * gmap string FragmentDefinitionNode) :=
  match definitions with
  | [] => Ok (operation, fragments)
  | definition :: rest =>
      match definition with
      | OPERATION_DEFINITION op =>
          if negb (provided operationName) && isSome operation then
            Raise (GraphQLError_
              "Must provide operation name if query contains multiple operations."
              None)
          else if negb (provided operationName)
                  || match operation_name op, operationName with
                     | Some name, Some wanted => String.eqb name wanted
                     | _, _ => false
                     end
          then forEachDefinition operationName rest (Some op) fragments
          else forEachDefinition operationName rest operation fragments
      | FRAGMENT_DEFINITION fragment =>
          forEachDefinition operationName rest operation
            (<[fragment_name fragment := fragment]> fragments)
      | OTHER_DEFINITION kind =>
          Raise (GraphQLError_
            ("GraphQL cannot execute a request containing a " ++ kind ++ ".")
            (Some [NodeOfDefinition definition]))
      end
  end.

(** *** defaultFieldResolver *)

(** [typeof source] is ['object'] for [null] too, and reading a property
    of [null] throws. *)
Definition defaultFieldResolver : GraphQLFieldResolver W :=
  fun source args context info w =>
    match source with
    | VNull | VObject _ _ | VArray _ | VError _ | VFunction _ =>
        match getProperty ext source (info_fieldName info) with
        | Raise error => (Raise error, w)
        | Ok (VFunction id) => callFunction ext id source args context info w
        | Ok property => (Ok property, w)
        end
    | _ => (Ok VUndefined, w)
    end.

Definition buildExecutionContext (schema : GraphQLSchema W)
    (document : DocumentNode) (rootValue contextValue : Value)
    (rawVariableValues : option (gmap string Value))
    (operationName : option string)
    (fieldResolver : option (GraphQLFieldResolver W))
  : Result (ExecutionContext W) :=
  let? found := forEachDefinition operationName document None ∅ in
  match fst found with
  | None =>
      match operationName with
      | Some name =>
          if provided operationName then
            Raise (GraphQLError_
              ("Unknown operation named " ++ dquote ++ name ++ dquote ++ ".") None)
          else Raise (GraphQLError_ "Must provide an operation." None)
      | None => Raise (GraphQLError_ "Must provide an operation." None)
      end
  | Some operation =>
      let? variableValues :=
        getVariableValues ext schema
          (match operation_variableDefinitions operation with
           | Some defs => defs
           | None => []
           end)
          (match rawVariableValues with Some raw => raw | None => ∅ end) in
      Ok (mkContext schema (snd found) rootValue contextValue operation
            variableValues
            (match fieldResolver with
             | Some resolver => resolver
             | None => defaultFieldResolver
             end))
  end.

(** *** getOperationRootType *)

Definition getOperationRootType (schema : GraphQLSchema W)
    (operation : OperationDefinitionNode) : Result GraphQLType :=
  match operation_operation operation with
  | OpQuery => Ok (schema_queryType schema)
  | OpMutation =>
      match schema_mutationType schema with
      | None =>
          Raise (GraphQLError_ "Schema is not configured for mutations"
                   (Some [NodeOfOperation operation]))
      | Some mutationType => Ok mutationType
      end
  | OpSubscription =>
      match schema_subscriptionType schema with
      | None =>
          Raise (GraphQLError_ "Schema is not configured for subscriptions"
                   (Some [NodeOfOperation operation]))
      | Some subscriptionType => Ok subscriptionType
      end
  | OpOther _ =>
      Raise (GraphQLError_ "Can only execute queries, mutations and subscriptions"
               (Some [NodeOfOperation operation]))
  end.

(** *** shouldIncludeNode, doesFragmentConditionMatch *)

Definition shouldIncludeNode (ctx : ExecutionContext W)
    (directives : option (list DirectiveNode)) : Result bool :=
  let? skipped :=
    match findDirective directives GraphQLSkipDirective with
    | Some skipNode =>
        let? skipIf := ifArgument ext ctx GraphQLSkipDirective skipNode in
        Ok (match skipIf with VBoolean true => true | _ => false end)
    | None => Ok false
    end in
  if skipped then Ok false
  else
    let? excluded :=
      match findDirective directives GraphQLIncludeDirective with
      | Some includeNode =>
          let? includeIf := ifArgument ext ctx GraphQLIncludeDirective includeNode in
          Ok (match includeIf with VBoolean false => true | _ => false end)
      | None => Ok false
      end in
    if excluded then Ok false else Ok true.

Definition doesFragmentConditionMatch (ctx : ExecutionContext W)
    (typeCondition : option string) (type : GraphQLType) : bool :=
  match typeCondition with
  | None => true
  | Some typeConditionNode =>
      match typeFromAST ext (ctx_schema ctx) typeConditionNode with
      | Some conditionalType =>
          if GraphQLType_eqb conditionalType type then true
          else if isAbstractType (ctx_schema ctx) conditionalType
          then schema_isPossibleType (ctx_schema ctx) conditionalType type
          else false
      | None => false
      end
  end.

(** *** collectFields *)

(** The loop over [selectionSet.selections]; [fields] and
    [visitedFragmentNames] are the two objects the source mutates, and
    [collectFields_rec] is the recursive call. *)
Fixpoint collectFieldsLoop
    (collectFields_rec :
       ExecutionContext W -> GraphQLType -> list SelectionNode ->
       FieldsMap -> gset string -> Outcome (FieldsMap * gset string))
    (ctx : ExecutionContext W) (runtimeType : GraphQLType)
    (selections : list SelectionNode)
    (fields : FieldsMap) (visitedFragmentNames : gset string)
  : Outcome (FieldsMap * gset string) :=
  match selections with
  | [] => Ret (fields, visitedFragmentNames)
  | selection :: rest =>
      let continue_ fields' visited' :=
        collectFieldsLoop collectFields_rec ctx runtimeType rest fields' visited' in
      match selection with
      | FIELD node =>
          match shouldIncludeNode ctx (field_directives node) with
          | Raise e => Throw e
          | Ok false => continue_ fields visitedFragmentNames
          | Ok true =>
              continue_ (pushField fields (getFieldEntryKey node) node)
                        visitedFragmentNames
          end
      | INLINE_FRAGMENT typeCondition directives selectionSet =>
          match shouldIncludeNode ctx directives with
          | Raise e => Throw e
          | Ok included =>
              if negb included
                 || negb (doesFragmentConditionMatch ctx typeCondition runtimeType)
              then continue_ fields visitedFragmentNames
              else
                match collectFields_rec ctx runtimeType selectionSet
                        fields visitedFragmentNames with
                | Ret (fields', visited') => continue_ fields' visited'
                | Throw e => Throw e
                | OutOfFuel => OutOfFuel
                end
          end
      | FRAGMENT_SPREAD fragName directives =>
          if bool_decide (fragName ∈ visitedFragmentNames)
          then continue_ fields visitedFragmentNames
          else
            match shouldIncludeNode ctx directives with
            | Raise e => Throw e
            | Ok false => continue_ fields visitedFragmentNames
            | Ok true =>
                let visited' := {[fragName]} ∪ visitedFragmentNames in
                match ctx_fragments ctx !! fragName with
                | None => continue_ fields visited'
                | Some fragment =>
                    if negb (doesFragmentConditionMatch ctx
                               (fragment_typeCondition fragment) runtimeType)
                    then continue_ fields visited'
                    else
                      match collectFields_rec ctx runtimeType
                              (fragment_selectionSet fragment) fields visited' with
                      | Ret (fields', visited'') => continue_ fields' visited''
                      | Throw e => Throw e
                      | OutOfFuel => OutOfFuel
                      end
                end
            end
      end
  end.

Fixpoint collectFields (fuel : nat) (ctx : ExecutionContext W)
    (runtimeType : GraphQLType) (selections : list SelectionNode)
    (fields : FieldsMap) (visitedFragmentNames : gset string)
  : Outcome (FieldsMap * gset string) :=
  match fuel with
  | O => OutOfFuel
  | S fuel' =>
      collectFieldsLoop (collectFields fuel') ctx runtimeType selections
        fields visitedFragmentNames
  end.

(** *** getFieldDef, buildResolveInfo *)

Definition getFieldDef (schema : GraphQLSchema W) (parentType : GraphQLType)
    (fieldName : string) : option (GraphQLField W) :=
  if String.eqb fieldName (fielddef_name (SchemaMetaFieldDef ext))
     && GraphQLType_eqb (schema_queryType schema) parentType
  then Some (SchemaMetaFieldDef ext)
  else if String.eqb fieldName (fielddef_name (TypeMetaFieldDef ext))
          && GraphQLType_eqb (schema_queryType schema) parentType
  then Some (TypeMetaFieldDef ext)
  else if String.eqb fieldName (fielddef_name (TypeNameMetaFieldDef ext))
  then Some (TypeNameMetaFieldDef ext)
  else lookupField (getFields schema parentType) fieldName.

Definition buildResolveInfo (ctx : ExecutionContext W) (fieldDef : GraphQLField W)
    (fieldNodes : list FieldNode) (parentType : GraphQLType) (path : ResponsePath)
  : GraphQLResolveInfo :=
  mkInfo (match fieldNodes with node :: _ => field_name node | [] => EmptyString end)
         fieldNodes (fielddef_type fieldDef) parentType path
         (ctx_rootValue ctx) (ctx_operation ctx) (ctx_variableValues ctx).

(** *** resolveFieldValueOrError *)

(** The call [resolveFn(source, args, context, info)]: it acts on the world
    and is written to the ghost log. *)
Definition callResolver (resolveFn : GraphQLFieldResolver W) (source : Value)
    (args : gmap string Value) (context : Value) (info : GraphQLResolveInfo)
  : M W Value :=
  fun s =>
    let (r, w) := resolveFn source args context info (world s) in
    (ofResult r,
     mkState (errors s)
             (calls s ++ [mkCall (info_parentType info) (info_fieldName info) source])
             w).

Definition resolveFieldValueOrError (ctx : ExecutionContext W)
    (fieldDef : GraphQLField W) (fieldNodes : list FieldNode)
    (resolveFn : GraphQLFieldResolver W) (source : Value)
    (info : GraphQLResolveInfo) : M W Value :=
  tryCatch
    (let* args :=
       match fieldNodes with
       | node :: _ =>
           liftResult (getArgumentValues ext (fielddef_args fieldDef)
                         (field_arguments node) (ctx_variableValues ctx))
       | [] => throw (TypeError_ "Cannot read property 'arguments' of undefined")
       end in
     callResolver resolveFn source args (ctx_contextValue ctx) info)
    (fun error =>
       if instanceofError error then ret error
       else liftResult (newError ext error)).

(** *** Value completion

    The functions below call each other through [completeValue]; the
    recursive call is the parameter [completeValue_rec], and [fuel] bounds
    the fragment nesting of the selection sets collected on the way. *)

Section Completion.

Variable fuel : nat.
Variable completeValue_rec :
  ExecutionContext W -> GraphQLType -> list FieldNode -> GraphQLResolveInfo ->
  ResponsePath -> Value -> M W Value.

Definition completeValueWithLocatedError_step (ctx : ExecutionContext W)
    (returnType : GraphQLType) (fieldNodes : list FieldNode)
    (info : GraphQLResolveInfo) (path : ResponsePath) (result : Value)
  : M W Value :=
  tryCatch
    (completeValue_rec ctx returnType fieldNodes info path result)
    (fun error =>
       throw (locatedError ext error fieldNodes (Some (responsePathAsArray path)))).

Definition completeValueCatchingError_step (ctx : ExecutionContext W)
    (returnType : GraphQLType) (fieldNodes : list FieldNode)
    (info : GraphQLResolveInfo) (path : ResponsePath) (result : Value)
  : M W Value :=
  if isNonNull returnType then
    completeValueWithLocatedError_step ctx returnType fieldNodes info path result
  else
    tryCatch
      (completeValueWithLocatedError_step ctx returnType fieldNodes info path result)
      (fun error => fun s => (Ret VNull, pushError error s)).

Definition resolveField_step (ctx : ExecutionContext W) (parentType : GraphQLType)
    (source : Value) (fieldNodes : list FieldNode) (path : ResponsePath)
  : M W Value :=
  match fieldNodes with
  | [] => throw (TypeError_ "Cannot read property 'name' of undefined")
  | fieldNode :: _ =>
      let fieldName := field_name fieldNode in
      match getFieldDef (ctx_schema ctx) parentType fieldName with
      | None => ret VUndefined
      | Some fieldDef =>
          let resolveFn :=
            match fielddef_resolve fieldDef with
            | Some resolve => resolve
            | None => ctx_fieldResolver ctx
            end in
          let info := buildResolveInfo ctx fieldDef fieldNodes parentType path in
          let* result :=
            resolveFieldValueOrError ctx fieldDef fieldNodes resolveFn source info in
          completeValueCatchingError_step ctx (fielddef_type fieldDef) fieldNodes
            info path result
      end
  end.

(** [Object.keys(fields).reduce(callback, results)] with the callback the
    two drivers share. *)
Fixpoint reduceFields (ctx : ExecutionContext W) (parentType : GraphQLType)
    (sourceValue : Value) (path : ResponsePath) (fields : FieldsMap)
    (results : Value) : M W Value :=
  match fields with
  | [] => ret results
  | (responseName, fieldNodes) :: rest =>
      let fieldPath := addPath path (KeyName responseName) in
      let* result :=
        resolveField_step ctx parentType sourceValue fieldNodes fieldPath in
      match result with
      | VUndefined => reduceFields ctx parentType sourceValue path rest results
      | _ =>
          reduceFields ctx parentType sourceValue path rest
            (setProperty results responseName result)
      end
  end.

(** The write-mode driver starts from [{}]. *)
Definition executeFieldsSerially_step (ctx : ExecutionContext W)
    (parentType : GraphQLType) (sourceValue : Value) (path : ResponsePath)
    (fields : FieldsMap) : M W Value :=
  reduceFields ctx parentType sourceValue path fields (VObject true []).

(** The read-mode driver starts from [Object.create(null)]. *)
Definition executeFields_step (ctx : ExecutionContext W)
    (parentType : GraphQLType) (sourceValue : Value) (path : ResponsePath)
    (fields : FieldsMap) : M W Value :=
  reduceFields ctx parentType sourceValue path fields (VObject false []).

(** The callback of [completeListValue] along the calls [forEach] makes
    of it; the list returned is [completedResults]. *)
Fixpoint completeItems (ctx : ExecutionContext W) (itemType : GraphQLType)
    (fieldNodes : list FieldNode) (info : GraphQLResolveInfo)
    (path : ResponsePath) (visits : list (PathKey * Value))
  : M W (list Value) :=
  match visits with
  | [] => ret []
  | (index, item) :: rest =>
      let fieldPath := addPath path index in
      let* completedItem :=
        completeValueCatchingError_step ctx itemType fieldNodes info fieldPath item in
      let* completedRest :=
        completeItems ctx itemType fieldNodes info path rest in
      ret (completedItem :: completedRest)
  end.

Definition completeListValue_step (ctx : ExecutionContext W)
    (itemType : GraphQLType) (fieldNodes : list FieldNode)
    (info : GraphQLResolveInfo) (path : ResponsePath) (result : Value)
  : M W Value :=
  if isCollection ext result then
    let visits := forEach ext result in
    let* completedResults :=
      completeItems ctx itemType fieldNodes info path (fst visits) in
    match snd visits with
    | Some thrown => throw thrown
    | None => ret (VArray completedResults)
    end
  else
    throw (Error_ ("Expected Iterable, but did not find one for field "
                   ++ typeName (info_parentType info) ++ "."
                   ++ info_fieldName info ++ ".")).

Definition completeLeafValue (schema : GraphQLSchema W)
    (returnType : GraphQLType) (result : Value) : M W Value :=
  match serializeOf schema returnType with
  | None => throw (Error_ "Missing serialize method on type")
  | Some serialize =>
      let* serializedResult := liftResult (serialize result) in
      if isNullish serializedResult then
        let* received := liftResult (String_ ext result) in
        throw (Error_ ("Expected a value of type " ++ dquote
                       ++ typeToString returnType ++ dquote
                       ++ " but received: " ++ received))
      else ret serializedResult
  end.

(** *** Abstract types *)

Fixpoint probePossibleTypes (schema : GraphQLSchema W)
    (possibleTypes : list GraphQLType) (value context : Value)
    (info : GraphQLResolveInfo) : Result RuntimeTypeOrName :=
  match possibleTypes with
  | [] => Ok (RuntimeOther VUndefined)
  | type :: rest =>
      match isTypeOfOf schema type with
      | Some isTypeOf =>
          let? isTypeOfResult := isTypeOf value context info in
          if truthy isTypeOfResult then Ok (RuntimeType type)
          else probePossibleTypes schema rest value context info
      | None => probePossibleTypes schema rest value context info
      end
  end.

Definition defaultResolveTypeFn (schema : GraphQLSchema W)
    (value context : Value) (info : GraphQLResolveInfo)
    (abstractType : GraphQLType) : Result RuntimeTypeOrName :=
  probePossibleTypes schema (schema_getPossibleTypes schema abstractType)
    value context info.

(** [String(runtimeType)]. *)
Definition runtimeToString (r : RuntimeTypeOrName) : Result string :=
  match r with
  | RuntimeType t => Ok (typeToString t)
  | RuntimeName n => Ok n
  | RuntimeOther v => String_ ext v
  end.

Definition ensureValidRuntimeType (runtimeTypeOrName : RuntimeTypeOrName)
    (ctx : ExecutionContext W) (returnType : GraphQLType)
    (fieldNodes : list FieldNode) (info : GraphQLResolveInfo) (result : Value)
  : Result GraphQLType :=
  let runtimeType :=
    match runtimeTypeOrName with
    | RuntimeName name | RuntimeOther (VString name) =>
        match getType (ctx_schema ctx) name with
        | Some t => RuntimeType t
        | None => RuntimeOther VUndefined
        end
    | other => other
    end in
  let notAnObjectType :=
    let? value := String_ ext result in
    let? received := runtimeToString runtimeType in
    Raise (GraphQLError_
      ("Abstract type " ++ typeName returnType
       ++ " must resolve to an Object type at runtime for field "
       ++ typeName (info_parentType info) ++ "." ++ info_fieldName info
       ++ " with value " ++ dquote ++ value ++ dquote
       ++ ", received " ++ dquote ++ received ++ dquote ++ ".")
      (Some (map NodeOfField fieldNodes))) in
  match runtimeType with
  | RuntimeType t =>
      if isObjectType (ctx_schema ctx) t then
        if schema_isPossibleType (ctx_schema ctx) returnType t then Ok t
        else
          Raise (GraphQLError_
            ("Runtime Object type " ++ dquote ++ typeName t ++ dquote
             ++ " is not a possible type for " ++ dquote
             ++ typeName returnType ++ dquote ++ ".")
            (Some (map NodeOfField fieldNodes)))
      else notAnObjectType
  | _ => notAnObjectType
  end.

(** *** Object types *)

(** The construction of the error evaluates [String(result)], which may
    throw. *)
Definition invalidReturnTypeError (returnType : GraphQLType) (result : Value)
    (fieldNodes : list FieldNode) : Result Value :=
  let? got := String_ ext result in
  Ok (GraphQLError_
        ("Expected value of type " ++ dquote ++ typeName returnType ++ dquote
         ++ " but got: " ++ got ++ ".")
        (Some (map NodeOfField fieldNodes))).

(** The loop of [collectAndExecuteSubfields] over [fieldNodes]. *)
Fixpoint collectSubfields (ctx : ExecutionContext W) (returnType : GraphQLType)
    (fieldNodes : list FieldNode) (subFieldNodes : FieldsMap)
    (visitedFragmentNames : gset string)
  : Outcome (FieldsMap * gset string) :=
  match fieldNodes with
  | [] => Ret (subFieldNodes, visitedFragmentNames)
  | node :: rest =>
      match field_selectionSet node with
      | Some selectionSet =>
          match collectFields fuel ctx returnType selectionSet
                  subFieldNodes visitedFragmentNames with
          | Ret (fields', visited') =>
              collectSubfields ctx returnType rest fields' visited'
          | other => other
          end
      | None =>
          collectSubfields ctx returnType rest subFieldNodes visitedFragmentNames
      end
  end.

Definition collectAndExecuteSubfields_step (ctx : ExecutionContext W)
    (returnType : GraphQLType) (fieldNodes : list FieldNode)
    (info : GraphQLResolveInfo) (path : ResponsePath) (result : Value)
  : M W Value :=
  let* collected := liftOutcome (collectSubfields ctx returnType fieldNodes [] ∅) in
  executeFields_step ctx returnType result path (fst collected).

Definition completeObjectValue_step (ctx : ExecutionContext W)
    (returnType : GraphQLType) (fieldNodes : list FieldNode)
    (info : GraphQLResolveInfo) (path : ResponsePath) (result : Value)
  : M W Value :=
  match isTypeOfOf (ctx_schema ctx) returnType with
  | Some isTypeOf =>
      let* isTypeOfResult :=
        liftResult (isTypeOf result (ctx_contextValue ctx) info) in
      if truthy isTypeOfResult then
        collectAndExecuteSubfields_step ctx returnType fieldNodes info path result
      else
        let* error :=
          liftResult (invalidReturnTypeError returnType result fieldNodes) in
        throw error
  | None =>
      collectAndExecuteSubfields_step ctx returnType fieldNodes info path result
  end.

Definition completeAbstractValue_step (ctx : ExecutionContext W)
    (returnType : GraphQLType) (fieldNodes : list FieldNode)
    (info : GraphQLResolveInfo) (path : ResponsePath) (result : Value)
  : M W Value :=
  let* runtimeType :=
    liftResult
      (match resolveTypeOf (ctx_schema ctx) returnType with
       | Some resolveType => resolveType result (ctx_contextValue ctx) info
       | None =>
           defaultResolveTypeFn (ctx_schema ctx) result (ctx_contextValue ctx)
             info returnType
       end) in
  let* objectType :=
    liftResult
      (ensureValidRuntimeType runtimeType ctx returnType fieldNodes info result) in
  completeObjectValue_step ctx objectType fieldNodes info path result.

(** *** completeValue *)

Definition completeValue_step (ctx : ExecutionContext W)
    (returnType : GraphQLType) (fieldNodes : list FieldNode)
    (info : GraphQLResolveInfo) (path : ResponsePath) (result : Value)
  : M W Value :=
  if instanceofError result then throw result
  else
    match returnType with
    | GraphQLNonNull ofType =>
        let* completed :=
          completeValue_rec ctx ofType fieldNodes info path result in
        match completed with
        | VNull =>
            throw (Error_ ("Cannot return null for non-nullable field "
                           ++ typeName (info_parentType info) ++ "."
                           ++ info_fieldName info ++ "."))
        | _ => ret completed
        end
    | GraphQLList ofType =>
        if isNullish result then ret VNull
        else completeListValue_step ctx ofType fieldNodes info path result
    | GraphQLNamedType _ =>
        if isNullish result then ret VNull
        else if isLeafType (ctx_schema ctx) returnType then
          completeLeafValue (ctx_schema ctx) returnType result
        else if isAbstractType (ctx_schema ctx) returnType then
          completeAbstractValue_step ctx returnType fieldNodes info path result
        else if isObjectType (ctx_schema ctx) returnType then
          completeObjectValue_step ctx returnType fieldNodes info path result
        else
          throw (Error_ ("Cannot complete value of unexpected type " ++ dquote
                         ++ typeToString returnType ++ dquote ++ "."))
    end.

End Completion.

Fixpoint completeValue (fuel : nat) (ctx : ExecutionContext W)
    (returnType : GraphQLType) (fieldNodes : list FieldNode)
    (info : GraphQLResolveInfo) (path : ResponsePath) (result : Value)
  : M W Value :=
  match fuel with
  | O => outOfFuel
  | S fuel' =>
      completeValue_step fuel' (completeValue fuel') ctx returnType fieldNodes
        info path result
  end.

Definition completeValueWithLocatedError (fuel : nat) :=
  completeValueWithLocatedError_step (completeValue fuel).
Definition completeValueCatchingError (fuel : nat) :=
  completeValueCatchingError_step (completeValue fuel).
Definition resolveField (fuel : nat) := resolveField_step (completeValue fuel).
Definition executeFields (fuel : nat) := executeFields_step (completeValue fuel).
Definition executeFieldsSerially (fuel : nat) :=
  executeFieldsSerially_step (completeValue fuel).
Definition completeListValue (fuel : nat) :=
  completeListValue_step (completeValue fuel).
Definition completeObjectValue (fuel : nat) :=
  completeObjectValue_step fuel (completeValue fuel).
Definition completeAbstractValue (fuel : nat) :=
  completeAbstractValue_step fuel (completeValue fuel).
Definition collectAndExecuteSubfields (fuel : nat) :=
  collectAndExecuteSubfields_step fuel (completeValue fuel).

(** *** executeOperation, execute *)

Definition executeOperation (fuel : nat) (ctx : ExecutionContext W)
    (operation : OperationDefinitionNode) (rootValue : Value) : M W Value :=
  let* type := liftResult (getOperationRootType (ctx_schema ctx) operation) in
  let* collected :=
    liftOutcome (collectFields fuel ctx type (operation_selectionSet operation) [] ∅) in
  let fields := fst collected in
  let path := PathRoot in
  tryCatch
    (match operation_operation operation with
     | OpMutation => executeFieldsSerially fuel ctx type rootValue path fields
     | _ => executeFields fuel ctx type rootValue path fields
     end)
    (fun error => fun s => (Ret VNull, pushError error s)).

(** [executeImpl], started on a world [w] with the fresh error list of the
    context it builds; [execute] only unpacks its arguments for it. What
    [assertValidExecutionArguments] checks (a schema, a document, variables
    given as an object) holds of every argument of these types. *)
Definition executeImpl (fuel : nat) (schema : GraphQLSchema W)
    (document : DocumentNode) (rootValue contextValue : Value)
    (variableValues : option (gmap string Value))
    (operationName : option string)
    (fieldResolver : option (GraphQLFieldResolver W)) (w : W)
  : Outcome ExecutionResult * State W :=
  let s0 := mkState [] [] w in
  match buildExecutionContext schema document rootValue contextValue
          variableValues operationName fieldResolver with
  | Raise error => (Ret (mkResult None (Some [error])), s0)
  | Ok context =>
      match executeOperation fuel context (ctx_operation context) rootValue s0 with
      | (Ret data, s) =>
          (Ret (match errors s with
                | [] => mkResult (Some data) None
                | _ => mkResult (Some data) (Some (errors s))
                end), s)
      | (Throw e, s) => (Throw e, s)
      | (OutOfFuel, s) => (OutOfFuel, s)
      end
  end.

End Executor.

End Execute.

(* ================================================================== *)
(** ** The executor of src/execution/execute.js *)
(* ================================================================== *)

(** The earlier executor: no context value, no response path, errors
    recorded as they were thrown. Its maps ([operations], [fragments],
    [fields], [visitedFragmentNames]) are object literals, so a lookup
    that finds no own property goes on to the prototype: it finds a truthy
    value under every name of [ObjectPrototype], and an assignment to
    [__proto__] replaces the prototype instead of adding a property. The
    own properties are finite maps; for [fragments], which is part of the
    execution context, the entry of the finite map under [__proto__] is the
    definition that became the prototype. *)
Module Legacy.

(** What a lookup in an object literal used as a map finds: an entry, a
    truthy value that is no entry (a function of [Object.prototype], the
    prototype, a property of the node that became the prototype), or
    nothing. *)
Inductive Found (A : Type) :=
| FoundEntry (entry : A)
| FoundOther
| NotFound.
Arguments FoundEntry {A} entry.
Arguments FoundOther {A}.
Arguments NotFound {A}.

Section Executor.

Context {W : Type} (ext : Externals W).

(** *** buildExecutionContext *)

Fixpoint assignOperation (operations : list (string * OperationDefinitionNode))
    (key : string) (statement : OperationDefinitionNode)
  : list (string * OperationDefinitionNode) :=
  match operations with
  | [] => [(key, statement)]
  | (k, o) :: rest =>
      if String.eqb k key then (k, statement) :: rest
      else (k, o) :: assignOperation rest key statement
  end.

Fixpoint lookupOperation (operations : list (string * OperationDefinitionNode))
    (key : string) : option OperationDefinitionNode :=
  match operations with
  | [] => None
  | (k, o) :: rest => if String.eqb k key then Some o else lookupOperation rest key
  end.

(** [operations]: its own properties, and the operation definition an
    assignment to [__proto__] made its prototype. *)
Record Operations := mkOperations {
  operations_own : list (string * OperationDefinitionNode);
  operations_proto : option OperationDefinitionNode
}.

(** [operations[key] = statement]. *)
Definition setOperation (operations : Operations) (key : string)
    (statement : OperationDefinitionNode) : Operations :=
  if String.eqb key "__proto__" then
    mkOperations (operations_own operations) (Some statement)
  else
    mkOperations (assignOperation (operations_own operations) key statement)
      (operations_proto operations).

(** The truthy properties of an operation definition node. *)
Definition operationNodeHas (statement : OperationDefinitionNode) (name : string)
  : bool :=
  String.eqb name "kind"
  || (String.eqb name "operation"
      && match operation_operation statement with
         | OpOther keyword => negb (String.eqb keyword EmptyString)
         | _ => true
         end)
  || (String.eqb name "name" && isSome (operation_name statement))
  || (String.eqb name "variableDefinitions"
      && isSome (operation_variableDefinitions statement))
  || (String.eqb name "directives" && isSome (operation_directives statement))
  || String.eqb name "selectionSet".

(** [operations[opName]]. *)
Definition getOperation (operations : Operations) (opName : string)
  : Found OperationDefinitionNode :=
  if String.eqb opName "__proto__" then
    match operations_proto operations with
    | Some statement => FoundEntry statement
    | None => FoundOther
    end
  else
    match lookupOperation (operations_own operations) opName with
    | Some operation => FoundEntry operation
    | None =>
        if match operations_proto operations with
           | Some statement => operationNodeHas statement opName
           | None => false
           end
           || inheritedName opName
        then FoundOther else NotFound
    end.

(** The truthy properties of a fragment definition node. *)
Definition fragmentNodeHas (statement : FragmentDefinitionNode) (name : string)
  : bool :=
  String.eqb name "kind"
  || String.eqb name "name"
  || (String.eqb name "typeCondition" && isSome (fragment_typeCondition statement))
  || (String.eqb name "directives" && isSome (fragment_directives statement))
  || String.eqb name "selectionSet".

(** [fragments[fragName]]. *)
Definition getFragment (fragments : gmap string FragmentDefinitionNode)
    (fragName : string) : Found FragmentDefinitionNode :=
  match fragments !! fragName with
  | Some fragment => FoundEntry fragment
  | None =>
      if match fragments !! "__proto__" with
         | Some statement => fragmentNodeHas statement fragName
         | None => false
         end
         || inheritedName fragName
      then FoundOther else NotFound
  end.

Fixpoint forEachDefinition (definitions : list DefinitionNode)
    (operations : Operations)
    (fragments : gmap string FragmentDefinitionNode)
  : Result (Operations * gmap string FragmentDefinitionNode) :=
  match definitions with
  | [] => Ok (operations, fragments)
  | statement :: rest =>
      match statement with
      | OPERATION_DEFINITION op =>
          forEachDefinition rest
            (setOperation operations
               (match operation_name op with Some n => n | None => EmptyString end)
               op)
            fragments
      | FRAGMENT_DEFINITION fragment =>
          forEachDefinition rest operations
            (<[fragment_name fragment := fragment]> fragments)
      | OTHER_DEFINITION kind =>
          Raise (GraphQLError_
            ("GraphQL cannot execute a request containing a " ++ kind ++ ".")
            (Some [NodeOfDefinition statement]))
      end
  end.

(** [defaultResolveFn]. *)
Definition defaultResolveFn : GraphQLFieldResolver W :=
  fun source args context info w =>
    match getProperty ext source (info_fieldName info) with
    | Raise error => (Raise error, w)
    | Ok (VFunction id) => callFunction ext id source ∅ VUndefined info w
    | Ok property => (Ok property, w)
    end.

(** What stands in the context for a value found under the operation name
    that is no operation definition: the executor reads its [operation] and
    its [variableDefinitions], and both are [undefined]. *)
Definition notAnOperation : OperationDefinitionNode :=
  mkOperation (OpOther "undefined") None None None [].

Definition buildExecutionContext (schema : GraphQLSchema W)
    (documentAST : DocumentNode) (rootValue : Value)
    (rawVariableValues : option (gmap string Value))
    (operationName : option string)
  : Result (ExecutionContext W) :=
  let? found := forEachDefinition documentAST (mkOperations [] None) ∅ in
  let operations := fst found in
  let keys := map fst (operations_own operations) in
  if negb (provided operationName) && negb (Nat.eqb (length keys) 1) then
    Raise (GraphQLError_
      "Must provide operation name if query contains multiple operations." None)
  else
    let opName :=
      match operationName with
      | Some name =>
          if provided operationName then Some name else head keys
      | None => head keys
      end in
    let context operation :=
      let? variableValues :=
        getVariableValues ext schema
          (match operation_variableDefinitions operation with
           | Some defs => defs
           | None => []
           end)
          (match rawVariableValues with Some raw => raw | None => ∅ end) in
      Ok (mkContext schema (snd found) rootValue VUndefined operation
            variableValues defaultResolveFn) in
    match match opName with
          | Some k => getOperation operations k
          | None => NotFound
          end with
    | NotFound =>
        Raise (GraphQLError_
          ("Unknown operation named " ++ dquote
           ++ match opName with Some k => k | None => "undefined" end
           ++ dquote ++ ".") None)
    | FoundEntry operation => context operation
    | FoundOther => context notAnOperation
    end.

Definition getOperationRootType (schema : GraphQLSchema W)
    (operation : OperationDefinitionNode) : Result GraphQLType :=
  match operation_operation operation with
  | OpQuery => Ok (schema_queryType schema)
  | OpMutation =>
      match schema_mutationType schema with
      | None =>
          Raise (GraphQLError_ "Schema is not configured for mutations"
                   (Some [NodeOfOperation operation]))
      | Some mutationType => Ok mutationType
      end
  | _ =>
      Raise (GraphQLError_ "Can only execute queries and mutations"
               (Some [NodeOfOperation operation]))
  end.

(** *** shouldIncludeNode, doesFragmentConditionMatch *)

Definition shouldIncludeNode (ctx : ExecutionContext W)
    (directives : option (list DirectiveNode)) : Result bool :=
  match findDirective directives GraphQLSkipDirective with
  | Some skipAST =>
      let? skipIf := ifArgument ext ctx GraphQLSkipDirective skipAST in
      Ok (negb (truthy skipIf))
  | None =>
      match findDirective directives GraphQLIncludeDirective with
      | Some includeAST =>
          let? includeIf := ifArgument ext ctx GraphQLIncludeDirective includeAST in
          Ok (truthy includeIf)
      | None => Ok true
      end
  end.

Definition doesFragmentConditionMatch (ctx : ExecutionContext W)
    (typeCondition : option string) (type : GraphQLType) : Result bool :=
  match typeCondition with
  | None => Raise (TypeError_ "Cannot read property 'kind' of undefined")
  | Some typeConditionNode =>
      match typeFromAST ext (ctx_schema ctx) typeConditionNode with
      | Some conditionalType =>
          if GraphQLType_eqb conditionalType type then Ok true
          else if isAbstractType (ctx_schema ctx) conditionalType
          then Ok (schema_isPossibleType (ctx_schema ctx) conditionalType type)
          else Ok false
      | None => Ok false
      end
  end.

(** *** collectFields *)

(** [visitedFragmentNames[fragName]] is truthy. *)
Definition visitedBefore (visitedFragmentNames : gset string) (fragName : string)
  : bool :=
  bool_decide (fragName ∈ visitedFragmentNames) || inheritedName fragName.

(** [if (!fields[name]) fields[name] = []; fields[name].push(selection)]:
    under a name of [Object.prototype] there is a value already, and it has
    no [push]. *)
Definition pushField_ (fields : FieldsMap) (name : string) (selection : FieldNode)
  : Result FieldsMap :=
  if negb (String.eqb name "__proto__")
     && existsb (String.eqb name) (map fst fields)
  then Ok (pushField fields name selection)
  else if inheritedName name then
    Raise (TypeError_ "fields[name].push is not a function")
  else Ok (pushField fields name selection).

Fixpoint collectFieldsLoop
    (collectFields_rec :
       ExecutionContext W -> GraphQLType -> list SelectionNode ->
       FieldsMap -> gset string -> Outcome (FieldsMap * gset string))
    (ctx : ExecutionContext W) (runtimeType : GraphQLType)
    (selections : list SelectionNode)
    (fields : FieldsMap) (visitedFragmentNames : gset string)
  : Outcome (FieldsMap * gset string) :=
  match selections with
  | [] => Ret (fields, visitedFragmentNames)
  | selection :: rest =>
      let continue_ fields' visited' :=
        collectFieldsLoop collectFields_rec ctx runtimeType rest fields' visited' in
      match selection with
      | FIELD node =>
          match shouldIncludeNode ctx (field_directives node) with
          | Raise e => Throw e
          | Ok false => continue_ fields visitedFragmentNames
          | Ok true =>
              match pushField_ fields (getFieldEntryKey node) node with
              | Raise e => Throw e
              | Ok fields' => continue_ fields' visitedFragmentNames
              end
          end
      | INLINE_FRAGMENT typeCondition directives selectionSet =>
          match shouldIncludeNode ctx directives with
          | Raise e => Throw e
          | Ok false => continue_ fields visitedFragmentNames
          | Ok true =>
              match doesFragmentConditionMatch ctx typeCondition runtimeType with
              | Raise e => Throw e
              | Ok false => continue_ fields visitedFragmentNames
              | Ok true =>
                  match collectFields_rec ctx runtimeType selectionSet
                          fields visitedFragmentNames with
                  | Ret (fields', visited') => continue_ fields' visited'
                  | Throw e => Throw e
                  | OutOfFuel => OutOfFuel
                  end
              end
          end
      | FRAGMENT_SPREAD fragName directives =>
          if visitedBefore visitedFragmentNames fragName
          then continue_ fields visitedFragmentNames
          else
            match shouldIncludeNode ctx directives with
            | Raise e => Throw e
            | Ok false => continue_ fields visitedFragmentNames
            | Ok true =>
                let visited' := {[fragName]} ∪ visitedFragmentNames in
                match getFragment (ctx_fragments ctx) fragName with
                | NotFound => continue_ fields visited'
                | FoundOther =>
                    (* [fragment.directives], [fragment.typeCondition] and
                       [fragment.selectionSet] are [undefined]. *)
                    match doesFragmentConditionMatch ctx None runtimeType with
                    | Raise e => Throw e
                    | Ok false => continue_ fields visited'
                    | Ok true =>
                        Throw (TypeError_
                                 "Cannot read property 'selections' of undefined")
                    end
                | FoundEntry fragment =>
                    match shouldIncludeNode ctx (fragment_directives fragment) with
                    | Raise e => Throw e
                    | Ok false => continue_ fields visited'
                    | Ok true =>
                        match doesFragmentConditionMatch ctx
                                (fragment_typeCondition fragment) runtimeType with
                        | Raise e => Throw e
                        | Ok false => continue_ fields visited'
                        | Ok true =>
                            match collectFields_rec ctx runtimeType
                                    (fragment_selectionSet fragment)
                                    fields visited' with
                            | Ret (fields', visited'') => continue_ fields' visited''
                            | Throw e => Throw e
                            | OutOfFuel => OutOfFuel
                            end
                        end
                    end
                end
            end
      end
  end.

Fixpoint collectFields (fuel : nat) (ctx : ExecutionContext W)
    (runtimeType : GraphQLType) (selections : list SelectionNode)
    (fields : FieldsMap) (visitedFragmentNames : gset string)
  : Outcome (FieldsMap * gset string) :=
  match fuel with
  | O => OutOfFuel
  | S fuel' =>
      collectFieldsLoop (collectFields fuel') ctx runtimeType selections
        fields visitedFragmentNames
  end.

Definition getFieldDef (schema : GraphQLSchema W) (parentType : GraphQLType)
    (fieldName : string) : option (GraphQLField W) :=
  if String.eqb fieldName (fielddef_name (SchemaMetaFieldDef ext))
     && GraphQLType_eqb (schema_queryType schema) parentType
  then Some (SchemaMetaFieldDef ext)
  else if String.eqb fieldName (fielddef_name (TypeMetaFieldDef ext))
          && GraphQLType_eqb (schema_queryType schema) parentType
  then Some (TypeMetaFieldDef ext)
  else if String.eqb fieldName (fielddef_name (TypeNameMetaFieldDef ext))
  then Some (TypeNameMetaFieldDef ext)
  else lookupField (getFields schema parentType) fieldName.

(** The call [resolveFn(source, args, info)]. *)
Definition callResolver (resolveFn : GraphQLFieldResolver W) (source : Value)
    (args : gmap string Value) (info : GraphQLResolveInfo) : M W Value :=
  fun s =>
    let (r, w) := resolveFn source args VUndefined info (world s) in
    (ofResult r,
     mkState (errors s)
             (calls s ++ [mkCall (info_parentType info) (info_fieldName info) source])
             w).

Section Completion.

Variable fuel : nat.
Variable completeValue_rec :
  ExecutionContext W -> GraphQLType -> list FieldNode -> GraphQLResolveInfo ->
  Value -> M W Value.

Definition completeValueCatchingError_step (ctx : ExecutionContext W)
    (returnType : GraphQLType) (fieldASTs : list FieldNode)
    (info : GraphQLResolveInfo) (result : Value) : M W Value :=
  if isNonNull returnType then
    completeValue_rec ctx returnType fieldASTs info result
  else
    tryCatch
      (completeValue_rec ctx returnType fieldASTs info result)
      (fun error => fun s => (Ret VNull, pushError error s)).

Definition resolveField_step (ctx : ExecutionContext W) (parentType : GraphQLType)
    (source : Value) (fieldASTs : list FieldNode) : M W Value :=
  match fieldASTs with
  | [] => throw (TypeError_ "Cannot read property 'name' of undefined")
  | fieldAST :: _ =>
      let fieldName := field_name fieldAST in
      match getFieldDef (ctx_schema ctx) parentType fieldName with
      | None => ret VUndefined
      | Some fieldDef =>
          let returnType := fielddef_type fieldDef in
          let resolveFn :=
            match fielddef_resolve fieldDef with
            | Some resolve => resolve
            | None => defaultResolveFn
            end in
          let* args :=
            liftResult (getArgumentValues ext (fielddef_args fieldDef)
                          (field_arguments fieldAST) (ctx_variableValues ctx)) in
          let info :=
            mkInfo fieldName fieldASTs returnType parentType PathRoot
                   (ctx_rootValue ctx) (ctx_operation ctx)
                   (ctx_variableValues ctx) in
          fun s =>
            match callResolver resolveFn source args info s with
            | (Throw error, s') =>
                let reportedError := locatedError ext error fieldASTs None in
                if isNonNull returnType then (Throw reportedError, s')
                else (Ret VNull, pushError reportedError s')
            | (Ret result, s') =>
                completeValueCatchingError_step ctx returnType fieldASTs info
                  result s'
            | (OutOfFuel, s') => (OutOfFuel, s')
            end
      end
  end.

Fixpoint reduceFields (ctx : ExecutionContext W) (parentType : GraphQLType)
    (sourceValue : Value) (fields : FieldsMap) (results : Value) : M W Value :=
  match fields with
  | [] => ret results
  | (responseName, fieldASTs) :: rest =>
      let* result := resolveField_step ctx parentType sourceValue fieldASTs in
      match result with
      | VUndefined => reduceFields ctx parentType sourceValue rest results
      | _ =>
          reduceFields ctx parentType sourceValue rest
            (setProperty results responseName result)
      end
  end.

Definition executeFieldsSerially_step (ctx : ExecutionContext W)
    (parentType : GraphQLType) (sourceValue : Value) (fields : FieldsMap)
  : M W Value :=
  reduceFields ctx parentType sourceValue fields (VObject true []).

Definition executeFields_step (ctx : ExecutionContext W)
    (parentType : GraphQLType) (sourceValue : Value) (fields : FieldsMap)
  : M W Value :=
  reduceFields ctx parentType sourceValue fields (VObject true []).

(** [result.map(item => completeValueCatchingError(...))]. *)
Fixpoint mapItems (ctx : ExecutionContext W) (itemType : GraphQLType)
    (fieldASTs : list FieldNode) (info : GraphQLResolveInfo)
    (items : list Value) : M W (list Value) :=
  match items with
  | [] => ret []
  | item :: rest =>
      let* completedItem :=
        completeValueCatchingError_step ctx itemType fieldASTs info item in
      let* completedRest := mapItems ctx itemType fieldASTs info rest in
      ret (completedItem :: completedRest)
  end.

Fixpoint collectSubfields (ctx : ExecutionContext W) (runtimeType : GraphQLType)
    (fieldASTs : list FieldNode) (subFieldASTs : FieldsMap)
    (visitedFragmentNames : gset string)
  : Outcome (FieldsMap * gset string) :=
  match fieldASTs with
  | [] => Ret (subFieldASTs, visitedFragmentNames)
  | node :: rest =>
      match field_selectionSet node with
      | Some selectionSet =>
          match collectFields fuel ctx runtimeType selectionSet
                  subFieldASTs visitedFragmentNames with
          | Ret (fields', visited') =>
              collectSubfields ctx runtimeType rest fields' visited'
          | other => other
          end
      | None =>
          collectSubfields ctx runtimeType rest subFieldASTs visitedFragmentNames
      end
  end.

Definition completeValue_step (ctx : ExecutionContext W)
    (returnType : GraphQLType) (fieldASTs : list FieldNode)
    (info : GraphQLResolveInfo) (result : Value) : M W Value :=
  match returnType with
  | GraphQLNonNull ofType =>
      let* completed := completeValue_rec ctx ofType fieldASTs info result in
      match completed with
      | VNull =>
          throw (GraphQLError_
                   ("Cannot return null for non-nullable field "
                    ++ typeToString (info_parentType info) ++ "."
                    ++ info_fieldName info ++ ".")
                   (Some (map NodeOfField fieldASTs)))
      | _ => ret completed
      end
  | GraphQLList ofType =>
      if isNullish result then ret VNull
      else
        match result with
        | VArray items =>
            let* completedResults := mapItems ctx ofType fieldASTs info items in
            ret (VArray completedResults)
        | _ => throw (Error_ "User Error: expected iterable, but did not find one.")
        end
  | GraphQLNamedType _ =>
      if isNullish result then ret VNull
      else if isLeafType (ctx_schema ctx) returnType then
        match serializeOf (ctx_schema ctx) returnType with
        | None => throw (Error_ "Missing serialize method on type")
        | Some serialize =>
            let* serializedResult := liftResult (serialize result) in
            ret (if isNullish serializedResult then VNull else serializedResult)
        end
      else
        let* runtimeType :=
          if isObjectType (ctx_schema ctx) returnType then ret (Some returnType)
          else if isAbstractType (ctx_schema ctx) returnType then
            let* found :=
              liftResult (getObjectType ext (ctx_schema ctx) returnType result info) in
            match found with
            | Some runtimeType =>
                if schema_isPossibleType (ctx_schema ctx) returnType runtimeType
                then ret found
                else
                  throw (GraphQLError_
                           ("Runtime Object type " ++ dquote
                            ++ typeToString runtimeType ++ dquote
                            ++ " is not a possible type for " ++ dquote
                            ++ typeToString returnType ++ dquote ++ ".")
                           (Some (map NodeOfField fieldASTs)))
            | None => ret None
            end
          else ret None in
        match runtimeType with
        | None => ret VNull
        | Some runtimeType =>
            let* accepted :=
              match isTypeOfOf (ctx_schema ctx) runtimeType with
              | Some isTypeOf =>
                  let* r := liftResult (isTypeOf result VUndefined info) in
                  ret (truthy r)
              | None => ret true
              end in
            if accepted then
              let* collected :=
                liftOutcome (collectSubfields ctx runtimeType fieldASTs [] ∅) in
              executeFields_step ctx runtimeType result (fst collected)
            else
              let* got := liftResult (String_ ext result) in
              throw (GraphQLError_
                       ("Expected value of type " ++ dquote
                        ++ typeToString runtimeType ++ dquote
                        ++ " but got: " ++ got ++ ".")
                       (Some (map NodeOfField fieldASTs)))
        end
  end.

End Completion.

Fixpoint completeValue (fuel : nat) (ctx : ExecutionContext W)
    (returnType : GraphQLType) (fieldASTs : list FieldNode)
    (info : GraphQLResolveInfo) (result : Value) : M W Value :=
  match fuel with
  | O => outOfFuel
  | S fuel' =>
      completeValue_step fuel' (completeValue fuel') ctx returnType fieldASTs
        info result
  end.

Definition completeValueCatchingError (fuel : nat) :=
  completeValueCatchingError_step (completeValue fuel).
Definition resolveField (fuel : nat) := resolveField_step (completeValue fuel).
Definition executeFields (fuel : nat) := executeFields_step (completeValue fuel).
Definition executeFieldsSerially (fuel : nat) :=
  executeFieldsSerially_step (completeValue fuel).

Definition executeOperation (fuel : nat) (ctx : ExecutionContext W)
    (operation : OperationDefinitionNode) (rootValue : Value) : M W Value :=
  let* type := liftResult (getOperationRootType (ctx_schema ctx) operation) in
  let* collected :=
    liftOutcome (collectFields fuel ctx type (operation_selectionSet operation) [] ∅) in
  match operation_operation operation with
  | OpMutation => executeFieldsSerially fuel ctx type rootValue (fst collected)
  | _ => executeFields fuel ctx type rootValue (fst collected)
  end.

Definition execute (fuel : nat) (schema : GraphQLSchema W)
    (documentAST : DocumentNode) (rootValue : Value)
    (variableValues : option (gmap string Value))
    (operationName : option string) (w : W)
  : Outcome ExecutionResult * State W :=
  let s0 := mkState [] [] w in
  match buildExecutionContext schema documentAST rootValue variableValues
          operationName with
  | Raise error => (Throw error, s0)
  | Ok context =>
      match tryCatch (executeOperation fuel context (ctx_operation context) rootValue)
              (fun error => fun s => (Ret VNull, pushError error s)) s0 with
      | (Ret data, s) =>
          (Ret (match errors s with
                | [] => mkResult (Some data) None
                | _ => mkResult (Some data) (Some (errors s))
                end), s)
      | (Throw e, s) => (Throw e, s)
      | (OutOfFuel, s) => (OutOfFuel, s)
      end
  end.

End Executor.

End Legacy.

(* ================================================================== *)
(** ** The entry point of src/graphql.js *)
(* ================================================================== *)

Section Graphql.

Context {W : Type}.

(** What the entry point imports: [parse] applied to the [Source] made of
    the request string, [validate], and [execute]. *)
Variable parse : string -> Result DocumentNode.
Variable validate : GraphQLSchema W -> DocumentNode -> Result (list Value).
Variable execute :
  GraphQLSchema W -> DocumentNode -> Value -> Value ->
  option (gmap string Value) -> option string -> W ->
  Outcome ExecutionResult * State W.

(** [graphql(schema, requestString, rootValue, contextValue, variableValues,
    operationName)], started on the world [w]. *)
Definition graphql (schema : GraphQLSchema W) (requestString : option string)
    (rootValue contextValue : Value)
    (variableValues : option (gmap string Value))
    (operationName : option string) (w : W)
  : Outcome ExecutionResult * State W :=
  let s0 := mkState [] [] w in
  match parse (match requestString with
               | Some request => request
               | None => EmptyString
               end) with
  | Raise error => (Ret (mkResult None (Some [error])), s0)
  | Ok documentAST =>
      match validate schema documentAST with
      | Raise error => (Ret (mkResult None (Some [error])), s0)
      | Ok validationErrors =>
          if Nat.ltb 0 (length validationErrors) then
            (Ret (mkResult None (Some validationErrors)), s0)
          else
            match execute schema documentAST rootValue contextValue
                    variableValues operationName w with
            | (Throw error, s) => (Ret (mkResult None (Some [error])), s)
            | finished => finished
            end
      end
  end.

End Graphql.

(* ================================================================== *)
(** ** A concrete instance *)
(* ================================================================== *)

(** Collaborators and schemas to run the executors on: coercion that reads
    literals and variables, error location that keeps a located error as
    it is, and type lookup in the schema's type map. *)
Module Demo.

(** The world of the demo resolvers: a counter. *)
Definition World := nat.

Definition valueFromAST (node : ValueNode) (variables : gmap string Value)
  : option Value :=
  match node with
  | VariableNode name => variables !! name
  | IntValueNode z => Some (VNumber z)
  | StringValueNode s => Some (VString s)
  | BooleanValueNode b => Some (VBoolean b)
  | NullValueNode => Some VNull
  | EnumValueNode s => Some (VString s)
  end.

Fixpoint getArgumentValues (argDefs : list GraphQLArgument)
    (argNodes : list ArgumentNode) (variables : gmap string Value)
  : Result (gmap string Value) :=
  match argDefs with
  | [] => Ok ∅
  | argDef :: rest =>
      let? coerced := getArgumentValues rest argNodes variables in
      let name := argdef_name argDef in
      let given :=
        match find_ argNodes (fun a => String.eqb (argument_name a) name) with
        | Some a => valueFromAST (argument_value a) variables
        | None => argdef_defaultValue argDef
        end in
      match given with
      | Some v => Ok (<[name := v]> coerced)
      | None =>
          if isNonNull (argdef_type argDef) then
            Raise (GraphQLError_
                     ("Argument " ++ dquote ++ name ++ dquote
                      ++ " of required type was not provided.") None)
          else Ok coerced
      end
  end.

Definition getVariableValues (schema : GraphQLSchema World)
    (defs : list VariableDefinitionNode) (raw : gmap string Value)
  : Result (gmap string Value) := Ok raw.

(** The host of the demo. Its values are data and functions; a function
    is either one of [Object.prototype], which has the place of its name in
    [ObjectPrototype] as identifier and is reached through inheritance only,
    or a bound function that returns [undefined]. *)
Fixpoint position (name : string) (names : list string) : option nat :=
  match names with
  | [] => None
  | first :: rest =>
      if String.eqb first name then Some 0
      else option_map S (position name rest)
  end.

(** [Error.prototype.toString]. *)
Definition errorToString (e : ErrorObject) : string :=
  let name :=
    match error_class e with
    | ErrorC => "Error"
    | TypeErrorC => "TypeError"
    | GraphQLErrorC => "GraphQLError"
    end in
  if String.eqb (error_message e) EmptyString then name
  else name ++ ": " ++ error_message e.

Definition cannotConvert : Value :=
  TypeError_ "Cannot convert object to primitive value".

(** What an own property [toString] or [valueOf] contributes to the
    conversion: a function returns [undefined], which is converted;
    anything else is not callable. *)
Definition ownConversion (props : list (string * Value)) (name : string)
  : option (option string) :=
  match lookupProperty props name with
  | Some (VFunction _) => Some (Some "undefined")
  | Some _ => Some None
  | None => None
  end.

(** [String(v)] for an object [v]: an array joins the conversions of its
    items, of which [null] and [undefined] are empty; an object tries its
    [toString], then its [valueOf], its own or those of [Object.prototype],
    and throws when it has neither. *)
Fixpoint objectToString (v : Value) : Result string :=
  match v with
  | VArray items =>
      let? pieces :=
        (fix each (items : list Value) : Result (list string) :=
           match items with
           | [] => Ok []
           | item :: rest =>
               let? piece :=
                 match item with
                 | VUndefined | VNull => Ok EmptyString
                 | VNaN => Ok "NaN"
                 | VBoolean true => Ok "true"
                 | VBoolean false => Ok "false"
                 | VNumber z => Ok (numberToString z)
                 | VString s => Ok s
                 | _ => objectToString item
                 end in
               let? pieces := each rest in
               Ok (piece :: pieces)
           end) items in
      Ok (String.concat "," pieces)
  | VObject inherits props =>
      match ownConversion props "toString" with
      | Some (Some converted) => Ok converted
      | Some None =>
          match ownConversion props "valueOf" with
          | Some (Some converted) => Ok converted
          | _ => Raise cannotConvert
          end
      | None =>
          if inherits then Ok "[object Object]"
          else
            match ownConversion props "valueOf" with
            | Some (Some converted) => Ok converted
            | _ => Raise cannotConvert
            end
      end
  | VFunction _ => Ok "function () { [native code] }"
  | VError e => Ok (errorToString e)
  | _ => Ok EmptyString
  end.

Definition String_ (v : Value) : Result string :=
  match v with
  | VUndefined => Ok "undefined"
  | VNull => Ok "null"
  | VNaN => Ok "NaN"
  | VBoolean true => Ok "true"
  | VBoolean false => Ok "false"
  | VNumber z => Ok (numberToString z)
  | VString s => Ok s
  | _ => objectToString v
  end.

(** What an object literal inherits: the functions of [Object.prototype],
    and under [__proto__] the prototype, an object without enumerable
    properties. In the demo an array, an error, a function and a
    primitive have no property beyond what their representation holds. *)
Definition hostProperty (source : Value) (name : string) : Value :=
  match source with
  | VObject true _ =>
      if String.eqb name "__proto__" then VObject true []
      else
        match position name ObjectPrototype with
        | Some id => VFunction id
        | None => VUndefined
        end
  | _ => VUndefined
  end.

(** The call [this[name](args, context, info)] of a function. *)
Definition callFunction (id : nat) (this : Value) (args : gmap string Value)
    (context : Value) (info : GraphQLResolveInfo) (w : World)
  : Result Value * World :=
  let ownKey :=
    let? key := objectToString (VObject true (map_to_list args)) in
    Ok (VBoolean (isSome (lookupProperty (ownProperties this) key))) in
  let expectsFunction name :=
    match context with
    | VFunction _ => Ok VUndefined
    | _ => Raise (TypeError_ ("Object.prototype." ++ name ++ ": Expecting function"))
    end in
  (match nth_error ObjectPrototype id with
   | Some name =>
       if String.eqb name "constructor" then Ok (VObject true (map_to_list args))
       else if String.eqb name "toString" then Ok (VString "[object Object]")
       else if String.eqb name "toLocaleString" then
         match lookupProperty (ownProperties this) "toString" with
         | None => Ok (VString "[object Object]")
         | Some (VFunction _) => Ok VUndefined
         | Some _ => Raise (TypeError_ "this.toString is not a function")
         end
       else if String.eqb name "valueOf" then Ok this
       else if String.eqb name "hasOwnProperty"
               || String.eqb name "propertyIsEnumerable" then ownKey
       else if String.eqb name "isPrototypeOf" then Ok (VBoolean false)
       else if String.eqb name "__defineGetter__"
               || String.eqb name "__defineSetter__" then expectsFunction name
       else Ok VUndefined
   | None => Ok VUndefined
   end, w).

(** iterall on the objects of the demo: an object is a collection when its
    [length] is a natural number or its [@@iterator] is a function, and so
    is every function. A [forEach] of the object's own, and its iterator,
    are functions of the demo: they visit nothing. Otherwise [forEach]
    visits the own properties under the indices below the length, asking
    the object's [hasOwnProperty]. *)
Definition lengthOf (obj : Value) : option nat :=
  match lookupProperty (ownProperties obj) "length" with
  | Some (VNumber z) => if (0 <=? z)%Z then Some (Z.to_nat z) else None
  | _ => None
  end.

Definition isFunction (v : option Value) : bool :=
  match v with Some (VFunction _) => true | _ => false end.

Definition iterall_isCollection (obj : Value) : bool :=
  match obj with
  | VObject _ props =>
      isSome (lengthOf obj) || isFunction (lookupProperty props "@@iterator")
  | VFunction _ => true
  | _ => false
  end.

Definition iterall_forEach (collection : Value)
  : list (PathKey * Value) * option Value :=
  match collection with
  | VObject inherits props =>
      if isFunction (lookupProperty props "forEach") then ([], None)
      else
        match lengthOf collection with
        | None | Some O => ([], None)
        | Some length =>
            match lookupProperty props "hasOwnProperty" with
            | Some (VFunction _) => ([], None)
            | None =>
                if inherits then
                  (flat_map
                     (fun index =>
                        match lookupProperty props
                                (NilZero.string_of_uint (Nat.to_uint index)) with
                        | Some item => [(KeyIndex index, item)]
                        | None => []
                        end) (seq 0 length), None)
                else
                  ([], Some (TypeError_ "collection.hasOwnProperty is not a function"))
            | Some _ =>
                ([], Some (TypeError_ "collection.hasOwnProperty is not a function"))
            end
        end
  | _ => ([], None)
  end.

(** [locatedError] keeps a thrown value that has a path as it is; otherwise
    it makes an error of the message of the thrown value or, when it has
    none, of its conversion to a string; what that conversion throws, when
    it throws, stands for the error. *)
Definition locatedError (error : Value) (nodes : list FieldNode)
    (path : option (list PathKey)) : Value :=
  let located message :=
    VError (mkError GraphQLErrorC message (Some (map NodeOfField nodes)) path) in
  match error with
  | VError e =>
      match error_path e with
      | Some _ => error
      | None =>
          VError (mkError GraphQLErrorC
                    (if String.eqb (error_message e) EmptyString
                     then errorToString e else error_message e)
                    (match error_nodes e with
                     | Some ns => Some ns
                     | None => Some (map NodeOfField nodes)
                     end)
                    path)
      end
  | v =>
      if truthy v then
        if truthy (match lookupProperty (ownProperties v) "path" with
                   | Some p => p
                   | None => VUndefined
                   end)
        then v
        else
          match match lookupProperty (ownProperties v) "message" with
                | Some m => if truthy m then String_ m else String_ v
                | None => String_ v
                end with
          | Ok message => located message
          | Raise failure => failure
          end
      else located "An unknown error occurred."
  end.

Definition TypeNameMetaFieldDef : GraphQLField World :=
  mkFieldDef "__typename" (GraphQLNonNull (GraphQLNamedType "String")) []
    (Some (fun source args context info w =>
             (Ok (VString (typeName (info_parentType info))), w))).

Definition SchemaMetaFieldDef : GraphQLField World :=
  mkFieldDef "__schema" (GraphQLNonNull (GraphQLNamedType "__Schema")) []
    (Some (fun source args context info w => (Ok (VObject true []), w))).

Definition TypeMetaFieldDef : GraphQLField World :=
  mkFieldDef "__type" (GraphQLNamedType "__Type")
    [mkArgumentDef "name" (GraphQLNonNull (GraphQLNamedType "String")) None]
    (Some (fun source args context info w => (Ok VNull, w))).

(** The earlier type system's [getObjectType]: the declared [resolveType],
    or the first possible type whose [isTypeOf] accepts the value. *)
Fixpoint getTypeOf (schema : GraphQLSchema World) (possibleTypes : list GraphQLType)
    (value : Value) (info : GraphQLResolveInfo) : Result (option GraphQLType) :=
  match possibleTypes with
  | [] => Ok None
  | type :: rest =>
      match isTypeOfOf schema type with
      | Some isTypeOf =>
          let? r := isTypeOf value VUndefined info in
          if truthy r then Ok (Some type) else getTypeOf schema rest value info
      | None => getTypeOf schema rest value info
      end
  end.

Definition getObjectType (schema : GraphQLSchema World) (abstractType : GraphQLType)
    (value : Value) (info : GraphQLResolveInfo) : Result (option GraphQLType) :=
  match resolveTypeOf schema abstractType with
  | Some resolveType =>
      let? r := resolveType value VUndefined info in
      Ok (match r with RuntimeType t => Some t | _ => None end)
  | None => getTypeOf schema (schema_getPossibleTypes schema abstractType) value info
  end.

Definition ext : Externals World :=
  mkExternals getArgumentValues getVariableValues locatedError
    (fun schema name => getType schema name)
    SchemaMetaFieldDef TypeMetaFieldDef TypeNameMetaFieldDef
    callFunction getObjectType
    objectToString hostProperty iterall_isCollection iterall_forEach.

(** Scalars: [String] serializes with [String(value)]; [Odd] keeps odd
    numbers and has no serialization for anything else. *)
Definition StringType : TypeDefinition World :=
  GraphQLScalarType
    (Some (fun v =>
             let? converted := String_ v in
             Ok (VString converted))).

Definition OddType : TypeDefinition World :=
  GraphQLScalarType
    (Some (fun v =>
             match v with
             | VNumber z => if Z.odd z then Ok v else Ok VNull
             | _ => Ok VNull
             end)).

(** [Strict] serializes numbers and throws on anything else. *)
Definition StrictType : TypeDefinition World :=
  GraphQLScalarType
    (Some (fun v =>
             match v with
             | VNumber _ => Ok v
             | _ =>
                 let? converted := String_ v in
                 Raise (TypeError_ ("Strict cannot represent " ++ converted))
             end)).

Definition String_t := GraphQLNamedType "String".
Definition Odd_t := GraphQLNamedType "Odd".
Definition Strict_t := GraphQLNamedType "Strict".
Definition Query_t := GraphQLNamedType "Query".
Definition Mutation_t := GraphQLNamedType "Mutation".
Definition Node_t := GraphQLNamedType "Node".
Definition Pet_t := GraphQLNamedType "Pet".
Definition Dog_t := GraphQLNamedType "Dog".
Definition Cat_t := GraphQLNamedType "Cat".

Definition constant (v : Value) : GraphQLFieldResolver World :=
  fun source args context info w => (Ok v, w).

Definition failing (thrown : Value) : GraphQLFieldResolver World :=
  fun source args context info w => (Raise thrown, w).

(** A resolver with an effect: it answers the counter and increments it. *)
Definition bump : GraphQLFieldResolver World :=
  fun source args context info w => (Ok (VNumber (Z.of_nat w)), S w).

Definition kindIs (kind : string)
  : Value -> Value -> GraphQLResolveInfo -> Result Value :=
  fun value context info =>
    Ok (match lookupProperty (ownProperties value) "kind" with
        | Some (VString k) => VBoolean (String.eqb k kind)
        | _ => VBoolean false
        end).

Definition rootFields : list (string * GraphQLField World) :=
  [ ("hello", mkFieldDef "hello" String_t [] (Some (constant (VString "world"))));
    ("even", mkFieldDef "even" Odd_t [] (Some (constant (VNumber 2))));
    ("numbers", mkFieldDef "numbers" (GraphQLList Strict_t) []
                  (Some (constant (VArray [VNumber 1; VString "x"; VNumber 3]))));
    ("node", mkFieldDef "node" Node_t []
               (Some (constant (VObject true [("id", VNull)]))));
    ("fish", mkFieldDef "fish" Pet_t []
               (Some (constant (VObject true [("kind", VString "fish")]))));
    ("cat", mkFieldDef "cat" Pet_t []
              (Some (constant (VObject true [("kind", VString "cat")]))));
    ("oops", mkFieldDef "oops" String_t [] (Some (failing (VString "boom"))));
    ("bump", mkFieldDef "bump" Strict_t [] (Some bump)) ].

Definition typeMap : gmap string (TypeDefinition World) :=
  list_to_map
    [ ("String", StringType); ("Odd", OddType); ("Strict", StrictType);
      ("Query", GraphQLObjectType rootFields None);
      ("Mutation", GraphQLObjectType rootFields None);
      ("Node", GraphQLObjectType
                 [("id", mkFieldDef "id" (GraphQLNonNull String_t) [] None)] None);
      ("Pet", GraphQLUnionType None);
      ("Dog", GraphQLObjectType
                [("kind", mkFieldDef "kind" String_t [] None)] (Some (kindIs "dog")));
      ("Cat", GraphQLObjectType
                [("kind", mkFieldDef "kind" String_t [] None)] (Some (kindIs "cat"))) ].

Definition possibleTypes (abstractType : GraphQLType) : list GraphQLType :=
  if GraphQLType_eqb abstractType Pet_t then [Dog_t; Cat_t] else [].

Definition schema : GraphQLSchema World :=
  mkSchema typeMap Query_t (Some Mutation_t) None possibleTypes
    (fun abstractType t => existsb (GraphQLType_eqb t) (possibleTypes abstractType)).

Definition fieldNode (name : string) : FieldNode := mkField None name [] (Some []) None.

Definition fieldWith (name : string) (selectionSet : list SelectionNode) : FieldNode :=
  mkField None name [] (Some []) (Some selectionSet).

Definition aliased (alias name : string) : FieldNode :=
  mkField (Some alias) name [] (Some []) None.

Definition query (selectionSet : list SelectionNode) : OperationDefinitionNode :=
  mkOperation OpQuery None None (Some []) selectionSet.

Definition mutation (selectionSet : list SelectionNode) : OperationDefinitionNode :=
  mkOperation OpMutation None None (Some []) selectionSet.

(** The context of a run of [operation] on [schema]. *)
Definition context (operation : OperationDefinitionNode)
    (fragments : gmap string FragmentDefinitionNode) : ExecutionContext World :=
  mkContext schema fragments VNull VNull operation ∅
    (Execute.defaultFieldResolver ext).

Definition info (parentType : GraphQLType) (name : string) (returnType : GraphQLType)
    (path : ResponsePath) : GraphQLResolveInfo :=
  mkInfo name [fieldNode name] returnType parentType path VNull (query []) ∅.

Definition directive (name : string) (value : bool) : DirectiveNode :=
  mkDirective name [mkArgument "if" (BooleanValueNode value)].

End Demo.

(* ================================================================== *)
(** ** Vocabulary of the statements *)
(* ================================================================== *)

(** Inclusion as the directive rule words it: [@skip] with a true [if]
    excludes; otherwise [@include] decides when it is there. The arguments
    are the coerced [if] values of the two directives, [None] for a
    directive that is absent. *)
Definition includedBySkipThenInclude (skipIf includeIf : option bool) : bool :=
  match skipIf with
  | Some true => false
  | _ => match includeIf with
         | Some b => b
         | None => true
         end
  end.

Fixpoint countOperations (document : DocumentNode) : nat :=
  match document with
  | [] => 0
  | OPERATION_DEFINITION _ :: rest => S (countOperations rest)
  | _ :: rest => countOperations rest
  end.

Definition isExecutableDefinition (d : DefinitionNode) : bool :=
  match d with OTHER_DEFINITION _ => false | _ => true end.

Definition ambiguousOperation : Value :=
  GraphQLError_ "Must provide operation name if query contains multiple operations." None.

Definition unsupportedDefinition (kind : string) : Value :=
  GraphQLError_ ("GraphQL cannot execute a request containing a " ++ kind ++ ".")
    (Some [NodeOfDefinition (OTHER_DEFINITION kind)]).

(** The error of a leaf type that has no serialization of a result,
    [received] being the result as a string. *)
Definition invalidLeafValue (returnType : GraphQLType) (received : string) : Value :=
  Error_ ("Expected a value of type " ++ dquote ++ typeToString returnType ++ dquote
          ++ " but received: " ++ received).

(** What the [catch] of [resolveFieldValueOrError] makes of a thrown value:
    the value itself when it is an Error, [new Error(thrown)] otherwise,
    which is a result when it is built and a failure when the conversion
    of the thrown value to a string throws. *)
Definition capturedError {W} (ext : Externals W) (thrown : Value) : Result Value :=
  if instanceofError thrown then Ok thrown else newError ext thrown.

(** A failure of that conversion: what [new Error(thrown)] throws for some
    thrown value that is no Error. *)
Definition unconverted {W} (ext : Externals W) (failure : Value) : Prop :=
  exists thrown, instanceofError thrown = false /\ newError ext thrown = Raise failure.

(** The state after a resolver call that left the world [w]. *)
Definition logCall {W} (s : State W) (info : GraphQLResolveInfo) (source : Value) (w : W)
  : State W :=
  mkState (errors s)
          (calls s ++ [mkCall (info_parentType info) (info_fieldName info) source]) w.

(** The field definition the first node of a grouping entry names. *)
Definition fieldDefOf {W} (ext : Externals W) (schema : GraphQLSchema W)
    (parentType : GraphQLType) (fieldNodes : list FieldNode) : option (GraphQLField W) :=
  match fieldNodes with
  | node :: _ => Execute.getFieldDef ext schema parentType (field_name node)
  | [] => None
  end.

(** The type predicate of [t] is there and says no, or is absent. *)
Definition predicateRejects {W} (ctx : ExecutionContext W) (result : Value)
    (info : GraphQLResolveInfo) (t : GraphQLType) : Prop :=
  isTypeOfOf (ctx_schema ctx) t = None
  \/ exists isTypeOf v,
       isTypeOfOf (ctx_schema ctx) t = Some isTypeOf
       /\ isTypeOf result (ctx_contextValue ctx) info = Ok v
       /\ truthy v = false.

(** The type predicate of [t] is there and says yes. *)
Definition predicateAccepts {W} (ctx : ExecutionContext W) (result : Value)
    (info : GraphQLResolveInfo) (t : GraphQLType) : Prop :=
  exists isTypeOf v,
    isTypeOfOf (ctx_schema ctx) t = Some isTypeOf
    /\ isTypeOf result (ctx_contextValue ctx) info = Ok v
    /\ truthy v = true.

(** Object completion does not stop at the type predicate of [t]. *)
Definition typePredicatePasses {W} (ctx : ExecutionContext W) (t : GraphQLType)
    (result : Value) (info : GraphQLResolveInfo) : Prop :=
  isTypeOfOf (ctx_schema ctx) t = None \/ predicateAccepts ctx result info t.

(** The runtime type an abstract type proposes for [result]: what its
    [resolveType] returns, or the answer of the default strategy. *)
Definition runtimeTypeCandidate {W} (ctx : ExecutionContext W) (returnType : GraphQLType)
    (result : Value) (info : GraphQLResolveInfo) : Result RuntimeTypeOrName :=
  match resolveTypeOf (ctx_schema ctx) returnType with
  | Some resolveType => resolveType result (ctx_contextValue ctx) info
  | None =>
      Execute.defaultResolveTypeFn (ctx_schema ctx) result (ctx_contextValue ctx)
        info returnType
  end.

(** The error of an abstract type whose runtime type is no object type,
    [value] and [received] being the result and the candidate as
    strings. *)
Definition invalidRuntimeType (returnType : GraphQLType) (info : GraphQLResolveInfo)
    (value received : string) (fieldNodes : list FieldNode) : Value :=
  GraphQLError_
    ("Abstract type " ++ typeName returnType
     ++ " must resolve to an Object type at runtime for field "
     ++ typeName (info_parentType info) ++ "." ++ info_fieldName info
     ++ " with value " ++ dquote ++ value ++ dquote
     ++ ", received " ++ dquote ++ received ++ dquote ++ ".")
    (Some (map NodeOfField fieldNodes)).

(** What [ensureValidRuntimeType] throws for a candidate that is no object
    type, [received] being the conversion of the candidate to a string: the
    template of the message converts the result first, then the candidate,
    and either conversion may throw. *)
Definition notAnObjectType {W} (ext : Externals W) (returnType : GraphQLType)
    (info : GraphQLResolveInfo) (result : Value) (received : Result string)
    (fieldNodes : list FieldNode) : Value :=
  match String_ ext result with
  | Ok value =>
      match received with
      | Ok candidate => invalidRuntimeType returnType info value candidate fieldNodes
      | Raise failure => failure
      end
  | Raise failure => failure
  end.

(** The error of an object type whose type predicate rejects a result,
    [got] being the result as a string. *)
Definition rejectedValue (returnType : GraphQLType) (got : string)
    (fieldNodes : list FieldNode) : Value :=
  GraphQLError_
    ("Expected value of type " ++ dquote ++ typeName returnType ++ dquote
     ++ " but got: " ++ got ++ ".")
    (Some (map NodeOfField fieldNodes)).

Definition impossibleRuntimeType (returnType runtimeType : GraphQLType)
    (fieldNodes : list FieldNode) : Value :=
  GraphQLError_
    ("Runtime Object type " ++ dquote ++ typeName runtimeType ++ dquote
     ++ " is not a possible type for " ++ dquote ++ typeName returnType ++ dquote ++ ".")
    (Some (map NodeOfField fieldNodes)).

(** Two runs end alike: the same completion, the same state (error list,
    resolver calls, world), and result objects with the same own properties
    in the same order. *)
Definition sameRun {W} (a b : Outcome Value * State W) : Prop :=
  snd a = snd b
  /\ match fst a, fst b with
     | Ret x, Ret y => ownProperties x = ownProperties y
     | Throw e1, Throw e2 => e1 = e2
     | OutOfFuel, OutOfFuel => True
     | _, _ => False
     end.

(** *** Inputs of the examples *)

Definition demoContext : ExecutionContext Demo.World := Demo.context (Demo.query []) ∅.

Definition demoState : State Demo.World := mkState [] [] 0.

Definition skipAndInclude (skipIf includeIf : bool) : option (list DirectiveNode) :=
  Some [Demo.directive "skip" skipIf; Demo.directive "include" includeIf].

(** [fragment F { a }], and the spread [...F]. *)
Definition fragmentF : FragmentDefinitionNode :=
  mkFragment "F" (Some "Query") None [FIELD (Demo.fieldNode "a")].

Definition contextF : ExecutionContext Demo.World :=
  Demo.context (Demo.query []) (<["F" := fragmentF]> ∅).

Definition spreadF (directives : option (list DirectiveNode)) : SelectionNode :=
  FRAGMENT_SPREAD "F" directives.

Definition selectFields (names : list string) : list SelectionNode :=
  map (fun name => FIELD (Demo.fieldNode name)) names.

Definition rootPath (name : string) : ResponsePath := PathCons PathRoot (KeyName name).

(** [{ node { id } }]: the field [id] of type [String!] resolves to [null]. *)
Definition nodeField : FieldNode := Demo.fieldWith "node" (selectFields ["id"]).

Definition nodeValue : Value := VObject true [("id", VNull)].

Definition nonNullViolation : Value :=
  Error_ "Cannot return null for non-nullable field Node.id.".

(** [{ fish { kind } }]: a value no possible type of [Pet] accepts. *)
Definition fishField : FieldNode := Demo.fieldWith "fish" (selectFields ["kind"]).

Definition fishValue : Value := VObject true [("kind", VString "fish")].

(** [mutation { __proto__: hello }] after collection. *)
Definition protoFields : FieldsMap := [("__proto__", [Demo.aliased "__proto__" "hello"])].

(** [{ hello } { bump }]: two operations without a name. *)
Definition twoOperations : DocumentNode :=
  [OPERATION_DEFINITION (Demo.query (selectFields ["hello"]));
   OPERATION_DEFINITION (Demo.query (selectFields ["bump"]))].

(** The same with a type-system definition between the two. *)
Definition twoOperationsAndSchema : DocumentNode :=
  [OPERATION_DEFINITION (Demo.query (selectFields ["hello"]));
   OTHER_DEFINITION "SchemaDefinition";
   OPERATION_DEFINITION (Demo.query (selectFields ["bump"]))].

Definition oddSerialize (v : Value) : Result Value :=
  match v with
  | VNumber z => if Z.odd z then Ok v else Ok VNull
  | _ => Ok VNull
  end.

Definition catValue : Value := VObject true [("kind", VString "cat")].

Definition numbersField : FieldNode := Demo.fieldNode "numbers".

Definition numbersInfo : GraphQLResolveInfo :=
  Demo.info Demo.Query_t "numbers" (GraphQLList Demo.Strict_t) (rootPath "numbers").

Definition strictFailure : Value := TypeError_ "Strict cannot represent x".

Definition oopsResolver : GraphQLFieldResolver Demo.World := Demo.failing (VString "boom").

Definition oopsField : GraphQLField Demo.World :=
  mkFieldDef "oops" Demo.String_t [] (Some oopsResolver).


Definition nodeInfo : GraphQLResolveInfo :=
  mkInfo "node" [nodeField] Demo.Node_t Demo.Query_t (rootPath "node") VNull
    (Demo.query []) ∅.

Definition idFailure : Value :=
  locatedError Demo.ext nonNullViolation [Demo.fieldNode "id"]
    (Some [KeyName "node"; KeyName "id"]).

(* ================================================================== *)
(** ** Vocabulary of the further properties *)
(* ================================================================== *)

(** An error that went through [locatedError] with a response path. *)
Definition located {W} (ext : Externals W) (error : Value) : Prop :=
  exists thrown nodes path, error = locatedError ext thrown nodes (Some path).

(** The error list of [s'] is that of [s] followed by located errors. *)
Definition recordsLocated {W} (ext : Externals W) (s s' : State W) : Prop :=
  exists new, errors s' = errors s ++ new /\ Forall (located ext) new.

(** A grouping as [collectFields] builds it: no entry is empty, and every
    node of an entry has the entry's key as response key. *)
Definition wellGrouped (fields : FieldsMap) : bool :=
  forallb (fun entry =>
             isSome (head (snd entry))
             && forallb (fun node => String.eqb (getFieldEntryKey node) (fst entry))
                        (snd entry)) fields.

(** What collection does to the grouping and the visited set: the visited
    set grows, the keys keep their places with new ones after them, an entry
    keeps its nodes with new ones after them, and the grouping stays without
    a repeated key and well grouped when it was. *)
Definition extendsGrouping (before after : FieldsMap * gset string) : Prop :=
  snd before ⊆ snd after
  /\ (exists added, map fst (fst after) = map fst (fst before) ++ added)
  /\ (forall key nodes, In (key, nodes) (fst before) ->
        exists more, In (key, nodes ++ more) (fst after))
  /\ (NoDup (map fst (fst before)) -> NoDup (map fst (fst after)))
  /\ (wellGrouped (fst before) = true -> wellGrouped (fst after) = true).

(** How deep inline fragments nest in a selection. *)
Fixpoint selectionDepth (selection : SelectionNode) : nat :=
  match selection with
  | INLINE_FRAGMENT _ _ selectionSet =>
      S (fold_right (fun s depth => Nat.max (selectionDepth s) depth) 0 selectionSet)
  | _ => 0
  end.

Definition selectionSetDepth (selections : list SelectionNode) : nat :=
  fold_right (fun s depth => Nat.max (selectionDepth s) depth) 0 selections.

(** How deep fields and inline fragments nest in a selection. *)
Fixpoint nesting (selection : SelectionNode) : nat :=
  match selection with
  | FIELD (mkField _ _ _ _ selectionSet) =>
      S (match selectionSet with
         | Some selections =>
             fold_right (fun s depth => Nat.max (nesting s) depth) 0 selections
         | None => 0
         end)
  | INLINE_FRAGMENT _ _ selections =>
      S (fold_right (fun s depth => Nat.max (nesting s) depth) 0 selections)
  | FRAGMENT_SPREAD _ _ => 0
  end.

Definition nestingOf (selections : list SelectionNode) : nat :=
  fold_right (fun s depth => Nat.max (nesting s) depth) 0 selections.

(** The number of list and non-null wrappers of a type. *)
Fixpoint typeDepth (t : GraphQLType) : nat :=
  match t with
  | GraphQLNonNull ofType | GraphQLList ofType => S (typeDepth ofType)
  | GraphQLNamedType _ => 0
  end.

(** The fragments of the context that are not visited yet. *)
Definition unvisitedFragments {W} (ctx : ExecutionContext W) (visited : gset string)
  : gset string :=
  dom (ctx_fragments ctx) ∖ visited.

(** The selections of a field node, none when it has no selection set. *)
Definition subSelections (node : FieldNode) : list SelectionNode :=
  match field_selectionSet node with
  | Some selectionSet => selectionSet
  | None => []
  end.

(** The schema knows the field an entry of the grouping names. *)
Definition knownField {W} (ext : Externals W) (schema : GraphQLSchema W)
    (parentType : GraphQLType) (entry : string * list FieldNode) : bool :=
  isSome (fieldDefOf ext schema parentType (snd entry)).

(** The field an entry names is unknown or of a type that is not
    non-null. *)
Definition nullableOrUnknown {W} (ext : Externals W) (schema : GraphQLSchema W)
    (parentType : GraphQLType) (entry : string * list FieldNode) : bool :=
  match snd entry with
  | [] => false
  | _ =>
      match fieldDefOf ext schema parentType (snd entry) with
      | Some fieldDef => negb (isNonNull (fielddef_type fieldDef))
      | None => true
      end
  end.

(** Every field node of the grouping has sub-selections that nest less
    than [depth] deep. *)
Definition shallowerThan (depth : nat) (fields : FieldsMap) : Prop :=
  Forall (fun entry =>
            Forall (fun node => nestingOf (subSelections node) < depth) (snd entry))
         fields.

(** The operation definitions and the fragment definitions of a document,
    in order. *)
Definition operationsOf (document : DocumentNode) : list OperationDefinitionNode :=
  flat_map (fun definition =>
              match definition with
              | OPERATION_DEFINITION operation => [operation]
              | _ => []
              end) document.

Definition fragmentsOf (document : DocumentNode) : list FragmentDefinitionNode :=
  flat_map (fun definition =>
              match definition with
              | FRAGMENT_DEFINITION fragment => [fragment]
              | _ => []
              end) document.

(** An operation the request asks for: any when no name is given, the ones
    of that name otherwise. *)
Definition answersTo (operationName : option string) (operation : OperationDefinitionNode)
  : bool :=
  negb (provided operationName)
  || match operation_name operation, operationName with
     | Some name, Some wanted => String.eqb name wanted
     | _, _ => false
     end.

(** The last element of a list that satisfies a test. *)
Definition lastSuch {A} (test : A -> bool) (l : list A) : option A :=
  find_ (rev l) test.

Definition unknownOperation (operationName : option string) : Value :=
  match operationName with
  | Some name =>
      if provided operationName then
        GraphQLError_ ("Unknown operation named " ++ dquote ++ name ++ dquote ++ ".") None
      else GraphQLError_ "Must provide an operation." None
  | None => GraphQLError_ "Must provide an operation." None
  end.

(** *** Inputs of the further examples *)

(** [fragment A { hello ...B }] and [fragment B { bump ...A }]: two fragments
    that spread each other. *)
Definition fragmentA : FragmentDefinitionNode :=
  mkFragment "A" (Some "Query") None
    [FIELD (Demo.fieldNode "hello"); FRAGMENT_SPREAD "B" None].

Definition fragmentB : FragmentDefinitionNode :=
  mkFragment "B" (Some "Query") None
    [FIELD (Demo.fieldNode "bump"); FRAGMENT_SPREAD "A" None].

Definition cyclicContext : ExecutionContext Demo.World :=
  Demo.context (Demo.query []) (<["A" := fragmentA]> (<["B" := fragmentB]> ∅)).

(** A schema without a mutation type. *)
Definition queryOnlySchema : GraphQLSchema Demo.World :=
  mkSchema Demo.typeMap Demo.Query_t None None Demo.possibleTypes
    (fun abstractType t =>
       existsb (GraphQLType_eqb t) (Demo.possibleTypes abstractType)).

Definition namedQuery (name : string) (selectionSet : list SelectionNode)
  : OperationDefinitionNode :=
  mkOperation OpQuery (Some name) None (Some []) selectionSet.

(** [query A { hello } fragment F { a } query B { bump } query A { even }]. *)
Definition namedOperations : DocumentNode :=
  [OPERATION_DEFINITION (namedQuery "A" (selectFields ["hello"]));
   FRAGMENT_DEFINITION fragmentF;
   OPERATION_DEFINITION (namedQuery "B" (selectFields ["bump"]));
   OPERATION_DEFINITION (namedQuery "A" (selectFields ["even"]))].


Definition oopsFailure : Value :=
  locatedError Demo.ext (Error_ "boom") [Demo.fieldNode "oops"] (Some [KeyName "oops"]).

(** [{ __type }]: the required argument [name] is missing. *)
Definition typeField : FieldNode := Demo.fieldNode "__type".

Definition missingArgument : Value :=
  GraphQLError_ ("Argument " ++ dquote ++ "name" ++ dquote
                 ++ " of required type was not provided.") None.

Definition kindField : GraphQLField Demo.World :=
  mkFieldDef "kind" Demo.String_t [] None.

Definition helloField : GraphQLField Demo.World :=
  mkFieldDef "hello" Demo.String_t [] (Some (Demo.constant (VString "world"))).

(** A type whose field [child] is of the type itself, and the fragment
    [fragment T on Tree { child { ...T } }], which spreads itself below the
    field it selects. *)
Definition Tree_t : GraphQLType := GraphQLNamedType "Tree".

Definition childField : GraphQLField Demo.World :=
  mkFieldDef "child" Tree_t [] (Some (Demo.constant (VObject true []))).

Definition treeSchema : GraphQLSchema Demo.World :=
  mkSchema (<["Tree" := GraphQLObjectType [("child", childField)] None]> ∅)
    Tree_t None None (fun _ => []) (fun _ _ => false).

Definition childNode : FieldNode :=
  mkField None "child" [] None (Some [FRAGMENT_SPREAD "T" None]).

Definition fragmentT : FragmentDefinitionNode :=
  mkFragment "T" (Some "Tree") None [FIELD childNode].

Definition treeContext : ExecutionContext Demo.World :=
  mkContext treeSchema (<["T" := fragmentT]> ∅) VNull VNull
    (Demo.query [FRAGMENT_SPREAD "T" None]) ∅ (Execute.defaultFieldResolver Demo.ext).

Definition validationError : Value := GraphQLError_ "Cannot query field" None.







(** [{ hello __schema }]: the demo schema has no type [__Schema]. *)
Definition helloAndSchema : FieldsMap :=
  [("hello", [Demo.fieldNode "hello"]); ("__schema", [Demo.fieldNode "__schema"])].

Definition schemaFailure : Value :=
  locatedError Demo.ext
    (Error_ ("Cannot complete value of unexpected type " ++ dquote ++ "__Schema"
             ++ dquote ++ "."))
    [Demo.fieldNode "__schema"] (Some [KeyName "__schema"]).



(* ================================================================== *)
(** ** Properties of the executors *)
(* ================================================================== *)

Section Facts.

Context {W : Type} (ext : Externals W).

(** *** Directives *)

Lemma coercedIf_some ctx directives def v :
  coercedIf ext ctx directives def = Ok (Some v) ->
  exists node, findDirective directives def = Some node
               /\ ifArgument ext ctx def node = Ok v.
Proof.
  unfold coercedIf. destruct (findDirective directives def) as [node|]; [|discriminate].
  destruct (ifArgument ext ctx def node) as [x|x] eqn:E; simpl; [|discriminate].
  intros H; inversion H; subst; eauto.
Qed.

Lemma coercedIf_none ctx directives def :
  coercedIf ext ctx directives def = Ok None ->
  findDirective directives def = None.
Proof.
  unfold coercedIf. destruct (findDirective directives def) as [node|]; [|done].
  destruct (ifArgument ext ctx def node); discriminate.
Qed.

(** C3, as amended. When the coerced [if] arguments are booleans, the
    executor of src/graphql.js gives [@skip] precedence over [@include]: a
    true [@skip] excludes the node whatever [@include] says; otherwise a
    present [@include] decides; with neither the node is included. The
    executor of src/execution/execute.js lets a present [@skip] decide alone
    (included iff its [if] is false) and reads [@include] only when there is
    no [@skip]. *)
Theorem shouldIncludeNode_skip_over_include ctx directives
    (skipIf includeIf : option bool) :
  coercedIf ext ctx directives GraphQLSkipDirective = Ok (option_map VBoolean skipIf) ->
  (skipIf <> Some true ->
   coercedIf ext ctx directives GraphQLIncludeDirective
   = Ok (option_map VBoolean includeIf)) ->
  Execute.shouldIncludeNode ext ctx directives
  = Ok (includedBySkipThenInclude skipIf includeIf)
  /\ Legacy.shouldIncludeNode ext ctx directives
     = Ok (match skipIf with
           | Some b => negb b
           | None => match includeIf with Some b => b | None => true end
           end).
Proof.
  intros Hs Hi. unfold Execute.shouldIncludeNode, Legacy.shouldIncludeNode.
  destruct skipIf as [[|]|]; simpl in Hs.
  - apply coercedIf_some in Hs as (n & -> & ->). simpl. done.
  - apply coercedIf_some in Hs as (n & -> & ->). simpl.
    specialize (Hi ltac:(discriminate)).
    destruct includeIf as [b|]; simpl in Hi.
    + apply coercedIf_some in Hi as (m & -> & ->). simpl. by destruct b.
    + apply coercedIf_none in Hi as ->. done.
  - apply coercedIf_none in Hs as ->. simpl.
    specialize (Hi ltac:(discriminate)).
    destruct includeIf as [b|]; simpl in Hi.
    + apply coercedIf_some in Hi as (m & -> & ->). simpl. by destruct b.
    + apply coercedIf_none in Hi as ->. done.
Qed.

(** *** Selection collection *)





(** *** Construction of the execution context *)

Lemma forEachDefinition_ambiguous operationName definitions operation fragments :
  provided operationName = false ->
  2 <= countOperations definitions + (if isSome operation then 1 else 0) ->
  exists error,
    Execute.forEachDefinition operationName definitions operation fragments = Raise error
    /\ (error = ambiguousOperation
        \/ exists kind, In (OTHER_DEFINITION kind) definitions
                        /\ error = unsupportedDefinition kind).
Proof.
  intros Hp. revert operation fragments.
  induction definitions as [|d rest IH]; intros operation fragments Hn.
  - exfalso. destruct operation; simpl in Hn; lia.
  - destruct d as [op|fragment|kind]; cbn [Execute.forEachDefinition].
    + rewrite Hp. cbn [negb andb orb].
      destruct operation as [o|]; cbn [isSome].
      * eexists. split; [reflexivity|]. by left.
      * destruct (IH (Some op) fragments) as (e & He & Hk).
        { cbn [countOperations isSome] in *. lia. }
        exists e. split; [done|]. destruct Hk as [-> |(k & Hin & ->)]; [by left|].
        right. exists k. split; [by right|done].
    + destruct (IH operation (<[fragment_name fragment:=fragment]> fragments))
        as (e & He & Hk).
      { cbn [countOperations isSome] in *. lia. }
      exists e. split; [done|]. destruct Hk as [-> |(k & Hin & ->)]; [by left|].
      right. exists k. split; [by right|done].
    + eexists. split; [reflexivity|]. right. exists kind. split; [by left|done].
Qed.

Lemma forEachDefinition_prefix operationName pre rest operation fragments :
  provided operationName = false ->
  forallb isExecutableDefinition pre = true ->
  countOperations pre + (if isSome operation then 1 else 0) <= 1 ->
  exists operation' fragments',
    Execute.forEachDefinition operationName (pre ++ rest) operation fragments
    = Execute.forEachDefinition operationName rest operation' fragments'
    /\ (countOperations pre + (if isSome operation then 1 else 0) = 1 ->
        isSome operation' = true).
Proof.
  intros Hp. revert operation fragments.
  induction pre as [|d pre IH]; intros operation fragments Hall Hn.
  - exists operation, fragments. split; [reflexivity|].
    destruct operation; cbn; [done|lia].
  - destruct d as [op|fragment|kind]; cbn [forallb isExecutableDefinition andb] in Hall;
      [| |discriminate]; cbn [app Execute.forEachDefinition].
    + rewrite Hp. cbn [negb andb orb].
      destruct operation as [o|]; cbn [isSome countOperations] in *; [lia|].
      destruct (IH (Some op) fragments Hall) as (o' & f' & Heq & Hsome).
      { cbn [isSome]. lia. }
      exists o', f'. split; [exact Heq|]. intros _. apply Hsome. cbn [isSome]. lia.
    + cbn [countOperations] in *.
      destruct (IH operation (<[fragment_name fragment:=fragment]> fragments) Hall Hn)
        as (o' & f' & Heq & Hsome).
      exists o', f'. split; [exact Heq|exact Hsome].
Qed.

(** C6, as amended. For a document with more than one operation definition
    and no operation name, the executor of src/graphql.js fails to build
    the execution context, and [executeImpl] answers with that one error, no
    data, and without calling a resolver or touching the world. The error is
    the ambiguous-operation error when the second operation definition is
    reached, as in every document of operation and fragment definitions
    only; it is the unsupported-definition error when a definition of
    another kind is met before. *)
Theorem ambiguous_operation_fails schema document rootValue contextValue
    variableValues operationName fieldResolver :
  provided operationName = false ->
  2 <= countOperations document ->
  exists error,
    Execute.buildExecutionContext ext schema document rootValue contextValue
      variableValues operationName fieldResolver = Raise error
    /\ (forallb isExecutableDefinition document = true -> error = ambiguousOperation)
    /\ (forall pre op post,
          document = pre ++ OPERATION_DEFINITION op :: post ->
          forallb isExecutableDefinition pre = true ->
          countOperations pre = 1 ->
          error = ambiguousOperation)
    /\ (forall pre kind post,
          document = pre ++ OTHER_DEFINITION kind :: post ->
          forallb isExecutableDefinition pre = true ->
          countOperations pre <= 1 ->
          error = unsupportedDefinition kind)
    /\ forall fuel w,
         Execute.executeImpl ext fuel schema document rootValue contextValue
           variableValues operationName fieldResolver w
         = (Ret (mkResult None (Some [error])), mkState [] [] w).
Proof.
  intros Hp Hn.
  destruct (@forEachDefinition_ambiguous operationName document None ∅ Hp)
    as (error & He & Hk); [simpl; lia|].
  exists error.
  assert (Hb : Execute.buildExecutionContext ext schema document rootValue contextValue
            variableValues operationName fieldResolver = Raise error).
  { unfold Execute.buildExecutionContext. rewrite He. reflexivity. }
  split; [exact Hb|]. repeat apply conj.
  - intros Hall. destruct Hk as [-> |(k & Hin & _)]; [done|].
    rewrite forallb_forall in Hall. specialize (Hall _ Hin). discriminate.
  - intros pre op post -> Hall Hc.
    destruct (@forEachDefinition_prefix operationName pre
                (OPERATION_DEFINITION op :: post) None ∅ Hp Hall)
      as (o' & f' & Heq & Hsome); [cbn [isSome]; lia|].
    rewrite Heq in He. cbn [Execute.forEachDefinition] in He.
    rewrite Hp, Hsome in He by (cbn [isSome]; lia). cbn [negb andb] in He.
    injection He as <-. reflexivity.
  - intros pre kind post -> Hall Hc.
    destruct (@forEachDefinition_prefix operationName pre
                (OTHER_DEFINITION kind :: post) None ∅ Hp Hall)
      as (o' & f' & Heq & Hsome); [cbn [isSome]; lia|].
    rewrite Heq in He. cbn [Execute.forEachDefinition] in He.
    injection He as <-. reflexivity.
  - intros fuel w. unfold Execute.executeImpl. rewrite Hb. reflexivity.
Qed.

(** *** Dispatch on the kind of a named type *)

Lemma isLeafType_named (schema : GraphQLSchema W) t :
  isLeafType schema t = true -> exists name, t = GraphQLNamedType name.
Proof. destruct t; cbn; try discriminate. eauto. Qed.

Lemma isObjectType_dispatch (schema : GraphQLSchema W) t :
  isObjectType schema t = true ->
  (exists name, t = GraphQLNamedType name)
  /\ isLeafType schema t = false /\ isAbstractType schema t = false.
Proof.
  unfold isObjectType, isLeafType, isAbstractType.
  destruct t; cbn; try discriminate.
  destruct (schema_typeMap schema !! name) as [[]|]; try discriminate. eauto.
Qed.

Lemma isAbstractType_dispatch (schema : GraphQLSchema W) t :
  isAbstractType schema t = true ->
  (exists name, t = GraphQLNamedType name)
  /\ isLeafType schema t = false /\ isObjectType schema t = false.
Proof.
  unfold isObjectType, isLeafType, isAbstractType.
  destruct t; cbn; try discriminate.
  destruct (schema_typeMap schema !! name) as [[]|]; try discriminate; eauto.
Qed.

(** *** Leaf values *)

(** C4, as amended. For a leaf type and a result that is neither null-like
    nor a captured failure, the executor of src/graphql.js calls the
    [serialize] method of the type on the result; a serialized value that
    is not null-like is the completed value. For a null-like serialized
    value completion converts the result to a string and fails: with an
    error that names the type and that string when the conversion gives
    one, with what the conversion throws when it throws; the field's
    position records the failure (located) before it becomes null. The
    executor of src/execution/execute.js returns null for a null-like
    serialized value, converts nothing and records nothing. *)
Theorem leaf_value_is_serialized n ctx returnType fieldNodes info path result
    serialize serialized (s : State W) :
  isLeafType (ctx_schema ctx) returnType = true ->
  instanceofError result = false ->
  isNullish result = false ->
  serializeOf (ctx_schema ctx) returnType = Some serialize ->
  serialize result = Ok serialized ->
  (isNullish serialized = false ->
   Execute.completeValue ext (S n) ctx returnType fieldNodes info path result s
   = (Ret serialized, s))
  /\ (forall received,
        isNullish serialized = true ->
        String_ ext result = Ok received ->
        Execute.completeValue ext (S n) ctx returnType fieldNodes info path result s
        = (Throw (invalidLeafValue returnType received), s)
        /\ Execute.completeValueCatchingError ext (S n) ctx returnType fieldNodes
             info path result s
           = (Ret VNull,
              pushError
                (locatedError ext (invalidLeafValue returnType received) fieldNodes
                   (Some (Execute.responsePathAsArray path))) s))
  /\ (forall failure,
        isNullish serialized = true ->
        String_ ext result = Raise failure ->
        Execute.completeValue ext (S n) ctx returnType fieldNodes info path result s
        = (Throw failure, s)
        /\ Execute.completeValueCatchingError ext (S n) ctx returnType fieldNodes
             info path result s
           = (Ret VNull,
              pushError
                (locatedError ext failure fieldNodes
                   (Some (Execute.responsePathAsArray path))) s))
  /\ Legacy.completeValue ext (S n) ctx returnType fieldNodes info result s
     = (Ret (if isNullish serialized then VNull else serialized), s).
Proof.
  intros Hleaf Herr Hnn Hser Hv.
  destruct (isLeafType_named Hleaf) as [name ->].
  assert (Hnew : Execute.completeValue ext (S n) ctx (GraphQLNamedType name)
                   fieldNodes info path result s
                 = (if isNullish serialized
                    then match String_ ext result with
                         | Ok received =>
                             Throw (invalidLeafValue (GraphQLNamedType name) received)
                         | Raise failure => Throw failure
                         end
                    else Ret serialized, s)).
  { cbn [Execute.completeValue]. unfold Execute.completeValue_step.
    rewrite Herr, Hnn, Hleaf. unfold Execute.completeLeafValue. rewrite Hser.
    unfold bind, liftResult. rewrite Hv. cbn [ofResult].
    destruct (isNullish serialized); [|reflexivity].
    destruct (String_ ext result); reflexivity. }
  assert (Hcatch : forall e,
             Execute.completeValue ext (S n) ctx (GraphQLNamedType name)
               fieldNodes info path result s = (Throw e, s) ->
             Execute.completeValueCatchingError ext (S n) ctx (GraphQLNamedType name)
               fieldNodes info path result s
             = (Ret VNull,
                pushError (locatedError ext e fieldNodes
                             (Some (Execute.responsePathAsArray path))) s)).
  { intros e He.
    unfold Execute.completeValueCatchingError, Execute.completeValueCatchingError_step,
      Execute.completeValueWithLocatedError_step, tryCatch.
    cbn [isNonNull]. rewrite He. reflexivity. }
  split; [|split; [|split]].
  - intros Hs. rewrite Hnew, Hs. reflexivity.
  - intros received Hs Hr.
    assert (He : Execute.completeValue ext (S n) ctx (GraphQLNamedType name)
                   fieldNodes info path result s
                 = (Throw (invalidLeafValue (GraphQLNamedType name) received), s)).
    { rewrite Hnew, Hs, Hr. reflexivity. }
    split; [exact He|apply Hcatch, He].
  - intros failure Hs Hr.
    assert (He : Execute.completeValue ext (S n) ctx (GraphQLNamedType name)
                   fieldNodes info path result s = (Throw failure, s)).
    { rewrite Hnew, Hs, Hr. reflexivity. }
    split; [exact He|apply Hcatch, He].
  - cbn [Legacy.completeValue]. unfold Legacy.completeValue_step.
    rewrite Hnn, Hleaf, Hser. unfold bind, liftResult. rewrite Hv. reflexivity.
Qed.

(** *** Failing resolvers *)

Lemma newError_isError thrown captured :
  newError ext thrown = Ok captured -> instanceofError captured = true.
Proof.
  assert (H : forall r : Result string,
             bindResult r (fun message => Ok (Error_ message)) = Ok captured ->
             instanceofError captured = true).
  { intros [message|e]; cbn; [intros [= <-]; reflexivity|discriminate]. }
  unfold newError. destruct thrown; try apply H. intros [= <-]. reflexivity.
Qed.

Lemma capturedError_isError thrown captured :
  capturedError ext thrown = Ok captured -> instanceofError captured = true.
Proof.
  unfold capturedError. destruct (instanceofError thrown) eqn:E.
  - intros [= <-]. exact E.
  - apply newError_isError.
Qed.

Lemma capturedError_unconverted thrown failure :
  capturedError ext thrown = Raise failure -> unconverted ext failure.
Proof.
  unfold capturedError. destruct (instanceofError thrown) eqn:E; [discriminate|].
  intros H. exists thrown. split; [exact E|exact H].
Qed.



(** What the [catch] of [resolveFieldValueOrError] does with the state: nothing. *)
Lemma captured_result thrown (s : State W) :
  (if instanceofError thrown then ret thrown else liftResult (newError ext thrown)) s
  = (ofResult (capturedError ext thrown), s).
Proof. unfold capturedError. destruct (instanceofError thrown); reflexivity. Qed.

Lemma resolveFieldValueOrError_returns ctx fieldDef fieldNodes resolveFn source info
    (s : State W) :
  exists r s',
    Execute.resolveFieldValueOrError ext ctx fieldDef fieldNodes resolveFn source info s
    = (r, s')
    /\ errors s' = errors s
    /\ match r with
       | Ret _ => True
       | Throw failure => unconverted ext failure
       | OutOfFuel => False
       end.
Proof.
  assert (Hc : forall thrown (s' : State W),
             errors s' = errors s ->
             exists r s'',
               (ofResult (capturedError ext thrown), s') = (r, s'')
               /\ errors s'' = errors s
               /\ match r with
                  | Ret _ => True
                  | Throw failure => unconverted ext failure
                  | OutOfFuel => False
                  end).
  { intros thrown s' Hs'. eexists _, _. split; [reflexivity|]. split; [exact Hs'|].
    destruct (capturedError ext thrown) eqn:E; cbn; [done|].
    eapply capturedError_unconverted, E. }
  unfold Execute.resolveFieldValueOrError, tryCatch, bind.
  destruct fieldNodes as [|node rest].
  - cbn [throw]. rewrite captured_result. by apply Hc.
  - unfold liftResult.
    destruct (getArgumentValues ext (fielddef_args fieldDef) (field_arguments node)
                (ctx_variableValues ctx)) as [args|e]; cbn [ofResult].
    + unfold Execute.callResolver.
      destruct (resolveFn source args (ctx_contextValue ctx) info (world s)) as [[v|e] w];
        cbn [ofResult].
      * eexists _, _. split; [reflexivity|]. by split.
      * rewrite captured_result. by apply Hc.
    + rewrite captured_result. by apply Hc.
Qed.


(** *** The loop over the fields of a selection set *)

Section Step.

Variable rec :
  ExecutionContext W -> GraphQLType -> list FieldNode -> GraphQLResolveInfo ->
  ResponsePath -> Value -> M W Value.

Lemma reduceFields_app ctx parentType source path pre post results (s : State W) :
  Execute.reduceFields ext rec ctx parentType source path (pre ++ post) results s
  = match Execute.reduceFields ext rec ctx parentType source path pre results s with
    | (Ret obj, s1) =>
        Execute.reduceFields ext rec ctx parentType source path post obj s1
    | (Throw e, s1) => (Throw e, s1)
    | (OutOfFuel, s1) => (OutOfFuel, s1)
    end.
Proof.
  revert results s. induction pre as [|[k nodes] pre IH]; intros results s.
  - reflexivity.
  - cbn [app Execute.reduceFields]. unfold bind.
    destruct (Execute.resolveField_step ext rec ctx parentType source nodes
                (Execute.addPath path (KeyName k)) s) as [[v| |] s1]; try reflexivity.
    destruct v; apply IH.
Qed.

Lemma reduceFields_stops ctx parentType source path pre key nodes post results obj e
    (s s1 s' : State W) :
  Execute.reduceFields ext rec ctx parentType source path pre results s = (Ret obj, s1) ->
  Execute.resolveField_step ext rec ctx parentType source nodes
    (Execute.addPath path (KeyName key)) s1 = (Throw e, s') ->
  Execute.reduceFields ext rec ctx parentType source path
    (pre ++ (key, nodes) :: post) results s = (Throw e, s').
Proof.
  intros Hpre Hf. rewrite reduceFields_app, Hpre. cbn [Execute.reduceFields].
  unfold bind. rewrite Hf. reflexivity.
Qed.

Lemma resolveField_unknown ctx parentType source node rest path (s : State W) :
  Execute.getFieldDef ext (ctx_schema ctx) parentType (field_name node) = None ->
  Execute.resolveField_step ext rec ctx parentType source (node :: rest) path s
  = (Ret VUndefined, s).
Proof. intros H. unfold Execute.resolveField_step. rewrite H. reflexivity. Qed.

Lemma reduceFields_unknown ctx parentType source path pre key node nodes post
    results (s : State W) :
  Execute.getFieldDef ext (ctx_schema ctx) parentType (field_name node) = None ->
  Execute.reduceFields ext rec ctx parentType source path
    (pre ++ (key, node :: nodes) :: post) results s
  = Execute.reduceFields ext rec ctx parentType source path (pre ++ post) results s.
Proof.
  intros H. rewrite !reduceFields_app.
  destruct (Execute.reduceFields ext rec ctx parentType source path pre results s)
    as [[obj| |] s1]; try reflexivity.
  cbn [Execute.reduceFields]. unfold bind. rewrite resolveField_unknown by done.
  reflexivity.
Qed.

Lemma assignProperty_keys props key value k :
  In k (map fst (assignProperty props key value)) ->
  In k (map fst props) \/ k = key.
Proof.
  induction props as [|[k0 v0] props IH]; cbn.
  - intros [<-|[]]. by right.
  - destruct (String.eqb k0 key); cbn.
    + intros [<-|H]; [left; by left|left; by right].
    + intros [<-|H]; [left; by left|].
      destruct (IH H) as [?|?]; [left; by right|by right].
Qed.

Lemma setProperty_keys inherits props key value k :
  In k (ownKeys (setProperty (VObject inherits props) key value)) ->
  In k (map fst props) \/ k = key.
Proof.
  cbn [setProperty].
  destruct (inherits && String.eqb key "__proto__").
  - destruct value; cbn; auto.
  - cbn. apply assignProperty_keys.
Qed.

Lemma setProperty_object inherits props key value :
  exists inherits' props',
    setProperty (VObject inherits props) key value = VObject inherits' props'.
Proof.
  cbn [setProperty]. destruct (inherits && String.eqb key "__proto__").
  - destruct value; eauto.
  - eauto.
Qed.

Lemma setProperty_plain inherits props key value :
  key <> "__proto__" ->
  setProperty (VObject inherits props) key value
  = VObject inherits (assignProperty props key value).
Proof.
  intros H. cbn [setProperty].
  destruct (String.eqb_spec key "__proto__") as [-> |_]; [done|].
  rewrite andb_false_r. reflexivity.
Qed.

Lemma resolveField_defined ctx parentType source nodes path v (s s' : State W) :
  Execute.resolveField_step ext rec ctx parentType source nodes path s = (Ret v, s') ->
  v <> VUndefined ->
  fieldDefOf ext (ctx_schema ctx) parentType nodes <> None.
Proof.
  unfold Execute.resolveField_step, fieldDefOf. destruct nodes as [|node rest].
  - discriminate.
  - destruct (Execute.getFieldDef ext (ctx_schema ctx) parentType (field_name node)).
    + done.
    + intros [= <- <-]. done.
Qed.

Lemma reduceFields_keys ctx parentType source path fields inherits props obj
    (s s' : State W) :
  Execute.reduceFields ext rec ctx parentType source path fields
    (VObject inherits props) s = (Ret obj, s') ->
  forall k, In k (ownKeys obj) ->
    In k (map fst props)
    \/ exists nodes, In (k, nodes) fields
                     /\ fieldDefOf ext (ctx_schema ctx) parentType nodes <> None.
Proof.
  revert inherits props s. induction fields as [|[key nodes] fields IH];
    intros inherits props s.
  - cbn. intros [= <- <-] k Hk. by left.
  - cbn [Execute.reduceFields]. unfold bind.
    destruct (Execute.resolveField_step ext rec ctx parentType source nodes
                (Execute.addPath path (KeyName key)) s) as [[v| |] s1] eqn:E;
      try discriminate.
    assert (Hskip : Execute.reduceFields ext rec ctx parentType source path fields
                      (VObject inherits props) s1 = (Ret obj, s') ->
                    forall k, In k (ownKeys obj) ->
                      In k (map fst props)
                      \/ exists nodes0, In (k, nodes0) ((key, nodes) :: fields)
                           /\ fieldDefOf ext (ctx_schema ctx) parentType nodes0 <> None).
    { intros H k Hk. destruct (IH _ _ _ H k Hk) as [?|(n0 & Hin & Hd)]; [by left|].
      right. exists n0. split; [by right|done]. }
    assert (Hset : v <> VUndefined ->
              Execute.reduceFields ext rec ctx parentType source path fields
                (setProperty (VObject inherits props) key v) s1 = (Ret obj, s') ->
              forall k, In k (ownKeys obj) ->
                In k (map fst props)
                \/ exists nodes0, In (k, nodes0) ((key, nodes) :: fields)
                     /\ fieldDefOf ext (ctx_schema ctx) parentType nodes0 <> None).
    { intros Hv H k Hk.
      destruct (setProperty_object inherits props key v) as (i' & p' & Hobj).
      rewrite Hobj in H.
      destruct (IH _ _ _ H k Hk) as [Hin|(n0 & Hin & Hd)].
      - assert (Hin' : In k (ownKeys (setProperty (VObject inherits props) key v))).
        { rewrite Hobj. exact Hin. }
        destruct (setProperty_keys Hin') as [?| ->]; [by left|].
        right. exists nodes. split; [by left|].
        eapply resolveField_defined; eauto.
      - right. exists n0. split; [by right|done]. }
    destruct v; try (apply Hset; discriminate). exact Hskip.
Qed.

Lemma reduceFields_same_properties ctx parentType source path fields props
    inherits1 inherits2 (s : State W) :
  ~ In "__proto__" (map fst fields) ->
  match Execute.reduceFields ext rec ctx parentType source path fields
          (VObject inherits1 props) s,
        Execute.reduceFields ext rec ctx parentType source path fields
          (VObject inherits2 props) s with
  | (Ret x, s1), (Ret y, s2) =>
      exists props', x = VObject inherits1 props' /\ y = VObject inherits2 props'
                     /\ s1 = s2
  | (Throw e1, s1), (Throw e2, s2) => e1 = e2 /\ s1 = s2
  | (OutOfFuel, s1), (OutOfFuel, s2) => s1 = s2
  | _, _ => False
  end.
Proof.
  revert props s. induction fields as [|[key nodes] fields IH]; intros props s Hk.
  - cbn. eauto.
  - cbn [Execute.reduceFields]. unfold bind.
    destruct (Execute.resolveField_step ext rec ctx parentType source nodes
                (Execute.addPath path (KeyName key)) s) as [[v| |] s1]; [|done..].
    assert (Hkey : key <> "__proto__").
    { intros ->. apply Hk. by left. }
    assert (Hrest : ~ In "__proto__" (map fst fields)).
    { intros H. apply Hk. by right. }
    destruct v; rewrite ?setProperty_plain by done; by apply IH.
Qed.

(** *** The loop over the items of a list *)

Lemma indexed_app start before after :
  indexed start (before ++ after)
  = indexed start before ++ indexed (start + length before) after.
Proof.
  revert start. induction before as [|item before IH]; intros start.
  - cbn. by rewrite Nat.add_0_r.
  - cbn [app indexed length]. rewrite IH.
    replace (S start + length before) with (start + S (length before)) by lia.
    reflexivity.
Qed.


Lemma completeItems_app ctx itemType nodes info path before after (s : State W) :
  Execute.completeItems ext rec ctx itemType nodes info path (before ++ after) s
  = match Execute.completeItems ext rec ctx itemType nodes info path before s with
    | (Ret vs, s1) =>
        match Execute.completeItems ext rec ctx itemType nodes info path after s1 with
        | (Ret ws, s2) => (Ret (vs ++ ws), s2)
        | (Throw e, s2) => (Throw e, s2)
        | (OutOfFuel, s2) => (OutOfFuel, s2)
        end
    | (Throw e, s1) => (Throw e, s1)
    | (OutOfFuel, s1) => (OutOfFuel, s1)
    end.
Proof.
  revert s. induction before as [|[index item] before IH]; intros s.
  - cbn [app Execute.completeItems]. unfold ret.
    destruct (Execute.completeItems ext rec ctx itemType nodes info path after s)
      as [[ws| |] s2]; reflexivity.
  - cbn [app Execute.completeItems]. unfold bind at 1 3.
    destruct (Execute.completeValueCatchingError_step ext rec ctx itemType nodes info
                (Execute.addPath path index) item s) as [[v| |] s1];
      try reflexivity.
    unfold bind. rewrite IH.
    destruct (Execute.completeItems ext rec ctx itemType nodes info path before s1)
      as [[vs| |] s2]; try reflexivity.
    unfold ret.
    destruct (Execute.completeItems ext rec ctx itemType nodes info path after s2)
      as [[ws| |] s3]; reflexivity.
Qed.


(** The completion of an array is the loop over its items from index 0. *)
Lemma completeListValue_array ctx itemType nodes info path items (s : State W) :
  Execute.completeListValue_step ext rec ctx itemType nodes info path (VArray items) s
  = match Execute.completeItems ext rec ctx itemType nodes info path
            (indexed 0 items) s with
    | (Ret vs, s') => (Ret (VArray vs), s')
    | (Throw e, s') => (Throw e, s')
    | (OutOfFuel, s') => (OutOfFuel, s')
    end.
Proof.
  unfold Execute.completeListValue_step. cbn [isCollection forEach fst snd].
  unfold bind, ret.
  destruct (Execute.completeItems ext rec ctx itemType nodes info path
              (indexed 0 items) s) as [[vs| |] s']; reflexivity.
Qed.

Lemma completeListValue_inv ctx itemType nodes info path items vs (s s' : State W) :
  Execute.completeListValue_step ext rec ctx itemType nodes info path (VArray items) s
    = (Ret (VArray vs), s') ->
  Execute.completeItems ext rec ctx itemType nodes info path (indexed 0 items) s
  = (Ret vs, s').
Proof.
  rewrite completeListValue_array.
  destruct (Execute.completeItems ext rec ctx itemType nodes info path
              (indexed 0 items) s) as [[ws| |] s2]; [|discriminate..].
  intros [= <- <-]. reflexivity.
Qed.

(** *** The two wrappers of completion *)

Lemma catching_nullable ctx t nodes info path result e (s s' : State W) :
  isNonNull t = false ->
  Execute.completeValueWithLocatedError_step ext rec ctx t nodes info path result s
    = (Throw e, s') ->
  Execute.completeValueCatchingError_step ext rec ctx t nodes info path result s
    = (Ret VNull, pushError e s').
Proof.
  intros Hn H. unfold Execute.completeValueCatchingError_step, tryCatch.
  rewrite Hn, H. reflexivity.
Qed.

Lemma located_throw ctx t nodes info path result e (s s' : State W) :
  rec ctx t nodes info path result s = (Throw e, s') ->
  Execute.completeValueWithLocatedError_step ext rec ctx t nodes info path result s
    = (Throw (locatedError ext e nodes (Some (Execute.responsePathAsArray path))), s').
Proof.
  intros H. unfold Execute.completeValueWithLocatedError_step, tryCatch.
  rewrite H. reflexivity.
Qed.

End Step.

(** *** Unknown fields *)

(** C8. A field whose name [getFieldDef] does not find on the parent type
    (after the meta-fields) resolves to [undefined] without touching the
    state: no resolver call, no error. Both drivers then run as if its entry
    were not in the grouping, and the object they return has no own
    property under its response key. *)
Theorem unknown_field_is_omitted fuel ctx parentType source path pre key node nodes post
    (s : State W) :
  Execute.getFieldDef ext (ctx_schema ctx) parentType (field_name node) = None ->
  Execute.resolveField ext fuel ctx parentType source (node :: nodes)
    (Execute.addPath path (KeyName key)) s = (Ret VUndefined, s)
  /\ Execute.executeFields ext fuel ctx parentType source path
       (pre ++ (key, node :: nodes) :: post) s
     = Execute.executeFields ext fuel ctx parentType source path (pre ++ post) s
  /\ Execute.executeFieldsSerially ext fuel ctx parentType source path
       (pre ++ (key, node :: nodes) :: post) s
     = Execute.executeFieldsSerially ext fuel ctx parentType source path (pre ++ post) s
  /\ (forall obj s',
        NoDup (map fst (pre ++ (key, node :: nodes) :: post)) ->
        (Execute.executeFields ext fuel ctx parentType source path
           (pre ++ (key, node :: nodes) :: post) s = (Ret obj, s')
         \/ Execute.executeFieldsSerially ext fuel ctx parentType source path
              (pre ++ (key, node :: nodes) :: post) s = (Ret obj, s')) ->
        ~ In key (ownKeys obj)).
Proof.
  intros Hdef. split; [|split; [|split]].
  - apply resolveField_unknown. exact Hdef.
  - apply reduceFields_unknown. exact Hdef.
  - apply reduceFields_unknown. exact Hdef.
  - intros obj s' Hnd Hrun Hin.
    assert (Hk : exists nodes0, In (key, nodes0) (pre ++ (key, node :: nodes) :: post)
                   /\ fieldDefOf ext (ctx_schema ctx) parentType nodes0 <> None).
    { destruct Hrun as [Hrun|Hrun];
        destruct (reduceFields_keys Hrun Hin) as [Hf|H]; solve [destruct Hf | exact H]. }
    destruct Hk as (nodes0 & Hin0 & Hd).
    assert (nodes0 = node :: nodes) as ->.
    { clear - Hnd Hin0. induction pre as [|[k0 n0] pre IH]; cbn in *.
      - inversion Hnd as [|? ? Hnot Hnd']; subst.
        destruct Hin0 as [[= ->]|Hin0]; [done|].
        exfalso. apply Hnot. apply list_elem_of_In.
        apply (in_map fst) in Hin0. exact Hin0.
      - inversion Hnd as [|? ? Hnot Hnd']; subst.
        destruct Hin0 as [[= -> ->]|Hin0].
        + exfalso. apply Hnot. apply list_elem_of_In.
          rewrite map_app. apply in_or_app. right. by left.
        + by apply IH. }
    apply Hd. exact Hdef.
Qed.

(** *** Lists *)





(** *** Propagation of a failure *)

Lemma completeValue_object fuel ctx t nodes info path result (s : State W) :
  instanceofError result = false ->
  isNullish result = false ->
  isObjectType (ctx_schema ctx) t = true ->
  Execute.completeValue ext (S fuel) ctx t nodes info path result s
  = Execute.completeObjectValue ext fuel ctx t nodes info path result s.
Proof.
  intros He Hn Ho. destruct (isObjectType_dispatch Ho) as ((name & ->) & Hl & Ha).
  cbn [Execute.completeValue]. unfold Execute.completeValue_step.
  rewrite He, Hn, Hl, Ha, Ho. reflexivity.
Qed.

Lemma completeValue_abstract fuel ctx t nodes info path result (s : State W) :
  instanceofError result = false ->
  isNullish result = false ->
  isAbstractType (ctx_schema ctx) t = true ->
  Execute.completeValue ext (S fuel) ctx t nodes info path result s
  = Execute.completeAbstractValue ext fuel ctx t nodes info path result s.
Proof.
  intros He Hn Ha. destruct (isAbstractType_dispatch Ha) as ((name & ->) & Hl & Ho).
  cbn [Execute.completeValue]. unfold Execute.completeValue_step.
  rewrite He, Hn, Hl, Ha. reflexivity.
Qed.

Lemma completeValue_list fuel ctx itemType nodes info path result (s : State W) :
  instanceofError result = false ->
  isNullish result = false ->
  Execute.completeValue ext (S fuel) ctx (GraphQLList itemType) nodes info path result s
  = Execute.completeListValue ext fuel ctx itemType nodes info path result s.
Proof.
  intros He Hn. cbn [Execute.completeValue]. unfold Execute.completeValue_step.
  rewrite He, Hn. reflexivity.
Qed.

Lemma completeAbstractValue_object fuel ctx returnType nodes info path result candidate t
    (s : State W) :
  runtimeTypeCandidate ctx returnType result info = Ok candidate ->
  Execute.ensureValidRuntimeType ext candidate ctx returnType nodes info result = Ok t ->
  Execute.completeAbstractValue ext fuel ctx returnType nodes info path result s
  = Execute.completeObjectValue ext fuel ctx t nodes info path result s.
Proof.
  intros Hc He.
  unfold Execute.completeAbstractValue, Execute.completeAbstractValue_step.
  unfold runtimeTypeCandidate in Hc. unfold bind at 1. unfold liftResult at 1.
  rewrite Hc. cbn [ofResult]. unfold bind at 1. unfold liftResult at 1.
  rewrite He. reflexivity.
Qed.

Lemma completeObjectValue_fields fuel ctx t nodes info path result subfields visited
    (s : State W) :
  typePredicatePasses ctx t result info ->
  Execute.collectSubfields ext fuel ctx t nodes [] ∅ = Ret (subfields, visited) ->
  Execute.completeObjectValue ext fuel ctx t nodes info path result s
  = Execute.executeFields ext fuel ctx t result path subfields s.
Proof.
  intros Hp Hc.
  assert (Hsub : Execute.collectAndExecuteSubfields_step ext fuel
                   (Execute.completeValue ext fuel) ctx t nodes info path result s
                 = Execute.executeFields ext fuel ctx t result path subfields s).
  { unfold Execute.collectAndExecuteSubfields_step, bind, liftOutcome.
    rewrite Hc. reflexivity. }
  unfold Execute.completeObjectValue, Execute.completeObjectValue_step.
  destruct Hp as [-> | (f & v & -> & Hv & Ht)]; [exact Hsub|].
  unfold bind, liftResult. rewrite Hv. cbn [ofResult]. rewrite Ht. exact Hsub.
Qed.

Lemma completeObjectValue_passes fuel ctx t nodes info path result subfields visited e
    (s s' : State W) :
  typePredicatePasses ctx t result info ->
  Execute.collectSubfields ext fuel ctx t nodes [] ∅ = Ret (subfields, visited) ->
  Execute.executeFields ext fuel ctx t result path subfields s = (Throw e, s') ->
  Execute.completeObjectValue ext fuel ctx t nodes info path result s = (Throw e, s').
Proof. intros Hp Hc Hf. erewrite completeObjectValue_fields; eauto. Qed.

Lemma nonNull_passes fuel ctx t nodes info path result e (s s' : State W) :
  Execute.completeValue ext fuel ctx t nodes info path result s = (Throw e, s') ->
  Execute.completeValue ext (S fuel) ctx (GraphQLNonNull t) nodes info path result s
  = (Throw e, s').
Proof.
  intros H. cbn [Execute.completeValue]. unfold Execute.completeValue_step at 1.
  destruct (instanceofError result) eqn:He.
  - destruct fuel as [|m]; [discriminate|].
    cbn [Execute.completeValue] in H. unfold Execute.completeValue_step in H.
    rewrite He in H. exact H.
  - unfold bind. rewrite H. reflexivity.
Qed.

(** [resolveField] on a known field whose resolution returns is the
    completion of the value at the field's position. *)
Lemma resolveField_completes fuel ctx parentType source node rest path fieldDef value
    (s s1 : State W) :
  Execute.getFieldDef ext (ctx_schema ctx) parentType (field_name node) = Some fieldDef ->
  Execute.resolveFieldValueOrError ext ctx fieldDef (node :: rest)
    (match fielddef_resolve fieldDef with
     | Some resolve => resolve
     | None => ctx_fieldResolver ctx
     end) source
    (Execute.buildResolveInfo ctx fieldDef (node :: rest) parentType path) s
  = (Ret value, s1) ->
  Execute.resolveField ext fuel ctx parentType source (node :: rest) path s
  = Execute.completeValueCatchingError ext fuel ctx (fielddef_type fieldDef)
      (node :: rest) (Execute.buildResolveInfo ctx fieldDef (node :: rest) parentType path)
      path value s1.
Proof.
  intros Hd Hr. unfold Execute.resolveField, Execute.resolveField_step.
  rewrite Hd. unfold bind. rewrite Hr. reflexivity.
Qed.

(** A field of non-null type whose completion fails: [resolveField] throws
    the located failure. *)
Lemma resolveField_throws fuel ctx parentType source node rest path fieldDef value e
    (s s1 s' : State W) :
  Execute.getFieldDef ext (ctx_schema ctx) parentType (field_name node) = Some fieldDef ->
  isNonNull (fielddef_type fieldDef) = true ->
  Execute.resolveFieldValueOrError ext ctx fieldDef (node :: rest)
    (match fielddef_resolve fieldDef with
     | Some resolve => resolve
     | None => ctx_fieldResolver ctx
     end) source
    (Execute.buildResolveInfo ctx fieldDef (node :: rest) parentType path) s
  = (Ret value, s1) ->
  Execute.completeValue ext fuel ctx (fielddef_type fieldDef) (node :: rest)
    (Execute.buildResolveInfo ctx fieldDef (node :: rest) parentType path) path value s1
  = (Throw e, s') ->
  Execute.resolveField ext fuel ctx parentType source (node :: rest) path s
  = (Throw (locatedError ext e (node :: rest) (Some (Execute.responsePathAsArray path))),
     s').
Proof.
  intros Hd Hnn Hr Hc. erewrite resolveField_completes; [|exact Hd|exact Hr].
  unfold Execute.completeValueCatchingError, Execute.completeValueCatchingError_step.
  rewrite Hnn. by apply located_throw.
Qed.

(** C1. A position of non-null type does not catch the failure of its
    completion: locating the failure records nothing, and the failure
    passes every frame between the position and the nearest position that
    is not non-null, each time with the state the failure left: the
    non-null wrapper, [resolveField], the selection set of the parent
    object (which stops at the failing field), the completion of that
    object, directly or as the runtime type of an abstract type, and the
    list the position is an element of. Each of these frames is the
    completion below it: none has a handler of its own. The first position
    whose type is not non-null, or the operation root, appends the failure
    to the error list, once, and is null; a completion that does not fail
    appends nothing. The last parts put the frames together, from the
    completion that fails to the position that records it: for a field of
    non-null type inside an object, inside the runtime object of an
    abstract type, and at the root of the operation, and for an element of
    non-null type inside a list. *)
Theorem nonnull_failure_propagates fuel (ctx : ExecutionContext W) :
  (forall t nodes info path result (s : State W),
     Execute.completeValueCatchingError ext fuel ctx (GraphQLNonNull t) nodes info
       path result s
     = Execute.completeValueWithLocatedError ext fuel ctx (GraphQLNonNull t) nodes
         info path result s)
  /\ (forall t nodes info path result e (s s' : State W),
        Execute.completeValue ext fuel ctx t nodes info path result s = (Throw e, s') ->
        Execute.completeValueWithLocatedError ext fuel ctx t nodes info path result s
        = (Throw (locatedError ext e nodes (Some (Execute.responsePathAsArray path))),
           s'))
  /\ (forall t nodes info path result e (s s' : State W),
        Execute.completeValue ext fuel ctx t nodes info path result s = (Throw e, s') ->
        Execute.completeValue ext (S fuel) ctx (GraphQLNonNull t) nodes info path
          result s = (Throw e, s'))
  /\ (forall parentType source path pre key nodes post obj e (s s1 s' : State W),
        Execute.executeFields ext fuel ctx parentType source path pre s = (Ret obj, s1) ->
        Execute.resolveField ext fuel ctx parentType source nodes
          (Execute.addPath path (KeyName key)) s1 = (Throw e, s') ->
        Execute.executeFields ext fuel ctx parentType source path
          (pre ++ (key, nodes) :: post) s = (Throw e, s'))
  /\ (forall parentType source path pre key nodes post obj e (s s1 s' : State W),
        Execute.executeFieldsSerially ext fuel ctx parentType source path pre s
          = (Ret obj, s1) ->
        Execute.resolveField ext fuel ctx parentType source nodes
          (Execute.addPath path (KeyName key)) s1 = (Throw e, s') ->
        Execute.executeFieldsSerially ext fuel ctx parentType source path
          (pre ++ (key, nodes) :: post) s = (Throw e, s'))
  /\ (forall t nodes info path result subfields visited e (s s' : State W),
        instanceofError result = false ->
        isNullish result = false ->
        isObjectType (ctx_schema ctx) t = true ->
        typePredicatePasses ctx t result info ->
        Execute.collectSubfields ext fuel ctx t nodes [] ∅ = Ret (subfields, visited) ->
        Execute.executeFields ext fuel ctx t result path subfields s = (Throw e, s') ->
        Execute.completeValue ext (S fuel) ctx t nodes info path result s
        = (Throw e, s'))
  /\ (forall itemType nodes info path before item after vs e (s s1 s' : State W),
        Execute.completeListValue ext fuel ctx itemType nodes info path
          (VArray before) s = (Ret (VArray vs), s1) ->
        Execute.completeValueCatchingError ext fuel ctx itemType nodes info
          (Execute.addPath path (KeyIndex (length before))) item s1 = (Throw e, s') ->
        Execute.completeListValue ext fuel ctx itemType nodes info path
          (VArray (before ++ item :: after)) s = (Throw e, s'))
  /\ (forall t nodes info path result e (s s' : State W),
        isNonNull t = false ->
        Execute.completeValueWithLocatedError ext fuel ctx t nodes info path result s
          = (Throw e, s') ->
        Execute.completeValueCatchingError ext fuel ctx t nodes info path result s
        = (Ret VNull, mkState (errors s' ++ [e]) (calls s') (world s')))
  /\ (forall operation rootValue type fields visited e (s s' : State W),
        Execute.getOperationRootType (ctx_schema ctx) operation = Ok type ->
        Execute.collectFields ext fuel ctx type (operation_selectionSet operation) [] ∅
          = Ret (fields, visited) ->
        (match operation_operation operation with
         | OpMutation =>
             Execute.executeFieldsSerially ext fuel ctx type rootValue PathRoot fields
         | _ => Execute.executeFields ext fuel ctx type rootValue PathRoot fields
         end) s = (Throw e, s') ->
        Execute.executeOperation ext fuel ctx operation rootValue s
        = (Ret VNull, mkState (errors s' ++ [e]) (calls s') (world s')))
  /\ (forall t nodes info path result v (s s' : State W),
        Execute.completeValue ext fuel ctx t nodes info path result s = (Ret v, s') ->
        Execute.completeValueCatchingError ext fuel ctx t nodes info path result s
        = (Ret v, s'))
  /\ (forall t nodes info path result pre key fieldNodes post visited obj e
             (s s1 s' : State W),
        isNonNull t = false ->
        instanceofError result = false ->
        isNullish result = false ->
        isObjectType (ctx_schema ctx) t = true ->
        typePredicatePasses ctx t result info ->
        Execute.collectSubfields ext fuel ctx t nodes [] ∅
          = Ret (pre ++ (key, fieldNodes) :: post, visited) ->
        Execute.executeFields ext fuel ctx t result path pre s = (Ret obj, s1) ->
        Execute.resolveField ext fuel ctx t result fieldNodes
          (Execute.addPath path (KeyName key)) s1 = (Throw e, s') ->
        Execute.completeValueCatchingError ext (S fuel) ctx t nodes info path result s
        = (Ret VNull,
           mkState
             (errors s'
              ++ [locatedError ext e nodes (Some (Execute.responsePathAsArray path))])
             (calls s') (world s')))
  /\ (forall itemType nodes info path result (s : State W),
        instanceofError result = false ->
        isNullish result = false ->
        Execute.completeValue ext (S fuel) ctx (GraphQLList itemType) nodes info path
          result s
        = Execute.completeListValue ext fuel ctx itemType nodes info path result s)
  /\ (forall t nodes info path result subfields visited (s : State W),
        instanceofError result = false ->
        isNullish result = false ->
        isObjectType (ctx_schema ctx) t = true ->
        typePredicatePasses ctx t result info ->
        Execute.collectSubfields ext fuel ctx t nodes [] ∅ = Ret (subfields, visited) ->
        Execute.completeValue ext (S fuel) ctx t nodes info path result s
        = Execute.executeFields ext fuel ctx t result path subfields s)
  /\ (forall returnType nodes info path result candidate t (s : State W),
        instanceofError result = false ->
        isNullish result = false ->
        isAbstractType (ctx_schema ctx) returnType = true ->
        runtimeTypeCandidate ctx returnType result info = Ok candidate ->
        Execute.ensureValidRuntimeType ext candidate ctx returnType nodes info result
          = Ok t ->
        Execute.completeValue ext (S fuel) ctx returnType nodes info path result s
        = Execute.completeObjectValue ext fuel ctx t nodes info path result s
        /\ Execute.completeAbstractValue ext fuel ctx returnType nodes info path result s
           = Execute.completeObjectValue ext fuel ctx t nodes info path result s)
  /\ (forall parentType source node rest path fieldDef value (s s1 : State W),
        let fieldNodes := node :: rest in
        let info := Execute.buildResolveInfo ctx fieldDef fieldNodes parentType path in
        Execute.getFieldDef ext (ctx_schema ctx) parentType (field_name node)
          = Some fieldDef ->
        Execute.resolveFieldValueOrError ext ctx fieldDef fieldNodes
          (match fielddef_resolve fieldDef with
           | Some resolve => resolve
           | None => ctx_fieldResolver ctx
           end) source info s = (Ret value, s1) ->
        Execute.resolveField ext fuel ctx parentType source fieldNodes path s
        = Execute.completeValueCatchingError ext fuel ctx (fielddef_type fieldDef)
            fieldNodes info path value s1)
  /\ (forall t nodes info path result pre key node rest post visited obj fieldDef
             value e (s s1 s2 s' : State W),
        let fieldNodes := node :: rest in
        let fieldPath := Execute.addPath path (KeyName key) in
        let fieldInfo := Execute.buildResolveInfo ctx fieldDef fieldNodes t fieldPath in
        isNonNull t = false ->
        instanceofError result = false ->
        isNullish result = false ->
        isObjectType (ctx_schema ctx) t = true ->
        typePredicatePasses ctx t result info ->
        Execute.collectSubfields ext fuel ctx t nodes [] ∅
          = Ret (pre ++ (key, fieldNodes) :: post, visited) ->
        Execute.executeFields ext fuel ctx t result path pre s = (Ret obj, s1) ->
        Execute.getFieldDef ext (ctx_schema ctx) t (field_name node) = Some fieldDef ->
        isNonNull (fielddef_type fieldDef) = true ->
        Execute.resolveFieldValueOrError ext ctx fieldDef fieldNodes
          (match fielddef_resolve fieldDef with
           | Some resolve => resolve
           | None => ctx_fieldResolver ctx
           end) result fieldInfo s1 = (Ret value, s2) ->
        Execute.completeValue ext fuel ctx (fielddef_type fieldDef) fieldNodes fieldInfo
          fieldPath value s2 = (Throw e, s') ->
        Execute.completeValueCatchingError ext (S fuel) ctx t nodes info path result s
        = (Ret VNull,
           mkState
             (errors s'
              ++ [locatedError ext
                    (locatedError ext e fieldNodes
                       (Some (Execute.responsePathAsArray fieldPath)))
                    nodes (Some (Execute.responsePathAsArray path))])
             (calls s') (world s')))
  /\ (forall returnType candidate t nodes info path result pre key node rest post
             visited obj fieldDef value e (s s1 s2 s' : State W),
        let fieldNodes := node :: rest in
        let fieldPath := Execute.addPath path (KeyName key) in
        let fieldInfo := Execute.buildResolveInfo ctx fieldDef fieldNodes t fieldPath in
        isNonNull returnType = false ->
        instanceofError result = false ->
        isNullish result = false ->
        isAbstractType (ctx_schema ctx) returnType = true ->
        runtimeTypeCandidate ctx returnType result info = Ok candidate ->
        Execute.ensureValidRuntimeType ext candidate ctx returnType nodes info result
          = Ok t ->
        typePredicatePasses ctx t result info ->
        Execute.collectSubfields ext fuel ctx t nodes [] ∅
          = Ret (pre ++ (key, fieldNodes) :: post, visited) ->
        Execute.executeFields ext fuel ctx t result path pre s = (Ret obj, s1) ->
        Execute.getFieldDef ext (ctx_schema ctx) t (field_name node) = Some fieldDef ->
        isNonNull (fielddef_type fieldDef) = true ->
        Execute.resolveFieldValueOrError ext ctx fieldDef fieldNodes
          (match fielddef_resolve fieldDef with
           | Some resolve => resolve
           | None => ctx_fieldResolver ctx
           end) result fieldInfo s1 = (Ret value, s2) ->
        Execute.completeValue ext fuel ctx (fielddef_type fieldDef) fieldNodes fieldInfo
          fieldPath value s2 = (Throw e, s') ->
        Execute.completeValueCatchingError ext (S fuel) ctx returnType nodes info path
          result s
        = (Ret VNull,
           mkState
             (errors s'
              ++ [locatedError ext
                    (locatedError ext e fieldNodes
                       (Some (Execute.responsePathAsArray fieldPath)))
                    nodes (Some (Execute.responsePathAsArray path))])
             (calls s') (world s')))
  /\ (forall inner nodes info path before bad after vs e (s s1 s' : State W),
        let index := length before in
        let itemPath := Execute.addPath path (KeyIndex index) in
        Execute.completeItems ext (Execute.completeValue ext (S fuel)) ctx
          (GraphQLNonNull inner) nodes info path (indexed 0 before) s = (Ret vs, s1) ->
        Execute.completeValue ext fuel ctx inner nodes info itemPath bad s1
          = (Throw e, s') ->
        Execute.completeValueCatchingError ext (S (S fuel)) ctx
          (GraphQLList (GraphQLNonNull inner)) nodes info path
          (VArray (before ++ bad :: after)) s
        = (Ret VNull,
           mkState
             (errors s'
              ++ [locatedError ext
                    (locatedError ext e nodes
                       (Some (Execute.responsePathAsArray itemPath)))
                    nodes (Some (Execute.responsePathAsArray path))])
             (calls s') (world s')))
  /\ (forall operation rootValue type pre key node rest post visited obj fieldDef
             value e (s s1 s2 s' : State W),
        let fieldNodes := node :: rest in
        let fieldPath := Execute.addPath PathRoot (KeyName key) in
        let fieldInfo :=
          Execute.buildResolveInfo ctx fieldDef fieldNodes type fieldPath in
        Execute.getOperationRootType (ctx_schema ctx) operation = Ok type ->
        Execute.collectFields ext fuel ctx type (operation_selectionSet operation) [] ∅
          = Ret (pre ++ (key, fieldNodes) :: post, visited) ->
        (match operation_operation operation with
         | OpMutation =>
             Execute.executeFieldsSerially ext fuel ctx type rootValue PathRoot pre
         | _ => Execute.executeFields ext fuel ctx type rootValue PathRoot pre
         end) s = (Ret obj, s1) ->
        Execute.getFieldDef ext (ctx_schema ctx) type (field_name node) = Some fieldDef ->
        isNonNull (fielddef_type fieldDef) = true ->
        Execute.resolveFieldValueOrError ext ctx fieldDef fieldNodes
          (match fielddef_resolve fieldDef with
           | Some resolve => resolve
           | None => ctx_fieldResolver ctx
           end) rootValue fieldInfo s1 = (Ret value, s2) ->
        Execute.completeValue ext fuel ctx (fielddef_type fieldDef) fieldNodes fieldInfo
          fieldPath value s2 = (Throw e, s') ->
        Execute.executeOperation ext fuel ctx operation rootValue s
        = (Ret VNull,
           mkState
             (errors s' ++ [locatedError ext e fieldNodes (Some [KeyName key])])
             (calls s') (world s'))).
Proof.
  assert (Hroot : forall operation rootValue type fields visited e (s s' : State W),
             Execute.getOperationRootType (ctx_schema ctx) operation = Ok type ->
             Execute.collectFields ext fuel ctx type (operation_selectionSet operation)
               [] ∅ = Ret (fields, visited) ->
             (match operation_operation operation with
              | OpMutation =>
                  Execute.executeFieldsSerially ext fuel ctx type rootValue PathRoot fields
              | _ => Execute.executeFields ext fuel ctx type rootValue PathRoot fields
              end) s = (Throw e, s') ->
             Execute.executeOperation ext fuel ctx operation rootValue s
             = (Ret VNull, mkState (errors s' ++ [e]) (calls s') (world s'))).
  { intros operation rootValue type fields visited e s s' Ht Hc Hrun.
    unfold Execute.executeOperation, bind, liftResult, liftOutcome, tryCatch.
    rewrite Ht. cbn [ofResult]. rewrite Hc. cbn [fst].
    destruct (operation_operation operation); rewrite Hrun; reflexivity. }
  assert (Hobject : forall t nodes info path result pre key fieldNodes post visited obj e
                      (s s1 s' : State W),
             typePredicatePasses ctx t result info ->
             Execute.collectSubfields ext fuel ctx t nodes [] ∅
               = Ret (pre ++ (key, fieldNodes) :: post, visited) ->
             Execute.executeFields ext fuel ctx t result path pre s = (Ret obj, s1) ->
             Execute.resolveField ext fuel ctx t result fieldNodes
               (Execute.addPath path (KeyName key)) s1 = (Throw e, s') ->
             Execute.completeObjectValue ext fuel ctx t nodes info path result s
             = (Throw e, s')).
  { intros t nodes info path result pre key fieldNodes post visited obj e s s1 s'
      Hp Hc Hpre Hf.
    eapply completeObjectValue_passes; eauto.
    eapply reduceFields_stops; eauto. }
  repeat apply conj.
  - reflexivity.
  - intros. by apply located_throw.
  - intros. by apply nonNull_passes.
  - intros. eapply reduceFields_stops; eauto.
  - intros. eapply reduceFields_stops; eauto.
  - intros t nodes info path result subfields visited e s s' He Hn Ho Hp Hc Hf.
    rewrite completeValue_object by done. eapply completeObjectValue_passes; eauto.
  - intros itemType nodes info path before item after vs e s s1 s' Hb Hi.
    apply completeListValue_inv in Hb.
    unfold Execute.completeListValue. rewrite completeListValue_array.
    rewrite indexed_app, completeItems_app, Hb.
    cbn [indexed Execute.completeItems Nat.add]. unfold bind at 1.
    unfold Execute.completeValueCatchingError in Hi. rewrite Hi. reflexivity.
  - intros. by apply catching_nullable.
  - exact Hroot.
  - intros t nodes info path result v s s' H.
    unfold Execute.completeValueCatchingError, Execute.completeValueCatchingError_step,
      Execute.completeValueWithLocatedError_step.
    destruct (isNonNull t); unfold tryCatch; rewrite H; reflexivity.
  - intros t nodes info path result pre key fieldNodes post visited obj e s s1 s'
      Hnn He Hn Ho Hp Hc Hpre Hf.
    apply (catching_nullable (rec:=Execute.completeValue ext (S fuel)) Hnn).
    apply located_throw. rewrite completeValue_object by done. eauto.
  - intros. by apply completeValue_list.
  - intros t nodes info path result subfields visited s He Hn Ho Hp Hc.
    rewrite completeValue_object by done. by eapply completeObjectValue_fields.
  - intros returnType nodes info path result candidate t s He Hn Ha Hc Hv.
    rewrite completeValue_abstract by done.
    split; by eapply completeAbstractValue_object.
  - intros parentType source node rest path fieldDef value s s1 fieldNodes info Hd Hr.
    by apply resolveField_completes.
  - intros t nodes info path result pre key node rest post visited obj fieldDef value e
      s s1 s2 s' fieldNodes fieldPath fieldInfo Hnn He Hn Ho Hp Hc Hpre Hd Hfn Hr Hv.
    apply (catching_nullable (rec:=Execute.completeValue ext (S fuel)) Hnn).
    apply located_throw. rewrite completeValue_object by done.
    eapply Hobject; eauto. eapply resolveField_throws; eauto.
  - intros returnType candidate t nodes info path result pre key node rest post visited
      obj fieldDef value e s s1 s2 s' fieldNodes fieldPath fieldInfo
      Hnn He Hn Ha Hcand Hens Hp Hc Hpre Hd Hfn Hr Hv.
    apply (catching_nullable (rec:=Execute.completeValue ext (S fuel)) Hnn).
    apply located_throw. rewrite completeValue_abstract by done.
    erewrite completeAbstractValue_object; [|exact Hcand|exact Hens].
    eapply Hobject; eauto. eapply resolveField_throws; eauto.
  - intros inner nodes info path before bad after vs e s s1 s' index itemPath Hb Hbad.
    apply (catching_nullable (rec:=Execute.completeValue ext (S (S fuel)))
             (t:=GraphQLList (GraphQLNonNull inner)) eq_refl).
    apply located_throw. rewrite completeValue_list by done.
    unfold Execute.completeListValue. rewrite completeListValue_array.
    rewrite indexed_app, completeItems_app, Hb.
    cbn [indexed Execute.completeItems Nat.add]. unfold bind at 1.
    unfold Execute.completeValueCatchingError_step at 1. cbn [isNonNull].
    rewrite (located_throw (rec:=Execute.completeValue ext (S fuel))
               (e:=e) (s':=s')); [reflexivity|].
    by apply nonNull_passes.
  - intros operation rootValue type pre key node rest post visited obj fieldDef value e
      s s1 s2 s' fieldNodes fieldPath fieldInfo Ht Hc Hpre Hd Hfn Hr Hv.
    eapply Hroot; eauto.
    assert (Hf : Execute.resolveField ext fuel ctx type rootValue fieldNodes fieldPath s1
                 = (Throw (locatedError ext e fieldNodes (Some [KeyName key])), s')).
    { eapply resolveField_throws; eauto. }
    destruct (operation_operation operation);
      eapply reduceFields_stops; eauto.
Qed.

(** *** Abstract types *)

Lemma probe_first_accepting (ctx : ExecutionContext W) result info before t after :
  Forall (predicateRejects ctx result info) before ->
  predicateAccepts ctx result info t ->
  Execute.probePossibleTypes (ctx_schema ctx) (before ++ t :: after) result
    (ctx_contextValue ctx) info = Ok (RuntimeType t).
Proof.
  intros Hb (f & v & Hf & Hv & Ht). induction Hb as [|u before Hu Hb IH].
  - cbn. rewrite Hf. cbn. rewrite Hv. cbn. rewrite Ht. reflexivity.
  - cbn. destruct Hu as [-> | (g & x & -> & Hx & Hxt)]; [exact IH|].
    cbn. rewrite Hx. cbn. rewrite Hxt. exact IH.
Qed.

Lemma probe_none_accepting (ctx : ExecutionContext W) result info types :
  Forall (predicateRejects ctx result info) types ->
  Execute.probePossibleTypes (ctx_schema ctx) types result (ctx_contextValue ctx) info
  = Ok (RuntimeOther VUndefined).
Proof.
  induction 1 as [|u types Hu Hb IH]; [reflexivity|].
  cbn. destruct Hu as [-> | (g & x & -> & Hx & Hxt)]; [exact IH|].
  cbn. rewrite Hx. cbn. rewrite Hxt. exact IH.
Qed.

(** C5, as amended. In the executor of src/graphql.js, the runtime type of
    a value of abstract type is what the declared [resolveType] returns or,
    without one, the first possible type, in the order the schema lists
    them, whose type predicate accepts the value; when no predicate accepts
    it the candidate is [undefined] and completion fails. A name is looked up
    in the schema. Completion fails when the candidate is not an object
    type, and when the schema does not list it as a possible type of the
    abstract type; otherwise it goes on as for that object type. The
    failure for a candidate that is no object type is the error that
    names the value and the candidate, both converted to strings, or what
    one of the two conversions throws. In the executor of
    src/execution/execute.js a runtime type that [getObjectType] leaves
    undetermined completes to null, with nothing recorded. *)
Theorem abstract_value_runtime_type fuel ctx returnType fieldNodes info path result
    (s : State W) :
  let schema := ctx_schema ctx in
  let ensure candidate :=
    Execute.ensureValidRuntimeType ext candidate ctx returnType fieldNodes info result in
  let rejected received :=
    notAnObjectType ext returnType info result received fieldNodes in
  (forall resolveType,
     resolveTypeOf schema returnType = Some resolveType ->
     runtimeTypeCandidate ctx returnType result info
     = resolveType result (ctx_contextValue ctx) info)
  /\ (forall before t after,
        resolveTypeOf schema returnType = None ->
        schema_getPossibleTypes schema returnType = before ++ t :: after ->
        Forall (predicateRejects ctx result info) before ->
        predicateAccepts ctx result info t ->
        runtimeTypeCandidate ctx returnType result info = Ok (RuntimeType t))
  /\ (resolveTypeOf schema returnType = None ->
      Forall (predicateRejects ctx result info)
        (schema_getPossibleTypes schema returnType) ->
      runtimeTypeCandidate ctx returnType result info = Ok (RuntimeOther VUndefined)
      /\ Execute.completeAbstractValue ext fuel ctx returnType fieldNodes info path
           result s
         = (Throw (rejected (Ok "undefined")), s))
  /\ (forall name,
        ensure (RuntimeName name)
        = ensure (match getType schema name with
                  | Some t => RuntimeType t
                  | None => RuntimeOther VUndefined
                  end)
        /\ ensure (RuntimeOther (VString name)) = ensure (RuntimeName name))
  /\ (forall v,
        match v with VString _ => False | _ => True end ->
        ensure (RuntimeOther v) = Raise (rejected (String_ ext v)))
  /\ (forall t,
        isObjectType schema t = false ->
        ensure (RuntimeType t) = Raise (rejected (Ok (typeToString t))))
  /\ (forall received,
        (forall value,
           String_ ext result = Ok value ->
           rejected received
           = match received with
             | Ok candidate =>
                 invalidRuntimeType returnType info value candidate fieldNodes
             | Raise failure => failure
             end)
        /\ (forall failure,
              String_ ext result = Raise failure -> rejected received = failure))
  /\ (forall t,
        isObjectType schema t = true ->
        schema_isPossibleType schema returnType t = false ->
        ensure (RuntimeType t) = Raise (impossibleRuntimeType returnType t fieldNodes))
  /\ (forall t,
        isObjectType schema t = true ->
        schema_isPossibleType schema returnType t = true ->
        ensure (RuntimeType t) = Ok t)
  /\ (forall candidate e,
        runtimeTypeCandidate ctx returnType result info = Ok candidate ->
        ensure candidate = Raise e ->
        Execute.completeAbstractValue ext fuel ctx returnType fieldNodes info path
          result s = (Throw e, s))
  /\ (forall candidate t,
        runtimeTypeCandidate ctx returnType result info = Ok candidate ->
        ensure candidate = Ok t ->
        Execute.completeAbstractValue ext fuel ctx returnType fieldNodes info path
          result s
        = Execute.completeObjectValue ext fuel ctx t fieldNodes info path result s)
  /\ (instanceofError result = false ->
      isNullish result = false ->
      isAbstractType schema returnType = true ->
      Execute.completeValue ext (S fuel) ctx returnType fieldNodes info path result s
      = Execute.completeAbstractValue ext fuel ctx returnType fieldNodes info path
          result s)
  /\ (isNullish result = false ->
      isAbstractType schema returnType = true ->
      getObjectType ext schema returnType result info = Ok None ->
      Legacy.completeValue ext (S fuel) ctx returnType fieldNodes info result s
      = (Ret VNull, s)).
Proof.
  intros schema ensure rejected. subst schema ensure rejected.
  assert (Hfail : forall candidate e,
            runtimeTypeCandidate ctx returnType result info = Ok candidate ->
            Execute.ensureValidRuntimeType ext candidate ctx returnType fieldNodes info
              result = Raise e ->
            Execute.completeAbstractValue ext fuel ctx returnType fieldNodes info path
              result s = (Throw e, s)).
  { intros candidate e Hc He.
    unfold Execute.completeAbstractValue, Execute.completeAbstractValue_step.
    unfold runtimeTypeCandidate in Hc. unfold bind at 1. unfold liftResult at 1.
    rewrite Hc. cbn [ofResult]. unfold bind, liftResult. rewrite He. reflexivity. }
  assert (Hother : forall v,
            match v with VString _ => False | _ => True end ->
            Execute.ensureValidRuntimeType ext (RuntimeOther v) ctx returnType fieldNodes
              info result
            = Raise (notAnObjectType ext returnType info result (String_ ext v)
                       fieldNodes)).
  { intros v Hv. unfold Execute.ensureValidRuntimeType, notAnObjectType.
    destruct v; try done; cbn [Execute.runtimeToString];
      destruct (String_ ext result) as [value|failure]; cbn [bindResult]; try reflexivity;
      match goal with
      | |- context [String_ ext ?x] => destruct (String_ ext x); reflexivity
      end. }
  repeat apply conj.
  - intros resolveType H. unfold runtimeTypeCandidate. rewrite H. reflexivity.
  - intros before t after Hr Hp Hb Ha. unfold runtimeTypeCandidate. rewrite Hr.
    unfold Execute.defaultResolveTypeFn. rewrite Hp. by apply probe_first_accepting.
  - intros Hr Hall.
    assert (Hc : runtimeTypeCandidate ctx returnType result info
                 = Ok (RuntimeOther VUndefined)).
    { unfold runtimeTypeCandidate. rewrite Hr. by apply probe_none_accepting. }
    split; [exact Hc|]. apply (Hfail (RuntimeOther VUndefined)); [exact Hc|].
    by rewrite Hother.
  - intros name. split; [|reflexivity]. unfold Execute.ensureValidRuntimeType.
    destruct (getType (ctx_schema ctx) name); reflexivity.
  - exact Hother.
  - intros t H. unfold Execute.ensureValidRuntimeType, notAnObjectType. rewrite H.
    cbn [Execute.runtimeToString].
    destruct (String_ ext result); reflexivity.
  - intros received. split.
    + intros value H. unfold notAnObjectType. rewrite H. reflexivity.
    + intros failure H. unfold notAnObjectType. rewrite H. reflexivity.
  - intros t Ho Hp. unfold Execute.ensureValidRuntimeType. rewrite Ho, Hp. reflexivity.
  - intros t Ho Hp. unfold Execute.ensureValidRuntimeType. rewrite Ho, Hp. reflexivity.
  - exact Hfail.
  - intros candidate t Hc He. by eapply completeAbstractValue_object.
  - intros He Hn Ha. by apply completeValue_abstract.
  - intros Hn Ha Hg. destruct (isAbstractType_dispatch Ha) as ((name & ->) & Hl & Ho).
    cbn [Legacy.completeValue]. unfold Legacy.completeValue_step.
    rewrite Hn, Hl, Ho, Ha. unfold bind, liftResult. rewrite Hg. reflexivity.
Qed.

(** *** The two drivers *)

(** When no response key is [__proto__], the write-mode and the read-mode
    driver of src/graphql.js end alike: the same completion, result objects
    with the same own properties in the same order, and the same state, that
    is the same resolver calls and the same errors recorded in the same
    order. The two drivers of src/execution/execute.js are the same
    function. *)
Theorem drivers_agree_without_proto_key fuel ctx parentType source path fields
    (s : State W) :
  ~ In "__proto__" (map fst fields) ->
  sameRun (Execute.executeFieldsSerially ext fuel ctx parentType source path fields s)
          (Execute.executeFields ext fuel ctx parentType source path fields s)
  /\ Legacy.executeFieldsSerially ext fuel ctx parentType source fields s
     = Legacy.executeFields ext fuel ctx parentType source fields s.
Proof.
  intros Hk. split; [|reflexivity].
  unfold sameRun, Execute.executeFieldsSerially, Execute.executeFields,
    Execute.executeFieldsSerially_step, Execute.executeFields_step.
  pose proof (reduceFields_same_properties (Execute.completeValue ext fuel) ctx
                parentType source path [] true false s Hk) as H.
  destruct (Execute.reduceFields ext (Execute.completeValue ext fuel) ctx parentType
              source path fields (VObject true []) s) as [[x|e1|] s1];
    destruct (Execute.reduceFields ext (Execute.completeValue ext fuel) ctx parentType
                source path fields (VObject false []) s) as [[y|e2|] s2];
    cbn; try done.
  - destruct H as (props' & -> & -> & ->). done.
  - destruct H as [-> ->]. done.
Qed.

(** *** Non-null positions *)

(** A position of non-null type never completes to null: completion of a
    null-like result fails there with the non-null violation that names the
    parent type and the field. *)
Theorem non_null_position_is_never_null fuel ctx t nodes info path result
    (s : State W) :
  (forall v s',
     Execute.completeValue ext fuel ctx (GraphQLNonNull t) nodes info path result s
     = (Ret v, s') -> v <> VNull)
  /\ (isNonNull t = false ->
      instanceofError result = false ->
      isNullish result = true ->
      Execute.completeValue ext (S (S fuel)) ctx (GraphQLNonNull t) nodes info path
        result s
      = (Throw (Error_ ("Cannot return null for non-nullable field "
                        ++ typeName (info_parentType info) ++ "."
                        ++ info_fieldName info ++ ".")), s)).
Proof.
  split.
  - intros v s'. destruct fuel as [|n]; [discriminate|].
    cbn [Execute.completeValue]. unfold Execute.completeValue_step at 1.
    destruct (instanceofError result); [discriminate|]. unfold bind.
    destruct (Execute.completeValue ext n ctx t nodes info path result s)
      as [[completed| |] s1]; try discriminate.
    destruct completed; try discriminate; intros [= <- <-]; discriminate.
  - intros Ht He Hn. cbn [Execute.completeValue].
    unfold Execute.completeValue_step at 1. rewrite He. unfold bind.
    unfold Execute.completeValue_step. rewrite He, Hn.
    destruct t; [discriminate|reflexivity|reflexivity].
Qed.

(** *** Order of the response keys *)

Lemma assignProperty_new props key value :
  ~ In key (map fst props) ->
  assignProperty props key value = props ++ [(key, value)].
Proof.
  induction props as [|[k v] props IH]; cbn; [reflexivity|].
  intros H. destruct (String.eqb_spec k key) as [-> |_].
  - exfalso. apply H. by left.
  - rewrite IH; [reflexivity|]. intros Hin. apply H. by right.
Qed.

Lemma reduceFields_order rec ctx parentType source path fields props obj
    (s s' : State W) :
  NoDup (map fst props ++ map fst fields) ->
  Execute.reduceFields ext rec ctx parentType source path fields
    (VObject false props) s = (Ret obj, s') ->
  exists added,
    ownKeys obj = map fst props ++ added /\ sublist added (map fst fields).
Proof.
  revert props s. induction fields as [|[key nodes] fields IH]; intros props s Hnd.
  - cbn. intros [= <- <-]. exists []. split; [by rewrite app_nil_r|constructor].
  - cbn [Execute.reduceFields]. unfold bind.
    destruct (Execute.resolveField_step ext rec ctx parentType source nodes
                (Execute.addPath path (KeyName key)) s) as [[v| |] s1];
      try discriminate.
    assert (Hnew : ~ In key (map fst props)).
    { intros Hin. apply NoDup_app in Hnd as (_ & Hd & _).
      apply (Hd key); [by apply list_elem_of_In|]. cbn. by left. }
    assert (Hskip : Execute.reduceFields ext rec ctx parentType source path fields
                      (VObject false props) s1 = (Ret obj, s') ->
                    exists added, ownKeys obj = map fst props ++ added
                                  /\ sublist added (map fst ((key, nodes) :: fields))).
    { intros H. destruct (IH props s1) as (added & Hk & Hsub); [|exact H|].
      - cbn in Hnd. apply NoDup_app in Hnd as (H1 & H2 & H3). apply NoDup_app.
        repeat split; [exact H1| |by inversion H3].
        intros x Hx Hin. apply (H2 x Hx). by right.
      - exists added. split; [exact Hk|]. cbn. by constructor. }
    assert (Hset : Execute.reduceFields ext rec ctx parentType source path fields
                     (setProperty (VObject false props) key v) s1 = (Ret obj, s') ->
                   exists added, ownKeys obj = map fst props ++ added
                                 /\ sublist added (map fst ((key, nodes) :: fields))).
    { cbn [setProperty andb]. rewrite assignProperty_new by done. intros H.
      destruct (IH (props ++ [(key, v)]) s1) as (added & Hk & Hsub); [|exact H|].
      - rewrite map_app. cbn [map fst]. rewrite <- app_assoc. exact Hnd.
      - exists (key :: added). split.
        + rewrite Hk, map_app, <- app_assoc. reflexivity.
        + cbn. by constructor. }
    destruct v; try exact Hset. exact Hskip.
Qed.

(** The object the read-mode driver returns lists its keys in the order of
    the grouping, which is the order in which [collectFields] first met
    them: a field node with a new response key goes to the end of the
    grouping, one with a known key joins its entry in place. *)
Theorem response_keys_follow_grouping fuel ctx parentType source path fields obj
    (s s' : State W) :
  NoDup (map fst fields) ->
  Execute.executeFields ext fuel ctx parentType source path fields s = (Ret obj, s') ->
  sublist (ownKeys obj) (map fst fields)
  /\ (forall grouping name node,
        map fst (pushField grouping name node)
        = if existsb (String.eqb name) (map fst grouping)
          then map fst grouping
          else map fst grouping ++ [name]).
Proof.
  intros Hnd Hrun. split.
  - destruct (reduceFields_order (props:=[]) Hnd Hrun) as (added & Hk & Hsub).
    cbn in Hk. rewrite Hk. exact Hsub.
  - intros grouping name node. induction grouping as [|[k ns] grouping IH].
    + reflexivity.
    + cbn [pushField map fst existsb].
      rewrite (String.eqb_sym name k). destruct (String.eqb k name); cbn.
      * reflexivity.
      * rewrite IH. destruct (existsb (String.eqb name) (map fst grouping)); reflexivity.
Qed.

End Facts.

(* ================================================================== *)
(** ** Further properties of the executor of src/graphql.js *)
(* ================================================================== *)

Section Collection.

Context {W : Type} (ext : Externals W).

(** *** Response paths *)

Lemma responsePathAsArray_addPath path key :
  Execute.responsePathAsArray (Execute.addPath path key)
  = Execute.responsePathAsArray path ++ [key].
Proof. reflexivity. Qed.

(** [responsePathAsArray] undoes [addPath]: the array of a path built by
    adding keys one after the other to a path is the array of that path
    followed by the keys in the order they were added; built from the root
    it is the keys themselves. *)
Theorem responsePathAsArray_round_trip (keys : list PathKey) (path : ResponsePath) :
  Execute.responsePathAsArray (fold_left Execute.addPath keys path)
  = Execute.responsePathAsArray path ++ keys
  /\ Execute.responsePathAsArray (fold_left Execute.addPath keys PathRoot) = keys.
Proof.
  assert (H : forall p, Execute.responsePathAsArray (fold_left Execute.addPath keys p)
                        = Execute.responsePathAsArray p ++ keys).
  { induction keys as [|key keys IH]; intros p; cbn [fold_left].
    - by rewrite app_nil_r.
    - rewrite IH, responsePathAsArray_addPath, <- app_assoc. reflexivity. }
  split; [apply H|]. rewrite H. reflexivity.
Qed.

(** *** Selection collection: composition *)

Section Loop.

Variable rec :
  ExecutionContext W -> GraphQLType -> list SelectionNode ->
  FieldsMap -> gset string -> Outcome (FieldsMap * gset string).

Lemma collectFieldsLoop_app ctx runtimeType before after fields visited :
  Execute.collectFieldsLoop ext rec ctx runtimeType (before ++ after) fields visited
  = match Execute.collectFieldsLoop ext rec ctx runtimeType before fields visited with
    | Ret (fields', visited') =>
        Execute.collectFieldsLoop ext rec ctx runtimeType after fields' visited'
    | Throw e => Throw e
    | OutOfFuel => OutOfFuel
    end.
Proof.
  revert fields visited.
  induction before as [|selection before IH]; intros fields visited; [reflexivity|].
  cbn [app Execute.collectFieldsLoop].
  destruct selection as [node|typeCondition directives selectionSet|fragName directives].
  - destruct (Execute.shouldIncludeNode ext ctx (field_directives node)) as [[|]|e];
      [apply IH|apply IH|reflexivity].
  - destruct (Execute.shouldIncludeNode ext ctx directives) as [included|e];
      [|reflexivity].
    destruct (negb included
              || negb (Execute.doesFragmentConditionMatch ext ctx typeCondition
                         runtimeType)); [apply IH|].
    destruct (rec ctx runtimeType selectionSet fields visited) as [[f v]|e|];
      [apply IH|reflexivity|reflexivity].
  - destruct (bool_decide (fragName ∈ visited)); [apply IH|].
    destruct (Execute.shouldIncludeNode ext ctx directives) as [[|]|e];
      [|apply IH|reflexivity].
    destruct (ctx_fragments ctx !! fragName) as [fragment|]; [|apply IH].
    destruct (negb (Execute.doesFragmentConditionMatch ext ctx
                      (fragment_typeCondition fragment) runtimeType)); [apply IH|].
    destruct (rec ctx runtimeType (fragment_selectionSet fragment) fields
                ({[fragName]} ∪ visited)) as [[f v]|e|];
      [apply IH|reflexivity|reflexivity].
Qed.

Variable rec' :
  ExecutionContext W -> GraphQLType -> list SelectionNode ->
  FieldsMap -> gset string -> Outcome (FieldsMap * gset string).

Hypothesis rec_rec' :
  forall ctx runtimeType selections fields visited,
    rec ctx runtimeType selections fields visited <> OutOfFuel ->
    rec' ctx runtimeType selections fields visited
    = rec ctx runtimeType selections fields visited.

Lemma collectFieldsLoop_more ctx runtimeType selections fields visited :
  Execute.collectFieldsLoop ext rec ctx runtimeType selections fields visited
    <> OutOfFuel ->
  Execute.collectFieldsLoop ext rec' ctx runtimeType selections fields visited
  = Execute.collectFieldsLoop ext rec ctx runtimeType selections fields visited.
Proof.
  revert fields visited.
  induction selections as [|selection rest IH]; intros fields visited; [reflexivity|].
  cbn [Execute.collectFieldsLoop].
  destruct selection as [node|typeCondition directives selectionSet|fragName directives].
  - destruct (Execute.shouldIncludeNode ext ctx (field_directives node)) as [[|]|e];
      [apply IH|apply IH|reflexivity].
  - destruct (Execute.shouldIncludeNode ext ctx directives) as [included|e];
      [|reflexivity].
    destruct (negb included
              || negb (Execute.doesFragmentConditionMatch ext ctx typeCondition
                         runtimeType)); [apply IH|].
    destruct (rec ctx runtimeType selectionSet fields visited) as [[f v]|e|] eqn:E.
    + rewrite rec_rec', E by (rewrite E; discriminate). apply IH.
    + rewrite rec_rec', E by (rewrite E; discriminate). reflexivity.
    + intros H. by destruct H.
  - destruct (bool_decide (fragName ∈ visited)); [apply IH|].
    destruct (Execute.shouldIncludeNode ext ctx directives) as [[|]|e];
      [|apply IH|reflexivity].
    destruct (ctx_fragments ctx !! fragName) as [fragment|]; [|apply IH].
    destruct (negb (Execute.doesFragmentConditionMatch ext ctx
                      (fragment_typeCondition fragment) runtimeType)); [apply IH|].
    destruct (rec ctx runtimeType (fragment_selectionSet fragment) fields
                ({[fragName]} ∪ visited)) as [[f v]|e|] eqn:E.
    + rewrite rec_rec', E by (rewrite E; discriminate). apply IH.
    + rewrite rec_rec', E by (rewrite E; discriminate). reflexivity.
    + intros H. by destruct H.
Qed.

End Loop.

Lemma collectFields_S fuel ctx runtimeType selections fields visited :
  Execute.collectFields ext fuel ctx runtimeType selections fields visited <> OutOfFuel ->
  Execute.collectFields ext (S fuel) ctx runtimeType selections fields visited
  = Execute.collectFields ext fuel ctx runtimeType selections fields visited.
Proof.
  revert ctx runtimeType selections fields visited.
  induction fuel as [|fuel IH]; intros ctx runtimeType selections fields visited H.
  - by destruct H.
  - change (Execute.collectFieldsLoop ext (Execute.collectFields ext (S fuel)) ctx
              runtimeType selections fields visited
            = Execute.collectFieldsLoop ext (Execute.collectFields ext fuel) ctx
                runtimeType selections fields visited).
    apply collectFieldsLoop_more; [|exact H]. intros. by apply IH.
Qed.

Lemma collectFields_more fuel more ctx runtimeType selections fields visited :
  Execute.collectFields ext fuel ctx runtimeType selections fields visited <> OutOfFuel ->
  Execute.collectFields ext (more + fuel) ctx runtimeType selections fields visited
  = Execute.collectFields ext fuel ctx runtimeType selections fields visited.
Proof.
  intros H. induction more as [|more IH]; [reflexivity|].
  cbn [Nat.add]. rewrite collectFields_S; rewrite IH; done.
Qed.

Lemma collectFields_app fuel ctx runtimeType before after fields visited :
  Execute.collectFields ext fuel ctx runtimeType (before ++ after) fields visited
  = match Execute.collectFields ext fuel ctx runtimeType before fields visited with
    | Ret (fields', visited') =>
        Execute.collectFields ext fuel ctx runtimeType after fields' visited'
    | Throw e => Throw e
    | OutOfFuel => OutOfFuel
    end.
Proof.
  destruct fuel as [|fuel]; [reflexivity|]. apply collectFieldsLoop_app.
Qed.

(** [collectFields] composes along the selection set: collecting
    [before ++ after] is collecting [before] and then [after] into the
    grouping and the visited set this leaves. An inline fragment that
    applies (its directives include it, its type condition matches) and the
    first spread of a defined fragment that applies stand for their
    selections in place: collection ends as on the selection set with
    the selections written out, the spread's name being visited. *)
Theorem collectFields_composes fuel ctx runtimeType fields visited :
  (forall before after,
     Execute.collectFields ext fuel ctx runtimeType (before ++ after) fields visited
     = match Execute.collectFields ext fuel ctx runtimeType before fields visited with
       | Ret (fields', visited') =>
           Execute.collectFields ext fuel ctx runtimeType after fields' visited'
       | Throw e => Throw e
       | OutOfFuel => OutOfFuel
       end)
  /\ (forall typeCondition directives selectionSet rest,
        Execute.shouldIncludeNode ext ctx directives = Ok true ->
        Execute.doesFragmentConditionMatch ext ctx typeCondition runtimeType = true ->
        Execute.collectFields ext fuel ctx runtimeType (selectionSet ++ rest)
          fields visited <> OutOfFuel ->
        Execute.collectFields ext (S fuel) ctx runtimeType
          (INLINE_FRAGMENT typeCondition directives selectionSet :: rest) fields visited
        = Execute.collectFields ext fuel ctx runtimeType (selectionSet ++ rest)
            fields visited)
  /\ (forall fragName directives fragment rest,
        fragName ∉ visited ->
        Execute.shouldIncludeNode ext ctx directives = Ok true ->
        ctx_fragments ctx !! fragName = Some fragment ->
        Execute.doesFragmentConditionMatch ext ctx (fragment_typeCondition fragment)
          runtimeType = true ->
        Execute.collectFields ext fuel ctx runtimeType
          (fragment_selectionSet fragment ++ rest) fields ({[fragName]} ∪ visited)
          <> OutOfFuel ->
        Execute.collectFields ext (S fuel) ctx runtimeType
          (FRAGMENT_SPREAD fragName directives :: rest) fields visited
        = Execute.collectFields ext fuel ctx runtimeType
            (fragment_selectionSet fragment ++ rest) fields ({[fragName]} ∪ visited)).
Proof.
  split; [intros; apply collectFields_app|]. split.
  - intros typeCondition directives selectionSet rest Hi Hm.
    rewrite collectFields_app. cbn [Execute.collectFields Execute.collectFieldsLoop].
    rewrite Hi, Hm. cbn [negb orb].
    destruct (Execute.collectFields ext fuel ctx runtimeType selectionSet fields visited)
      as [[f v]|e|]; [|reflexivity|intros H; by destruct H].
    intros H. apply (collectFields_S H).
  - intros fragName directives fragment rest Hv Hi Hf Hm.
    rewrite collectFields_app. cbn [Execute.collectFields Execute.collectFieldsLoop].
    rewrite bool_decide_eq_false_2 by done. rewrite Hi, Hf, Hm. cbn [negb].
    destruct (Execute.collectFields ext fuel ctx runtimeType
                (fragment_selectionSet fragment) fields ({[fragName]} ∪ visited))
      as [[f v]|e|]; [|reflexivity|intros H; by destruct H].
    intros H. apply (collectFields_S H).
Qed.

End Collection.

(* ================================================================== *)
(** ** The grouping [collectFields] builds *)
(* ================================================================== *)

Section Grouping.

Context {W : Type} (ext : Externals W).

Lemma extends_refl x : extendsGrouping x x.
Proof.
  repeat split; try done.
  - exists []. by rewrite app_nil_r.
  - intros key nodes H. exists []. by rewrite app_nil_r.
Qed.

Lemma extends_trans x y z : extendsGrouping x y -> extendsGrouping y z -> extendsGrouping x z.
Proof.
  intros (H1 & (a1 & H2) & H3 & H4 & H5) (G1 & (a2 & G2) & G3 & G4 & G5).
  repeat split.
  - set_solver.
  - exists (a1 ++ a2). rewrite G2, H2, app_assoc. reflexivity.
  - intros key nodes Hin. destruct (H3 _ _ Hin) as (m1 & Hm1).
    destruct (G3 _ _ Hm1) as (m2 & Hm2). exists (m1 ++ m2). by rewrite app_assoc.
  - auto.
  - auto.
Qed.

Lemma pushField_keys fields name node :
  map fst (pushField fields name node)
  = if existsb (String.eqb name) (map fst fields)
    then map fst fields
    else map fst fields ++ [name].
Proof.
  induction fields as [|[k ns] fields IH]; [reflexivity|].
  cbn [pushField map fst existsb].
  rewrite (String.eqb_sym name k). destruct (String.eqb k name); cbn.
  - reflexivity.
  - rewrite IH. destruct (existsb (String.eqb name) (map fst fields)); reflexivity.
Qed.

Lemma existsb_eqb_In name (keys : list string) :
  existsb (String.eqb name) keys = true <-> In name keys.
Proof.
  rewrite existsb_exists. split.
  - intros (x & Hin & Hx). apply String.eqb_eq in Hx. by subst.
  - intros H. exists name. split; [done|apply String.eqb_refl].
Qed.

Lemma pushField_nodes fields name node key nodes :
  In (key, nodes) fields ->
  exists more, In (key, nodes ++ more) (pushField fields name node).
Proof.
  induction fields as [|[k ns] fields IH]; [intros []|].
  cbn [pushField]. intros [[= -> ->]|Hin].
  - destruct (String.eqb key name).
    + exists [node]. by left.
    + exists []. rewrite app_nil_r. by left.
  - destruct (String.eqb k name).
    + exists []. rewrite app_nil_r. by right.
    + destruct (IH Hin) as (more & Hm). exists more. by right.
Qed.

Lemma pushField_wellGrouped fields node :
  wellGrouped fields = true ->
  wellGrouped (pushField fields (getFieldEntryKey node) node) = true.
Proof.
  unfold wellGrouped.
  induction fields as [|[k ns] fields IH]; cbn [pushField forallb fst snd].
  - intros _. by rewrite String.eqb_refl.
  - intros H. apply andb_prop in H as [Hk Hrest].
    destruct (String.eqb_spec k (getFieldEntryKey node)) as [-> |Hne];
      cbn [forallb fst snd].
    + rewrite Hrest, andb_true_r. apply andb_prop in Hk as [Hhead Hall].
      rewrite forallb_app, Hall. cbn. rewrite String.eqb_refl.
      destruct ns; reflexivity.
    + rewrite Hk. cbn [andb]. by apply IH.
Qed.

Lemma extends_pushField fields visited node :
  extendsGrouping (fields, visited) (pushField fields (getFieldEntryKey node) node, visited).
Proof.
  repeat split; cbn [fst snd].
  - done.
  - rewrite pushField_keys.
    destruct (existsb (String.eqb (getFieldEntryKey node)) (map fst fields)).
    + exists []. by rewrite app_nil_r.
    + by eexists.
  - intros key nodes. apply pushField_nodes.
  - intros Hnd. rewrite pushField_keys.
    destruct (existsb (String.eqb (getFieldEntryKey node)) (map fst fields)) eqn:E;
      [done|].
    apply NoDup_app. repeat split; [done| |apply NoDup_singleton].
    intros x Hx Hx'. apply list_elem_of_singleton in Hx' as ->.
    apply list_elem_of_In, existsb_eqb_In in Hx. congruence.
  - apply pushField_wellGrouped.
Qed.

Lemma extends_visit fields (visited : gset string) fragName :
  extendsGrouping (fields, visited) (fields, {[fragName]} ∪ visited).
Proof.
  repeat split; cbn [fst snd]; try done.
  - set_solver.
  - exists []. by rewrite app_nil_r.
  - intros key nodes H. exists []. by rewrite app_nil_r.
Qed.

Lemma collectFieldsLoop_extends rec ctx runtimeType selections :
  (forall selections fields visited result,
     rec ctx runtimeType selections fields visited = Ret result ->
     extendsGrouping (fields, visited) result) ->
  forall fields visited result,
    Execute.collectFieldsLoop ext rec ctx runtimeType selections fields visited
      = Ret result ->
    extendsGrouping (fields, visited) result.
Proof.
  intros Hrec.
  induction selections as [|selection rest IH]; intros fields visited result.
  - cbn. intros [= <-]. apply extends_refl.
  - cbn [Execute.collectFieldsLoop].
    destruct selection as [node|typeCondition directives selectionSet|fragName directives].
    + destruct (Execute.shouldIncludeNode ext ctx (field_directives node)) as [[|]|e];
        [|apply IH|discriminate].
      intros H. eapply extends_trans; [apply extends_pushField|apply (IH _ _ _ H)].
    + destruct (Execute.shouldIncludeNode ext ctx directives) as [included|e];
        [|discriminate].
      destruct (negb included
                || negb (Execute.doesFragmentConditionMatch ext ctx typeCondition
                           runtimeType)); [apply IH|].
      destruct (rec ctx runtimeType selectionSet fields visited) as [[f v]|e|] eqn:E;
        [|discriminate..].
      intros H. eapply extends_trans; [apply (Hrec _ _ _ _ E)|apply (IH _ _ _ H)].
    + destruct (bool_decide (fragName ∈ visited)); [apply IH|].
      destruct (Execute.shouldIncludeNode ext ctx directives) as [[|]|e];
        [|apply IH|discriminate].
      assert (Hskip : Execute.collectFieldsLoop ext rec ctx runtimeType rest fields
                        ({[fragName]} ∪ visited) = Ret result ->
                      extendsGrouping (fields, visited) result).
      { intros H. eapply extends_trans; [apply extends_visit|apply (IH _ _ _ H)]. }
      destruct (ctx_fragments ctx !! fragName) as [fragment|]; [|exact Hskip].
      destruct (negb (Execute.doesFragmentConditionMatch ext ctx
                        (fragment_typeCondition fragment) runtimeType)); [exact Hskip|].
      destruct (rec ctx runtimeType (fragment_selectionSet fragment) fields
                  ({[fragName]} ∪ visited)) as [[f v]|e|] eqn:E; [|discriminate..].
      intros H. eapply extends_trans; [apply extends_visit|].
      eapply extends_trans; [apply (Hrec _ _ _ _ E)|apply (IH _ _ _ H)].
Qed.

Lemma collectFields_extends fuel ctx runtimeType selections fields visited result :
  Execute.collectFields ext fuel ctx runtimeType selections fields visited = Ret result ->
  extendsGrouping (fields, visited) result.
Proof.
  revert selections fields visited result.
  induction fuel as [|fuel IH]; intros selections fields visited result; [discriminate|].
  cbn [Execute.collectFields]. apply collectFieldsLoop_extends. exact IH.
Qed.

(** The invariants of [collectFields]: the visited set only grows; the
    response keys that were in the grouping keep their places and new ones
    are added after them; an entry keeps the nodes it had, in order, new
    nodes coming after them; a grouping without a repeated key stays so; and
    a grouping whose entries are non-empty lists of nodes with the entry's
    response key stays so. *)
Theorem collectFields_keeps_grouping fuel ctx runtimeType selections fields visited
    fields' visited' :
  Execute.collectFields ext fuel ctx runtimeType selections fields visited
    = Ret (fields', visited') ->
  visited ⊆ visited'
  /\ (exists added, map fst fields' = map fst fields ++ added)
  /\ (forall key nodes, In (key, nodes) fields ->
        exists more, In (key, nodes ++ more) fields')
  /\ (NoDup (map fst fields) -> NoDup (map fst fields'))
  /\ (wellGrouped fields = true -> wellGrouped fields' = true).
Proof.
  intros H. destruct (collectFields_extends H) as (Hvisited & Hkeys & Hnodes & Hnd & Hw).
  cbn [fst snd] in *. repeat split.
  - exact Hvisited.
  - exact Hkeys.
  - exact Hnodes.
  - exact Hnd.
  - exact Hw.
Qed.

Lemma collectFields_from_empty fuel ctx runtimeType selections fields visited :
  Execute.collectFields ext fuel ctx runtimeType selections [] ∅ = Ret (fields, visited) ->
  NoDup (map fst fields) /\ wellGrouped fields = true.
Proof.
  intros H. destruct (collectFields_extends H) as (_ & _ & _ & Hnd & Hw). cbn in *.
  split; [apply Hnd; constructor|by apply Hw].
Qed.

(** *** Sub-selections of merged fields *)

Lemma collectSubfields_concat fuel ctx returnType fieldNodes fields visited :
  Execute.collectSubfields ext (S fuel) ctx returnType fieldNodes fields visited
  = Execute.collectFields ext (S fuel) ctx returnType
      (concat (map subSelections fieldNodes)) fields visited.
Proof.
  revert fields visited.
  induction fieldNodes as [|node rest IH]; intros fields visited; [reflexivity|].
  cbn [Execute.collectSubfields map concat]. rewrite collectFields_app.
  unfold subSelections at 1.
  destruct (field_selectionSet node) as [selectionSet|].
  - destruct (Execute.collectFields ext (S fuel) ctx returnType selectionSet fields
                visited) as [[f v]|e|]; [apply IH|reflexivity..].
  - cbn. apply IH.
Qed.

Lemma collectSubfields_extends fuel ctx returnType fieldNodes fields visited result :
  Execute.collectSubfields ext fuel ctx returnType fieldNodes fields visited = Ret result ->
  extendsGrouping (fields, visited) result.
Proof.
  revert fields visited.
  induction fieldNodes as [|node rest IH]; intros fields visited.
  - cbn. intros [= <-]. apply extends_refl.
  - cbn [Execute.collectSubfields].
    destruct (field_selectionSet node) as [selectionSet|]; [|apply IH].
    destruct (Execute.collectFields ext fuel ctx returnType selectionSet fields visited)
      as [[f v]|e|] eqn:E; [|discriminate..].
    intros H. eapply extends_trans; [apply (collectFields_extends E)|apply (IH _ _ H)].
Qed.

(** The field nodes that share a response key have their selection sets
    merged: the sub-fields [collectAndExecuteSubfields] executes are those
    [collectFields] collects from the selection sets of the nodes written one
    after the other, a fragment spread in several of them being followed
    once; the grouping has no repeated key and no empty entry. *)
Theorem subfields_are_merged fuel ctx returnType fieldNodes info path result
    (s : State W) :
  Execute.collectSubfields ext (S fuel) ctx returnType fieldNodes [] ∅
  = Execute.collectFields ext (S fuel) ctx returnType
      (concat (map subSelections fieldNodes)) [] ∅
  /\ Execute.collectAndExecuteSubfields ext (S fuel) ctx returnType fieldNodes info path
       result s
     = match Execute.collectFields ext (S fuel) ctx returnType
               (concat (map subSelections fieldNodes)) [] ∅ with
       | Ret (subFieldNodes, _) =>
           Execute.executeFields ext (S fuel) ctx returnType result path subFieldNodes s
       | Throw e => (Throw e, s)
       | OutOfFuel => (OutOfFuel, s)
       end
  /\ (forall subFieldNodes visited,
        Execute.collectSubfields ext (S fuel) ctx returnType fieldNodes [] ∅
        = Ret (subFieldNodes, visited) ->
        NoDup (map fst subFieldNodes) /\ wellGrouped subFieldNodes = true).
Proof.
  split; [apply collectSubfields_concat|]. split.
  - unfold Execute.collectAndExecuteSubfields, Execute.collectAndExecuteSubfields_step,
      bind, liftOutcome.
    rewrite collectSubfields_concat.
    destruct (Execute.collectFields ext (S fuel) ctx returnType
                (concat (map subSelections fieldNodes)) [] ∅) as [[f v]|e|]; reflexivity.
  - intros subFieldNodes visited. rewrite collectSubfields_concat.
    apply collectFields_from_empty.
Qed.

End Grouping.

(* ================================================================== *)
(** ** Termination of [collectFields] *)
(* ================================================================== *)

Section Termination.

Context {W : Type} (ext : Externals W).

Lemma unvisited_mono (ctx : ExecutionContext W) (visited visited' : gset string) :
  visited ⊆ visited' ->
  size (unvisitedFragments ctx visited') <= size (unvisitedFragments ctx visited).
Proof.
  intros H. apply subseteq_size. unfold unvisitedFragments.
  intros x. rewrite !elem_of_difference. intros [Hx Hn]. split; [exact Hx|].
  intros Hv. apply Hn. by apply H.
Qed.

Lemma unvisited_visit (ctx : ExecutionContext W) (visited : gset string) fragName fragment :
  fragName ∉ visited ->
  ctx_fragments ctx !! fragName = Some fragment ->
  S (size (unvisitedFragments ctx ({[fragName]} ∪ visited)))
  <= size (unvisitedFragments ctx visited).
Proof.
  intros Hv Hf. apply subset_size. unfold unvisitedFragments.
  assert (Hd : fragName ∈ dom (ctx_fragments ctx)) by (apply elem_of_dom; eauto).
  split.
  - intros x. rewrite !elem_of_difference. intros [Hx Hn]. split; [exact Hx|].
    intros Hx'. apply Hn. by apply elem_of_union_r.
  - intros Hc. specialize (Hc fragName). rewrite !elem_of_difference in Hc.
    destruct Hc as [_ Hc]; [by split|].
    apply Hc. apply elem_of_union_l. by apply elem_of_singleton.
Qed.

Lemma selectionSetDepth_cons selection rest :
  selectionSetDepth (selection :: rest)
  = Nat.max (selectionDepth selection) (selectionSetDepth rest).
Proof. reflexivity. Qed.

Lemma collectFields_enough_fuel bound (ctx : ExecutionContext W) :
  (forall name fragment,
     ctx_fragments ctx !! name = Some fragment ->
     selectionSetDepth (fragment_selectionSet fragment) < bound) ->
  forall fuel runtimeType selections fields visited,
    selectionSetDepth selections + size (unvisitedFragments ctx visited) * bound < fuel ->
    Execute.collectFields ext fuel ctx runtimeType selections fields visited <> OutOfFuel.
Proof.
  intros Hbound. induction fuel as [|fuel IHfuel]; intros runtimeType; [lia|].
  cbn [Execute.collectFields].
  induction selections as [|selection rest IH]; intros fields visited Hfuel;
    [discriminate|].
  rewrite selectionSetDepth_cons in Hfuel.
  assert (Hrest : forall fields' visited',
            visited ⊆ visited' ->
            Execute.collectFieldsLoop ext (Execute.collectFields ext fuel) ctx runtimeType
              rest fields' visited' <> OutOfFuel).
  { intros fields' visited' Hsub. apply IH.
    pose proof (unvisited_mono ctx Hsub). nia. }
  cbn [Execute.collectFieldsLoop].
  destruct selection as [node|typeCondition directives selectionSet|fragName directives].
  - destruct (Execute.shouldIncludeNode ext ctx (field_directives node)) as [[|]|e];
      [by apply Hrest|by apply Hrest|discriminate].
  - destruct (Execute.shouldIncludeNode ext ctx directives) as [included|e];
      [|discriminate].
    destruct (negb included
              || negb (Execute.doesFragmentConditionMatch ext ctx typeCondition
                         runtimeType)); [by apply Hrest|].
    destruct (Execute.collectFields ext fuel ctx runtimeType selectionSet fields visited)
      as [[f v]|e|] eqn:E; [|discriminate|].
    + apply Hrest. apply (collectFields_extends E).
    + exfalso. revert E. apply IHfuel.
      cbn [selectionDepth] in Hfuel. fold (selectionSetDepth selectionSet) in Hfuel. lia.
  - destruct (bool_decide (fragName ∈ visited)) eqn:Hv; [by apply Hrest|].
    apply bool_decide_eq_false in Hv.
    destruct (Execute.shouldIncludeNode ext ctx directives) as [[|]|e];
      [|by apply Hrest|discriminate].
    destruct (ctx_fragments ctx !! fragName) as [fragment|] eqn:Hf;
      [|apply Hrest; set_solver].
    destruct (negb (Execute.doesFragmentConditionMatch ext ctx
                      (fragment_typeCondition fragment) runtimeType));
      [apply Hrest; set_solver|].
    destruct (Execute.collectFields ext fuel ctx runtimeType
                (fragment_selectionSet fragment) fields ({[fragName]} ∪ visited))
      as [[f v]|e|] eqn:E; [|discriminate|].
    + apply Hrest. pose proof (collectFields_extends E) as (Hsub & _).
      cbn [fst snd] in Hsub. set_solver.
    + exfalso. revert E. apply IHfuel.
      pose proof (unvisited_visit Hv Hf). pose proof (Hbound _ _ Hf). nia.
Qed.

(** [collectFields] ends on every selection set, also when fragments spread
    each other in a cycle, because a fragment is followed once: with a bound
    above the nesting of inline fragments in the fragments of the context,
    fuel above the nesting of the selection set plus the bound for each
    fragment not visited yet is enough for a result, and any further fuel
    gives the same result. *)
Theorem collectFields_terminates bound fuel ctx runtimeType selections fields visited :
  (forall name fragment,
     ctx_fragments ctx !! name = Some fragment ->
     selectionSetDepth (fragment_selectionSet fragment) < bound) ->
  selectionSetDepth selections + size (unvisitedFragments ctx visited) * bound < fuel ->
  Execute.collectFields ext fuel ctx runtimeType selections fields visited <> OutOfFuel
  /\ forall more,
       Execute.collectFields ext (more + fuel) ctx runtimeType selections fields visited
       = Execute.collectFields ext fuel ctx runtimeType selections fields visited.
Proof.
  intros Hbound Hfuel.
  pose proof (@collectFields_enough_fuel bound ctx Hbound fuel runtimeType selections
                fields visited Hfuel) as H.
  split; [exact H|]. intros more. by apply collectFields_more.
Qed.

End Termination.

(* ================================================================== *)
(** ** Invariants of field execution and value completion *)
(* ================================================================== *)

Section Invariants.

Context {W : Type} (ext : Externals W).

Lemma bind_inv {A B} (m : M W A) (k : A -> M W B) (s s' : State W) r :
  bind m k s = (r, s') ->
  (exists a s1, m s = (Ret a, s1) /\ k a s1 = (r, s'))
  \/ (exists e, m s = (Throw e, s') /\ r = Throw e)
  \/ (m s = (OutOfFuel, s') /\ r = OutOfFuel).
Proof.
  unfold bind. destruct (m s) as [[a|e|] s1].
  - intros H. left. eauto.
  - intros [= <- <-]. right. left. eauto.
  - intros [= <- <-]. right. right. eauto.
Qed.

Lemma recordsLocated_refl (s : State W) : recordsLocated ext s s.
Proof. exists []. split; [by rewrite app_nil_r|constructor]. Qed.

Lemma recordsLocated_same (s s' : State W) :
  errors s' = errors s -> recordsLocated ext s s'.
Proof. intros H. exists []. rewrite H, app_nil_r. split; [done|constructor]. Qed.

Lemma recordsLocated_trans (s1 s2 s3 : State W) :
  recordsLocated ext s1 s2 -> recordsLocated ext s2 s3 -> recordsLocated ext s1 s3.
Proof.
  intros (n1 & H1 & F1) (n2 & H2 & F2). exists (n1 ++ n2). split.
  - by rewrite H2, H1, app_assoc.
  - apply Forall_app. by split.
Qed.

Lemma recordsLocated_push (s : State W) e :
  located ext e -> recordsLocated ext s (pushError e s).
Proof. intros H. exists [e]. split; [reflexivity|by constructor]. Qed.

Lemma undefined_or_not (v : Value) : v = VUndefined \/ v <> VUndefined.
Proof. destruct v; (by left) || (right; discriminate). Qed.

Lemma liftResult_inv {A} (x : Result A) (s s' : State W) r :
  liftResult x s = (r, s') -> s' = s /\ r = ofResult x.
Proof. unfold liftResult. by intros [= <- <-]. Qed.

Lemma completeLeafValue_inv schema returnType result (s s' : State W) r :
  Execute.completeLeafValue ext schema returnType result s = (r, s') ->
  s' = s /\ r <> Ret VUndefined.
Proof.
  unfold Execute.completeLeafValue.
  destruct (serializeOf schema returnType) as [serialize|]; [|by intros [= <- <-]].
  intros H. apply bind_inv in H as [(v & s1 & H1 & H2)|[(e & H1 & ->)|[H1 ->]]];
    apply liftResult_inv in H1 as [-> H1]; try done.
  destruct (isNullish v) eqn:E.
  - apply bind_inv in H2 as [(m & s2 & H2 & H3)|[(e & H2 & ->)|[H2 ->]]];
      apply liftResult_inv in H2 as [-> H2]; try done.
    revert H3. by intros [= <- <-].
  - revert H2. intros [= <- <-]. split; [done|]. intros [= ->]. discriminate.
Qed.

Section Step.

Variable fuel : nat.

Variable rec :
  ExecutionContext W -> GraphQLType -> list FieldNode -> GraphQLResolveInfo ->
  ResponsePath -> Value -> M W Value.

Hypothesis rec_inv :
  forall ctx t nodes info path result (s s' : State W) r,
    rec ctx t nodes info path result s = (r, s') ->
    recordsLocated ext s s' /\ r <> Ret VUndefined.

Lemma withLocatedError_inv ctx t nodes info path result (s s' : State W) r :
  Execute.completeValueWithLocatedError_step ext rec ctx t nodes info path result s
    = (r, s') ->
  recordsLocated ext s s' /\ r <> Ret VUndefined
  /\ (forall e, r = Throw e -> located ext e).
Proof.
  unfold Execute.completeValueWithLocatedError_step, tryCatch.
  destruct (rec ctx t nodes info path result s) as [[v|e|] s1] eqn:E;
    destruct (rec_inv E) as [Hl Hu]; cbn; intros [= <- <-];
    (split; [exact Hl|split; [done|]]); try discriminate.
  intros e' [= <-]. unfold located. eauto.
Qed.

Lemma catchingError_inv ctx t nodes info path result (s s' : State W) r :
  Execute.completeValueCatchingError_step ext rec ctx t nodes info path result s
    = (r, s') ->
  recordsLocated ext s s' /\ r <> Ret VUndefined
  /\ (forall e, r = Throw e -> located ext e /\ isNonNull t = true).
Proof.
  unfold Execute.completeValueCatchingError_step.
  destruct (isNonNull t).
  - intros H. apply withLocatedError_inv in H as (H1 & H2 & H3).
    split; [done|split; [done|]]. intros e He. split; [by apply H3|done].
  - unfold tryCatch.
    destruct (Execute.completeValueWithLocatedError_step ext rec ctx t nodes info path
                result s) as [[v|e|] s1] eqn:E;
      apply withLocatedError_inv in E as (H1 & H2 & H3); intros [= <- <-].
    + split; [done|split; [done|discriminate]].
    + split; [|split; [discriminate|discriminate]].
      eapply recordsLocated_trans; [exact H1|]. apply recordsLocated_push. by apply H3.
    + split; [done|split; [done|discriminate]].
Qed.

Lemma resolveFieldValueOrError_inv ctx fieldDef fieldNodes resolveFn source info
    (s s' : State W) r :
  Execute.resolveFieldValueOrError ext ctx fieldDef fieldNodes resolveFn source info s
    = (r, s') ->
  errors s' = errors s
  /\ match r with
     | Ret _ => True
     | Throw failure => unconverted ext failure
     | OutOfFuel => False
     end.
Proof.
  intros H.
  destruct (resolveFieldValueOrError_returns ext ctx fieldDef fieldNodes resolveFn source
              info s) as (r0 & s0 & Hr & He & Hm).
  rewrite H in Hr. injection Hr as <- <-. by split.
Qed.

Lemma resolveField_inv ctx parentType source nodes path (s s' : State W) r :
  Execute.resolveField_step ext rec ctx parentType source nodes path s = (r, s') ->
  recordsLocated ext s s'
  /\ (nodes <> [] -> forall e, r = Throw e ->
        exists fieldDef,
          fieldDefOf ext (ctx_schema ctx) parentType nodes = Some fieldDef
          /\ ((located ext e /\ isNonNull (fielddef_type fieldDef) = true)
              \/ unconverted ext e))
  /\ (r = Ret VUndefined ->
      fieldDefOf ext (ctx_schema ctx) parentType nodes = None /\ s' = s).
Proof.
  unfold Execute.resolveField_step, fieldDefOf. destruct nodes as [|node rest].
  - intros [= <- <-]. split; [apply recordsLocated_refl|]. split; [done|discriminate].
  - destruct (Execute.getFieldDef ext (ctx_schema ctx) parentType (field_name node))
      as [fieldDef|].
    + intros H. apply bind_inv in H as [(v & s1 & H1 & H2)|[(e & H1 & ->)|[H1 ->]]];
        apply resolveFieldValueOrError_inv in H1 as [He Hm]; [| |done].
      * apply catchingError_inv in H2 as (G1 & G2 & G3).
        split; [|split].
        -- eapply recordsLocated_trans; [by apply recordsLocated_same|exact G1].
        -- intros _ e ->. destruct (G3 e eq_refl) as [Hl Hn]. eauto.
        -- intros ->. done.
      * split; [by apply recordsLocated_same|]. split; [|discriminate].
        intros _ e' [= <-]. eauto.
    + intros [= <- <-]. split; [apply recordsLocated_refl|]. split; [discriminate|done].
Qed.

Lemma wellGrouped_cons key nodes fields :
  wellGrouped ((key, nodes) :: fields) = true ->
  nodes <> [] /\ wellGrouped fields = true.
Proof.
  unfold wellGrouped. cbn [forallb fst snd]. intros H.
  apply andb_prop in H as [H1 H2]. apply andb_prop in H1 as [H1 _].
  split; [|exact H2]. by destruct nodes.
Qed.

Lemma reduceFields_inv ctx parentType source path fields results (s s' : State W) r :
  Execute.reduceFields ext rec ctx parentType source path fields results s = (r, s') ->
  recordsLocated ext s s'
  /\ (wellGrouped fields = true ->
      forall e, r = Throw e -> located ext e \/ unconverted ext e)
  /\ (forallb (nullableOrUnknown ext (ctx_schema ctx) parentType) fields = true ->
      forall e, r = Throw e -> unconverted ext e).
Proof.
  revert results s. induction fields as [|[key nodes] fields IH]; intros results s.
  - intros [= <- <-]. split; [apply recordsLocated_refl|]. split; discriminate.
  - cbn [Execute.reduceFields]. intros H.
    apply bind_inv in H as [(v & s1 & H1 & H2)|[(e & H1 & ->)|[H1 ->]]];
      apply resolveField_inv in H1 as (G1 & G2 & G3).
    + assert (Hrest : exists results',
                Execute.reduceFields ext rec ctx parentType source path fields results' s1
                = (r, s')).
      { destruct v; eauto. }
      destruct Hrest as (results' & Hrest). apply IH in Hrest as (I1 & I2 & I3).
      split; [by eapply recordsLocated_trans|]. split.
      * intros Hw. apply wellGrouped_cons in Hw as [_ Hw]. by apply I2.
      * intros Hn. cbn [forallb] in Hn. apply andb_prop in Hn as [_ Hn]. by apply I3.
    + split; [exact G1|]. split.
      * intros Hw e' [= <-]. apply wellGrouped_cons in Hw as [Hne _].
        destruct (G2 Hne e eq_refl) as (fieldDef & _ & [[Hl _]|Hu]); [by left|by right].
      * intros Hn e' [= <-]. cbn [forallb] in Hn. apply andb_prop in Hn as [Hn _].
        unfold nullableOrUnknown in Hn. cbn [snd] in Hn.
        destruct nodes as [|node rest]; [discriminate|].
        destruct (G2 ltac:(discriminate) e eq_refl) as (fieldDef & Hd & [[_ Hnn]|Hu]);
          [|exact Hu].
        rewrite Hd, Hnn in Hn. discriminate.
    + split; [exact G1|]. split; [discriminate|discriminate].
Qed.

Lemma reduceFields_cause ctx parentType source path fields results (s s' : State W) e :
  wellGrouped fields = true ->
  Execute.reduceFields ext rec ctx parentType source path fields results s
    = (Throw e, s') ->
  exists key nodes fieldDef,
    In (key, nodes) fields
    /\ fieldDefOf ext (ctx_schema ctx) parentType nodes = Some fieldDef
    /\ ((located ext e /\ isNonNull (fielddef_type fieldDef) = true)
        \/ unconverted ext e).
Proof.
  revert results s. induction fields as [|[key nodes] fields IH]; intros results s Hw.
  - discriminate.
  - apply wellGrouped_cons in Hw as [Hne Hw]. cbn [Execute.reduceFields]. intros H.
    apply bind_inv in H as [(v & s1 & H1 & H2)|[(e' & H1 & [= <-])|[_ [= ]]]].
    + assert (Hrest : exists results',
                Execute.reduceFields ext rec ctx parentType source path fields results' s1
                = (Throw e, s')).
      { destruct v; eauto. }
      destruct Hrest as (results' & Hrest).
      destruct (IH _ _ Hw Hrest) as (k & n & d & Hin & Hd & Hc).
      exists k, n, d. split; [by right|by split].
    + apply resolveField_inv in H1 as (_ & G & _).
      destruct (G Hne e eq_refl) as (fieldDef & Hd & Hc).
      exists key, nodes, fieldDef. split; [by left|by split].
Qed.

Lemma reduceFields_object ctx parentType source path fields inherits props obj
    (s s' : State W) :
  Execute.reduceFields ext rec ctx parentType source path fields (VObject inherits props) s
    = (Ret obj, s') ->
  exists inherits' props', obj = VObject inherits' props'.
Proof.
  revert inherits props s. induction fields as [|[key nodes] fields IH];
    intros inherits props s.
  - intros [= <- <-]. eauto.
  - cbn [Execute.reduceFields]. intros H.
    apply bind_inv in H as [(v & s1 & H1 & H2)|[(e & H1 & [= ])|[H1 [= ]]]].
    destruct (setProperty_object inherits props key v) as (i' & p' & Hset).
    rewrite Hset in H2. destruct v; eauto.
Qed.

Lemma reduceFields_exact_keys ctx parentType source path fields props obj
    (s s' : State W) :
  NoDup (map fst props ++ map fst fields) ->
  Execute.reduceFields ext rec ctx parentType source path fields (VObject false props) s
    = (Ret obj, s') ->
  ownKeys obj
  = map fst props
    ++ map fst (List.filter (knownField ext (ctx_schema ctx) parentType) fields).
Proof.
  revert props s. induction fields as [|[key nodes] fields IH]; intros props s Hnd.
  - intros [= <- <-]. cbn. by rewrite app_nil_r.
  - cbn [Execute.reduceFields]. intros H.
    apply bind_inv in H as [(v & s1 & H1 & H2)|[(e & H1 & [= ])|[H1 [= ]]]].
    assert (Hnew : ~ In key (map fst props)).
    { intros Hin. apply NoDup_app in Hnd as (_ & Hd & _).
      apply (Hd key); [by apply list_elem_of_In|]. cbn. by left. }
    cbn [List.filter]. unfold knownField at 1. cbn [snd].
    destruct (undefined_or_not v) as [-> |Hv].
    + apply resolveField_inv in H1 as (_ & _ & G3). destruct (G3 eq_refl) as [-> _].
      cbn [isSome]. apply (IH props s1); [|exact H2].
      cbn in Hnd. apply NoDup_app in Hnd as (D1 & D2 & D3). apply NoDup_app.
      repeat split; [exact D1| |by inversion D3].
      intros x Hx Hin. apply (D2 x Hx). by right.
    + pose proof (resolveField_defined H1 Hv) as Hdef.
      destruct (fieldDefOf ext (ctx_schema ctx) parentType nodes); [|done].
      cbn [isSome map fst].
      assert (H2' : Execute.reduceFields ext rec ctx parentType source path fields
                      (VObject false (props ++ [(key, v)])) s1 = (Ret obj, s')).
      { rewrite <- (assignProperty_new v Hnew).
        destruct v; try exact H2. by destruct Hv. }
      apply IH in H2'.
      * rewrite H2', map_app, <- app_assoc. reflexivity.
      * rewrite map_app. cbn [map fst]. rewrite <- app_assoc. exact Hnd.
Qed.

Lemma completeItems_inv ctx itemType nodes info path visits (s s' : State W) r :
  Execute.completeItems ext rec ctx itemType nodes info path visits s = (r, s') ->
  recordsLocated ext s s'
  /\ (forall e, r = Throw e -> located ext e /\ isNonNull itemType = true)
  /\ (forall vs, r = Ret vs -> length vs = length visits).
Proof.
  revert s s' r. induction visits as [|[index item] visits IH]; intros s s' r.
  - intros [= <- <-]. split; [apply recordsLocated_refl|]. split; [discriminate|].
    by intros vs [= <-].
  - cbn [Execute.completeItems]. intros H.
    apply bind_inv in H as [(v & s1 & H1 & H2)|[(e & H1 & ->)|[H1 ->]]];
      apply catchingError_inv in H1 as (G1 & G2 & G3).
    + apply bind_inv in H2 as [(vs & s2 & H2 & H3)|[(e & H2 & ->)|[H2 ->]]];
        apply IH in H2 as (I1 & I2 & I3).
      * revert H3. intros [= <- <-]. split; [by eapply recordsLocated_trans|].
        split; [discriminate|]. intros ws [= <-]. cbn. f_equal. by apply I3.
      * split; [by eapply recordsLocated_trans|]. split; [|discriminate].
        intros e' [= <-]. by apply I2.
      * split; [by eapply recordsLocated_trans|]. split; discriminate.
    + split; [exact G1|]. split; [|discriminate]. intros e' [= <-]. by apply G3.
    + split; [exact G1|]. split; discriminate.
Qed.

Lemma completeListValue_inv' ctx itemType nodes info path result (s s' : State W) r :
  Execute.completeListValue_step ext rec ctx itemType nodes info path result s = (r, s') ->
  recordsLocated ext s s' /\ r <> Ret VUndefined.
Proof.
  unfold Execute.completeListValue_step. destruct (isCollection ext result);
    [|intros [= <- <-]; split; [apply recordsLocated_refl|discriminate]].
  intros H. apply bind_inv in H as [(vs & s1 & H1 & H2)|[(e & H1 & ->)|[H1 ->]]];
    apply completeItems_inv in H1 as (G1 & _).
  - destruct (snd (forEach ext result)); revert H2; intros [= <- <-];
      (split; [exact G1|discriminate]).
  - split; [exact G1|discriminate].
  - split; [exact G1|discriminate].
Qed.

Lemma collectAndExecuteSubfields_inv ctx returnType nodes info path result
    (s s' : State W) r :
  Execute.collectAndExecuteSubfields_step ext fuel rec ctx returnType nodes info path
    result s = (r, s') ->
  recordsLocated ext s s' /\ r <> Ret VUndefined.
Proof.
  unfold Execute.collectAndExecuteSubfields_step. intros H.
  apply bind_inv in H as [(c & s1 & H1 & H2)|[(e & H1 & ->)|[H1 ->]]].
  - revert H1. unfold liftOutcome. intros [= _ <-].
    pose proof (reduceFields_inv H2) as (G1 & _). split; [exact G1|].
    intros ->. apply reduceFields_object in H2 as (i & p & Hobj). discriminate.
  - revert H1. unfold liftOutcome. intros [= _ <-].
    split; [apply recordsLocated_refl|discriminate].
  - revert H1. unfold liftOutcome. intros [= _ <-].
    split; [apply recordsLocated_refl|discriminate].
Qed.

Lemma completeObjectValue_inv ctx returnType nodes info path result (s s' : State W) r :
  Execute.completeObjectValue_step ext fuel rec ctx returnType nodes info path result s
    = (r, s') ->
  recordsLocated ext s s' /\ r <> Ret VUndefined.
Proof.
  unfold Execute.completeObjectValue_step.
  destruct (isTypeOfOf (ctx_schema ctx) returnType) as [isTypeOf|];
    [|apply collectAndExecuteSubfields_inv].
  intros H. apply bind_inv in H as [(v & s1 & H1 & H2)|[(e & H1 & ->)|[H1 ->]]];
    apply liftResult_inv in H1 as [-> H1].
  - destruct (truthy v); [by apply collectAndExecuteSubfields_inv in H2|].
    apply bind_inv in H2 as [(e & s2 & H2 & H3)|[(e & H2 & ->)|[H2 ->]]];
      apply liftResult_inv in H2 as [-> H2].
    + revert H3. intros [= <- <-]. split; [apply recordsLocated_refl|discriminate].
    + split; [apply recordsLocated_refl|discriminate].
    + split; [apply recordsLocated_refl|discriminate].
  - split; [apply recordsLocated_refl|discriminate].
  - split; [apply recordsLocated_refl|discriminate].
Qed.

Lemma completeAbstractValue_inv ctx returnType nodes info path result (s s' : State W) r :
  Execute.completeAbstractValue_step ext fuel rec ctx returnType nodes info path result s
    = (r, s') ->
  recordsLocated ext s s' /\ r <> Ret VUndefined.
Proof.
  unfold Execute.completeAbstractValue_step. intros H.
  apply bind_inv in H as [(v & s1 & H1 & H2)|[(e & H1 & ->)|[H1 ->]]];
    apply liftResult_inv in H1 as [-> H1];
    [|split; [apply recordsLocated_refl|discriminate]..].
  apply bind_inv in H2 as [(t & s2 & H2 & H3)|[(e & H2 & ->)|[H2 ->]]];
    apply liftResult_inv in H2 as [-> H2];
    [|split; [apply recordsLocated_refl|discriminate]..].
  by apply completeObjectValue_inv in H3.
Qed.

Lemma completeValue_step_inv ctx returnType nodes info path result (s s' : State W) r :
  Execute.completeValue_step ext fuel rec ctx returnType nodes info path result s
    = (r, s') ->
  recordsLocated ext s s' /\ r <> Ret VUndefined.
Proof.
  unfold Execute.completeValue_step.
  destruct (instanceofError result).
  { intros [= <- <-]. split; [apply recordsLocated_refl|discriminate]. }
  destruct returnType as [ofType|ofType|name].
  - intros H. apply bind_inv in H as [(v & s1 & H1 & H2)|[(e & H1 & ->)|[H1 ->]]];
      apply rec_inv in H1 as [G1 G2]; [|split; [done|discriminate]..].
    destruct v; revert H2; intros [= <- <-]; split; try done; discriminate.
  - destruct (isNullish result).
    + intros [= <- <-]. split; [apply recordsLocated_refl|discriminate].
    + apply completeListValue_inv'.
  - destruct (isNullish result).
    { intros [= <- <-]. split; [apply recordsLocated_refl|discriminate]. }
    destruct (isLeafType (ctx_schema ctx) (GraphQLNamedType name)).
    { intros H. apply completeLeafValue_inv in H as [-> H].
      split; [apply recordsLocated_refl|exact H]. }
    destruct (isAbstractType (ctx_schema ctx) (GraphQLNamedType name));
      [apply completeAbstractValue_inv|].
    destruct (isObjectType (ctx_schema ctx) (GraphQLNamedType name));
      [apply completeObjectValue_inv|].
    intros [= <- <-]. split; [apply recordsLocated_refl|discriminate].
Qed.

End Step.

Lemma completeValue_inv fuel ctx returnType nodes info path result (s s' : State W) r :
  Execute.completeValue ext fuel ctx returnType nodes info path result s = (r, s') ->
  recordsLocated ext s s' /\ r <> Ret VUndefined.
Proof.
  revert ctx returnType nodes info path result s s' r.
  induction fuel as [|fuel IH]; intros ctx returnType nodes info path result s s' r.
  - intros [= <- <-]. split; [apply recordsLocated_refl|discriminate].
  - cbn [Execute.completeValue]. apply completeValue_step_inv. exact IH.
Qed.

End Invariants.

(* ================================================================== *)
(** ** What a run records and returns *)
(* ================================================================== *)

Section Runs.

Context {W : Type} (ext : Externals W).

Lemma executeOperation_inv fuel ctx operation rootValue (s s' : State W) r :
  Execute.executeOperation ext fuel ctx operation rootValue s = (r, s') ->
  (r <> Ret VNull -> recordsLocated ext s s')
  /\ (forall e, r = Throw e ->
        s' = s
        /\ (Execute.getOperationRootType (ctx_schema ctx) operation = Raise e
            \/ exists type,
                 Execute.getOperationRootType (ctx_schema ctx) operation = Ok type
                 /\ Execute.collectFields ext fuel ctx type
                      (operation_selectionSet operation) [] ∅ = Throw e))
  /\ (r = Ret VNull -> errors s' <> [])
  /\ (forall data, r = Ret data ->
        data = VNull \/ exists inherits props, data = VObject inherits props)
  /\ (r = Ret VNull ->
      exists s0 e,
        recordsLocated ext s s0 /\ s' = pushError e s0
        /\ (located ext e \/ unconverted ext e))
  /\ (forall type fields visited,
        Execute.getOperationRootType (ctx_schema ctx) operation = Ok type ->
        Execute.collectFields ext fuel ctx type (operation_selectionSet operation) [] ∅
          = Ret (fields, visited) ->
        forallb (nullableOrUnknown ext (ctx_schema ctx) type) fields = true ->
        r = Ret VNull ->
        exists s0 e, s' = pushError e s0 /\ unconverted ext e).
Proof.
  unfold Execute.executeOperation. intros H.
  apply bind_inv in H as [(type & s1 & H1 & H2)|[(e & H1 & ->)|[H1 ->]]];
    apply liftResult_inv in H1 as [-> H1].
  - destruct (Execute.getOperationRootType (ctx_schema ctx) operation) as [t|e] eqn:Ht;
      [|discriminate]. injection H1 as ->.
    apply bind_inv in H2 as [(c & s2 & H2 & H3)|[(e & H2 & ->)|[H2 ->]]];
      revert H2; unfold liftOutcome; intros [= H2 <-].
    + destruct c as [fields visited]. cbn [fst] in H3.
      destruct (collectFields_from_empty H2) as [_ Hw].
      unfold tryCatch in H3.
      assert (Hrun : forall results,
                (let (o, s0) :=
                   Execute.reduceFields ext (Execute.completeValue ext fuel) ctx t
                     rootValue PathRoot fields (VObject results []) s in
                 match o with
                 | Ret a => (Ret a, s0)
                 | Throw e => (Ret VNull, pushError e s0)
                 | OutOfFuel => (OutOfFuel, s0)
                 end) = (r, s') ->
                (r <> Ret VNull -> recordsLocated ext s s')
                /\ (forall e, r = Throw e -> False)
                /\ (r = Ret VNull -> errors s' <> [])
                /\ (forall data, r = Ret data ->
                      data = VNull \/ exists inherits props, data = VObject inherits props)
                /\ (r = Ret VNull ->
                    exists s0 e,
                      recordsLocated ext s s0 /\ s' = pushError e s0
                      /\ (located ext e \/ unconverted ext e))
                /\ (forallb (nullableOrUnknown ext (ctx_schema ctx) t) fields = true ->
                    r = Ret VNull ->
                    exists s0 e, s' = pushError e s0 /\ unconverted ext e)).
      { intros results.
        destruct (Execute.reduceFields ext (Execute.completeValue ext fuel) ctx t
                    rootValue PathRoot fields (VObject results []) s) as [r0 s0] eqn:Hr.
        intros Hm.
        pose proof (reduceFields_inv (@completeValue_inv _ ext fuel) Hr) as (G1 & G2 & G3).
        destruct r0 as [obj|e|]; revert Hm; intros [= <- <-].
        - apply reduceFields_object in Hr as (i & p & ->).
          split; [done|]. split; [discriminate|]. split; [discriminate|].
          split; [intros data [= <-]; right; eauto|]. split; [discriminate|].
          discriminate.
        - split; [done|]. split; [discriminate|]. split.
          { intros _. cbn. by destruct (errors s0). }
          split; [intros data [= <-]; by left|]. split.
          + intros _. exists s0, e. split; [exact G1|]. split; [done|].
            by apply (G2 Hw e).
          + intros Hn _. exists s0, e. split; [done|]. by apply (G3 Hn e).
        - split; [done|]. split; [discriminate|]. split; [discriminate|].
          split; [discriminate|]. split; discriminate. }
      assert (Hgoal : (r <> Ret VNull -> recordsLocated ext s s')
                /\ (forall e, r = Throw e -> False)
                /\ (r = Ret VNull -> errors s' <> [])
                /\ (forall data, r = Ret data ->
                      data = VNull \/ exists inherits props, data = VObject inherits props)
                /\ (r = Ret VNull ->
                    exists s0 e,
                      recordsLocated ext s s0 /\ s' = pushError e s0
                      /\ (located ext e \/ unconverted ext e))
                /\ (forallb (nullableOrUnknown ext (ctx_schema ctx) t) fields = true ->
                    r = Ret VNull ->
                    exists s0 e, s' = pushError e s0 /\ unconverted ext e)).
      { destruct (operation_operation operation);
          unfold Execute.executeFields, Execute.executeFieldsSerially,
            Execute.executeFields_step, Execute.executeFieldsSerially_step in H3;
          exact (Hrun _ H3). }
      destruct Hgoal as (G1 & G2 & G3 & G4 & G5 & G6). split; [exact G1|].
      split; [intros e He; destruct (G2 e He)|].
      split; [exact G3|]. split; [exact G4|]. split; [exact G5|].
      intros type fields' visited' [= <-] Hc. rewrite H2 in Hc.
      injection Hc as <- <-. exact G6.
    + split; [intros _; apply recordsLocated_refl|]. split.
      { intros e' [= <-]. split; [done|]. right. exists t. by split. }
      split; [discriminate|]. split; [discriminate|]. split; [discriminate|].
      intros type fields visited _ _ _. discriminate.
    + split; [intros _; apply recordsLocated_refl|]. split; [discriminate|].
      split; [discriminate|]. split; [discriminate|]. split; [discriminate|].
      intros type fields visited _ _ _. discriminate.
  - split; [intros _; apply recordsLocated_refl|]. split.
    { intros e' [= <-]. split; [done|]. left.
      destruct (Execute.getOperationRootType (ctx_schema ctx) operation); [discriminate|].
      by injection H1 as ->. }
    split; [discriminate|]. split; [discriminate|]. split; [discriminate|].
    intros type fields visited _ _ _. discriminate.
  - destruct (Execute.getOperationRootType (ctx_schema ctx) operation); discriminate.
Qed.


(** The object the read-mode driver returns has exactly the response keys
    of the fields the schema knows, in the order of the grouping, each once:
    a known field is never left out, its value being null when it has none. The
    write-mode driver returns the same keys when no response key is
    [__proto__]. *)
Theorem known_fields_are_the_response_keys fuel ctx parentType source path fields obj
    (s s' : State W) :
  NoDup (map fst fields) ->
  (Execute.executeFields ext fuel ctx parentType source path fields s = (Ret obj, s') ->
   ownKeys obj
   = map fst (List.filter (knownField ext (ctx_schema ctx) parentType) fields))
  /\ (~ In "__proto__" (map fst fields) ->
      Execute.executeFieldsSerially ext fuel ctx parentType source path fields s
        = (Ret obj, s') ->
      ownKeys obj
      = map fst (List.filter (knownField ext (ctx_schema ctx) parentType) fields)).
Proof.
  intros Hnd.
  assert (Hread : forall obj' s'',
            Execute.reduceFields ext (Execute.completeValue ext fuel) ctx parentType
              source path fields (VObject false []) s = (Ret obj', s'') ->
            ownKeys obj'
            = map fst (List.filter (knownField ext (ctx_schema ctx) parentType) fields)).
  { intros obj' s'' H.
    apply (reduceFields_exact_keys (@completeValue_inv _ ext fuel) (props:=[]) Hnd H). }
  split; [apply Hread|].
  intros Hk H.
  unfold Execute.executeFieldsSerially, Execute.executeFieldsSerially_step in H.
  pose proof (reduceFields_same_properties ext (Execute.completeValue ext fuel) ctx
                parentType source path [] true false s Hk) as Hsame.
  rewrite H in Hsame.
  destruct (Execute.reduceFields ext (Execute.completeValue ext fuel) ctx parentType
              source path fields (VObject false []) s) as [[y|e|] s2] eqn:E;
    try done.
  destruct Hsame as (props' & -> & -> & _).
  exact (Hread _ _ eq_refl).
Qed.

(** A field hands a failure to its parent only when its type is non-null,
    and then as a located error, or when [new Error(thrown)] itself threw
    for the value its resolver (or the coercion of its arguments) threw:
    once the resolution of a known field whose type is not non-null has
    returned, the field does not throw, whatever the value and the
    sub-selections do; what such a field throws is what that conversion
    threw, with nothing recorded; and a driver over fields that are all
    unknown or of such a type throws nothing else. *)
Theorem nullable_fields_absorb_failures fuel ctx parentType source path (s : State W) :
  (forall node nodes fieldDef value s1 e s',
     Execute.getFieldDef ext (ctx_schema ctx) parentType (field_name node)
       = Some fieldDef ->
     isNonNull (fielddef_type fieldDef) = false ->
     Execute.resolveFieldValueOrError ext ctx fieldDef (node :: nodes)
       (match fielddef_resolve fieldDef with
        | Some resolve => resolve
        | None => ctx_fieldResolver ctx
        end) source
       (Execute.buildResolveInfo ctx fieldDef (node :: nodes) parentType path) s
     = (Ret value, s1) ->
     Execute.resolveField ext fuel ctx parentType source (node :: nodes) path s
       <> (Throw e, s'))
  /\ (forall node nodes fieldDef e s',
        Execute.getFieldDef ext (ctx_schema ctx) parentType (field_name node)
          = Some fieldDef ->
        isNonNull (fielddef_type fieldDef) = false ->
        Execute.resolveField ext fuel ctx parentType source (node :: nodes) path s
          = (Throw e, s') ->
        unconverted ext e /\ errors s' = errors s
        /\ Execute.resolveFieldValueOrError ext ctx fieldDef (node :: nodes)
             (match fielddef_resolve fieldDef with
              | Some resolve => resolve
              | None => ctx_fieldResolver ctx
              end) source
             (Execute.buildResolveInfo ctx fieldDef (node :: nodes) parentType path) s
           = (Throw e, s'))
  /\ (forall node nodes e s',
        Execute.resolveField ext fuel ctx parentType source (node :: nodes) path s
          = (Throw e, s') ->
        exists fieldDef,
          Execute.getFieldDef ext (ctx_schema ctx) parentType (field_name node)
            = Some fieldDef
          /\ ((located ext e /\ isNonNull (fielddef_type fieldDef) = true)
              \/ unconverted ext e))
  /\ (forall fields e s',
        forallb (nullableOrUnknown ext (ctx_schema ctx) parentType) fields = true ->
        Execute.executeFields ext fuel ctx parentType source path fields s = (Throw e, s')
        \/ Execute.executeFieldsSerially ext fuel ctx parentType source path fields s
           = (Throw e, s') ->
        unconverted ext e).
Proof.
  assert (Hnullable : forall node nodes fieldDef e s',
            Execute.getFieldDef ext (ctx_schema ctx) parentType (field_name node)
              = Some fieldDef ->
            isNonNull (fielddef_type fieldDef) = false ->
            Execute.resolveField ext fuel ctx parentType source (node :: nodes) path s
              = (Throw e, s') ->
            unconverted ext e /\ errors s' = errors s
            /\ Execute.resolveFieldValueOrError ext ctx fieldDef (node :: nodes)
                 (match fielddef_resolve fieldDef with
                  | Some resolve => resolve
                  | None => ctx_fieldResolver ctx
                  end) source
                 (Execute.buildResolveInfo ctx fieldDef (node :: nodes) parentType path) s
               = (Throw e, s')).
  { intros node nodes fieldDef e s' Hd Hn H.
    unfold Execute.resolveField, Execute.resolveField_step in H. rewrite Hd in H.
    apply bind_inv in H as [(v & s1 & H1 & H2)|[(e' & H1 & [= <-])|[_ [= ]]]].
    - apply (catchingError_inv (@completeValue_inv _ ext fuel)) in H2 as (_ & _ & G).
      destruct (G e eq_refl) as [_ Hnn]. congruence.
    - pose proof (resolveFieldValueOrError_inv H1) as [He Hm]. by split. }
  split; [|split; [exact Hnullable|split]].
  - intros node nodes fieldDef value s1 e s' Hd Hn Hr H.
    destruct (Hnullable _ _ _ _ _ Hd Hn H) as (_ & _ & Hthrow). congruence.
  - intros node nodes e s' H. unfold Execute.resolveField in H.
    apply (resolveField_inv (@completeValue_inv _ ext fuel)) in H as (_ & G & _).
    exact (G ltac:(discriminate) e eq_refl).
  - intros fields e s' Hall [H|H];
      unfold Execute.executeFields, Execute.executeFieldsSerially,
        Execute.executeFields_step, Execute.executeFieldsSerially_step in H;
      apply (reduceFields_inv (@completeValue_inv _ ext fuel)) in H as (_ & _ & G);
      by apply (G Hall e).
Qed.


End Runs.

(* ================================================================== *)
(** ** Where failures go *)
(* ================================================================== *)

Section Failures.

Context {W : Type} (ext : Externals W).

(** A failure before any field runs. In the executor of src/graphql.js a
    context that cannot be built is answered with a response that has the
    error and no data, whereas a root type the schema lacks, or a directive
    of the root selection set whose arguments cannot be coerced, makes
    [executeImpl] throw; these are the only ways it throws, and no resolver
    has run then. The executor of src/execution/execute.js does the
    opposite: it throws when the context cannot be built, and only then,
    and answers a missing root type with null data and the error. *)
Theorem failures_before_field_execution fuel schema document rootValue contextValue
    variableValues operationName fieldResolver (w : W) :
  let run :=
    Execute.executeImpl ext fuel schema document rootValue contextValue variableValues
      operationName fieldResolver w in
  let built :=
    Execute.buildExecutionContext ext schema document rootValue contextValue
      variableValues operationName fieldResolver in
  let legacy :=
    Legacy.execute ext fuel schema document rootValue variableValues operationName w in
  let legacyBuilt :=
    Legacy.buildExecutionContext ext schema document rootValue variableValues
      operationName in
  (forall e, built = Raise e -> run = (Ret (mkResult None (Some [e])), mkState [] [] w))
  /\ (forall ctx e,
        built = Ok ctx ->
        Execute.getOperationRootType (ctx_schema ctx) (ctx_operation ctx) = Raise e ->
        run = (Throw e, mkState [] [] w))
  /\ (forall e s,
        run = (Throw e, s) ->
        s = mkState [] [] w
        /\ exists ctx,
             built = Ok ctx
             /\ (Execute.getOperationRootType (ctx_schema ctx) (ctx_operation ctx)
                 = Raise e
                 \/ exists type,
                      Execute.getOperationRootType (ctx_schema ctx) (ctx_operation ctx)
                      = Ok type
                      /\ Execute.collectFields ext fuel ctx type
                           (operation_selectionSet (ctx_operation ctx)) [] ∅ = Throw e))
  /\ (forall e, legacyBuilt = Raise e -> legacy = (Throw e, mkState [] [] w))
  /\ (forall ctx e,
        legacyBuilt = Ok ctx ->
        Legacy.getOperationRootType (ctx_schema ctx) (ctx_operation ctx) = Raise e ->
        legacy = (Ret (mkResult (Some VNull) (Some [e])), mkState [e] [] w))
  /\ (forall e s,
        legacy = (Throw e, s) -> legacyBuilt = Raise e /\ s = mkState [] [] w).
Proof.
  intros run built legacy legacyBuilt. subst run built legacy legacyBuilt.
  unfold Execute.executeImpl, Legacy.execute. repeat apply conj.
  - intros e ->. reflexivity.
  - intros ctx e -> Ht. unfold Execute.executeOperation, bind, liftResult.
    rewrite Ht. reflexivity.
  - intros e s.
    destruct (Execute.buildExecutionContext ext schema document rootValue contextValue
                variableValues operationName fieldResolver) as [ctx|e0]; [|discriminate].
    destruct (Execute.executeOperation ext fuel ctx (ctx_operation ctx) rootValue
                (mkState [] [] w)) as [r0 s0] eqn:E.
    apply executeOperation_inv in E as (_ & G & _).
    destruct r0 as [data|e1|]; intros [= <- <-]; try discriminate.
    destruct (G e1 eq_refl) as [-> Hc]. split; [done|]. exists ctx. by split.
  - intros e ->. reflexivity.
  - intros ctx e -> Ht.
    unfold tryCatch, Legacy.executeOperation, bind, liftResult. rewrite Ht. reflexivity.
  - intros e s.
    destruct (Legacy.buildExecutionContext ext schema document rootValue variableValues
                operationName) as [ctx|e0]; [|by intros [= <- <-]].
    unfold tryCatch.
    destruct (Legacy.executeOperation ext fuel ctx (ctx_operation ctx) rootValue
                (mkState [] [] w)) as [[data|e1|] s0]; discriminate.
Qed.

(** The response of [executeImpl]: the [errors] key is never an empty
    list; there is no [data] key exactly when the context could not be
    built, and the response is then that one error; otherwise [errors] is
    the error list of the run, left out when it is empty, and [data] is an
    object, or null, which it is only together with an error. *)
Theorem response_shape fuel schema document rootValue contextValue variableValues
    operationName fieldResolver (w : W) result s :
  Execute.executeImpl ext fuel schema document rootValue contextValue variableValues
    operationName fieldResolver w = (Ret result, s) ->
  result_errors result <> Some []
  /\ (result_data result = None ->
      exists e,
        Execute.buildExecutionContext ext schema document rootValue contextValue
          variableValues operationName fieldResolver = Raise e
        /\ result = mkResult None (Some [e]) /\ s = mkState [] [] w)
  /\ (forall data,
        result_data result = Some data ->
        result_errors result = match errors s with [] => None | _ => Some (errors s) end
        /\ (data = VNull \/ exists inherits props, data = VObject inherits props)
        /\ (data = VNull -> result_errors result <> None)).
Proof.
  unfold Execute.executeImpl.
  destruct (Execute.buildExecutionContext ext schema document rootValue contextValue
              variableValues operationName fieldResolver) as [ctx|e0].
  - destruct (Execute.executeOperation ext fuel ctx (ctx_operation ctx) rootValue
                (mkState [] [] w)) as [r0 s0] eqn:E.
    apply executeOperation_inv in E as (_ & _ & G3 & G4).
    destruct r0 as [data|e1|]; intros [= <- <-].
    split; [by destruct (errors s0)|]. split; [by destruct (errors s0)|].
    intros data'. destruct (errors s0) eqn:Herr; cbn; intros [= <-].
    + split; [done|]. split; [by apply G4|]. intros ->. by destruct (G3 eq_refl).
    + split; [done|]. split; [by apply G4|]. done.
  - intros [= <- <-]. cbn. split; [discriminate|]. split; [eauto|discriminate].
Qed.

(** *** Arguments that cannot be coerced *)

(** When the arguments of a known field cannot be coerced, the executor of
    src/graphql.js treats the failure as it treats a throwing resolver: the
    resolver is not called, and the failure is captured: itself when it is
    an Error, as the coercion's failures are, else a new Error made of it.
    The captured failure is the result of the field, and a field whose
    type is not non-null is null with the located failure recorded, while
    a field of non-null type throws the located failure. When nothing can
    be captured, because the conversion of the failure to a string throws,
    what the conversion threw leaves [resolveField]. In the executor of
    src/execution/execute.js coercion happens outside the guarded call: the
    failure leaves [resolveField] as it was thrown, whatever the type of the
    field. *)
Theorem argument_failure_is_a_field_error fuel ctx parentType source node nodes path
    fieldDef thrown (s : State W) :
  Execute.getFieldDef ext (ctx_schema ctx) parentType (field_name node) = Some fieldDef ->
  getArgumentValues ext (fielddef_args fieldDef) (field_arguments node)
    (ctx_variableValues ctx) = Raise thrown ->
  (forall resolveFn info,
     Execute.resolveFieldValueOrError ext ctx fieldDef (node :: nodes) resolveFn source
       info s = (ofResult (capturedError ext thrown), s))
  /\ (instanceofError thrown = true -> capturedError ext thrown = Ok thrown)
  /\ (forall captured,
        capturedError ext thrown = Ok captured ->
        Execute.resolveField ext (S fuel) ctx parentType source (node :: nodes) path s
        = if isNonNull (fielddef_type fieldDef)
          then (Throw (locatedError ext captured (node :: nodes)
                         (Some (Execute.responsePathAsArray path))), s)
          else (Ret VNull,
                pushError (locatedError ext captured (node :: nodes)
                             (Some (Execute.responsePathAsArray path))) s))
  /\ (forall failure,
        capturedError ext thrown = Raise failure ->
        Execute.resolveField ext fuel ctx parentType source (node :: nodes) path s
        = (Throw failure, s))
  /\ Legacy.resolveField ext fuel ctx parentType source (node :: nodes) s
     = (Throw thrown, s).
Proof.
  intros Hd Ha.
  assert (Hr : forall resolveFn info,
            Execute.resolveFieldValueOrError ext ctx fieldDef (node :: nodes) resolveFn
              source info s = (ofResult (capturedError ext thrown), s)).
  { intros resolveFn info.
    unfold Execute.resolveFieldValueOrError, tryCatch, bind, liftResult.
    rewrite Ha. cbn [ofResult]. apply captured_result. }
  split; [exact Hr|]. split; [|split; [|split]].
  - intros H. unfold capturedError. by rewrite H.
  - intros captured Hc. unfold Execute.resolveField, Execute.resolveField_step.
    rewrite Hd. unfold bind. rewrite Hr, Hc. cbn [ofResult].
    unfold Execute.completeValueCatchingError_step,
      Execute.completeValueWithLocatedError_step, tryCatch.
    cbn [Execute.completeValue]. unfold Execute.completeValue_step.
    rewrite (capturedError_isError Hc).
    destruct (isNonNull (fielddef_type fieldDef)); reflexivity.
  - intros failure Hc. unfold Execute.resolveField, Execute.resolveField_step.
    rewrite Hd. unfold bind. rewrite Hr, Hc. reflexivity.
  - unfold Legacy.resolveField, Legacy.resolveField_step.
    change (Legacy.getFieldDef ext (ctx_schema ctx) parentType (field_name node))
      with (Execute.getFieldDef ext (ctx_schema ctx) parentType (field_name node)).
    rewrite Hd. unfold bind, liftResult. rewrite Ha. reflexivity.
Qed.


(** *** Fields that resolve *)

(** The resolution of a known field whose arguments coerce and whose
    resolver returns: the resolver is called once, with the source, the
    coerced arguments of the first node, the context value and the info of
    the field, whatever the number of nodes that share the response key. A
    null-like value makes a field whose type is not non-null null, with
    nothing recorded; any other value of a leaf type is serialized, and the
    serialized value, when it is not null-like, is the value of the field. *)
Theorem field_resolves_to_completed_value fuel ctx parentType source node nodes path
    fieldDef args resolved w' (s : State W) :
  let info := Execute.buildResolveInfo ctx fieldDef (node :: nodes) parentType path in
  let resolveFn :=
    match fielddef_resolve fieldDef with
    | Some resolve => resolve
    | None => ctx_fieldResolver ctx
    end in
  Execute.getFieldDef ext (ctx_schema ctx) parentType (field_name node) = Some fieldDef ->
  getArgumentValues ext (fielddef_args fieldDef) (field_arguments node)
    (ctx_variableValues ctx) = Ok args ->
  resolveFn source args (ctx_contextValue ctx) info (world s) = (Ok resolved, w') ->
  (isNullish resolved = true ->
   isNonNull (fielddef_type fieldDef) = false ->
   Execute.resolveField ext (S fuel) ctx parentType source (node :: nodes) path s
   = (Ret VNull, logCall s info source w'))
  /\ (forall serialize serialized,
        isNullish resolved = false ->
        instanceofError resolved = false ->
        isLeafType (ctx_schema ctx) (fielddef_type fieldDef) = true ->
        serializeOf (ctx_schema ctx) (fielddef_type fieldDef) = Some serialize ->
        serialize resolved = Ok serialized ->
        isNullish serialized = false ->
        Execute.resolveField ext (S fuel) ctx parentType source (node :: nodes) path s
        = (Ret serialized, logCall s info source w')).
Proof.
  intros info resolveFn Hd Ha Hr.
  assert (Hres : Execute.resolveFieldValueOrError ext ctx fieldDef (node :: nodes)
                   resolveFn source info s = (Ret resolved, logCall s info source w')).
  { unfold Execute.resolveFieldValueOrError, tryCatch, bind, liftResult.
    rewrite Ha. cbn [ofResult]. unfold Execute.callResolver. rewrite Hr. reflexivity. }
  split.
  - intros Hn Hnn. unfold Execute.resolveField, Execute.resolveField_step.
    rewrite Hd. unfold bind. fold info resolveFn. rewrite Hres.
    unfold Execute.completeValueCatchingError_step,
      Execute.completeValueWithLocatedError_step, tryCatch.
    rewrite Hnn. cbn [Execute.completeValue]. unfold Execute.completeValue_step.
    assert (He : instanceofError resolved = false) by (by destruct resolved).
    rewrite He, Hn. destruct (fielddef_type fieldDef); [discriminate|reflexivity..].
  - intros serialize serialized Hn He Hl Hs Hv Hsn.
    unfold Execute.resolveField, Execute.resolveField_step.
    rewrite Hd. unfold bind. fold info resolveFn. rewrite Hres.
    destruct (isLeafType_named Hl) as [name Hname].
    unfold Execute.completeValueCatchingError_step,
      Execute.completeValueWithLocatedError_step, tryCatch.
    rewrite Hname in *. cbn [isNonNull Execute.completeValue].
    unfold Execute.completeValue_step. rewrite He, Hn, Hl.
    unfold Execute.completeLeafValue. rewrite Hs. unfold bind, liftResult.
    rewrite Hv. cbn [ofResult]. rewrite Hsn. reflexivity.
Qed.

(** A field without a resolver of its own, under the default field
    resolver: on a source that is not an object (undefined, a boolean, a
    number, a string) the default resolver returns undefined, so a field
    whose type is not non-null is null and nothing is recorded; on the
    source null, reading the property fails, and the field is null with
    the located TypeError recorded. *)
Theorem default_resolver_on_missing_source fuel ctx parentType source node nodes path
    fieldDef args (s : State W) :
  let info := Execute.buildResolveInfo ctx fieldDef (node :: nodes) parentType path in
  Execute.getFieldDef ext (ctx_schema ctx) parentType (field_name node) = Some fieldDef ->
  fielddef_resolve fieldDef = None ->
  ctx_fieldResolver ctx = Execute.defaultFieldResolver ext ->
  isNonNull (fielddef_type fieldDef) = false ->
  getArgumentValues ext (fielddef_args fieldDef) (field_arguments node)
    (ctx_variableValues ctx) = Ok args ->
  (match source with
   | VUndefined | VNaN | VBoolean _ | VNumber _ | VString _ => True
   | _ => False
   end ->
   Execute.resolveField ext (S fuel) ctx parentType source (node :: nodes) path s
   = (Ret VNull, logCall s info source (world s)))
  /\ (source = VNull ->
      exists message,
        Execute.resolveField ext (S fuel) ctx parentType source (node :: nodes) path s
        = (Ret VNull,
           pushError (locatedError ext (TypeError_ message) (node :: nodes)
                        (Some (Execute.responsePathAsArray path)))
             (logCall s info source (world s)))).
Proof.
  intros info Hd Hres Hdef Hnn Ha.
  assert (Hrun : forall r,
            Execute.defaultFieldResolver ext source args (ctx_contextValue ctx) info
              (world s) = (r, world s) ->
            Execute.resolveFieldValueOrError ext ctx fieldDef (node :: nodes)
              (Execute.defaultFieldResolver ext) source info s
            = (ofResult (match r with Ok v => Ok v | Raise e => capturedError ext e end),
               logCall s info source (world s))).
  { intros r Hr. unfold Execute.resolveFieldValueOrError, tryCatch, bind, liftResult.
    rewrite Ha. cbn [ofResult]. unfold Execute.callResolver. rewrite Hr.
    destruct r; cbn [ofResult]; [reflexivity|apply captured_result]. }
  split.
  - intros Hp. unfold Execute.resolveField, Execute.resolveField_step.
    rewrite Hd, Hres, Hdef. unfold bind. fold info.
    rewrite (Hrun (Ok VUndefined)) by (by destruct source).
    unfold Execute.completeValueCatchingError_step,
      Execute.completeValueWithLocatedError_step, tryCatch.
    rewrite Hnn. cbn [Execute.completeValue]. unfold Execute.completeValue_step.
    cbn [instanceofError isNullish].
    destruct (fielddef_type fieldDef); [discriminate|reflexivity..].
  - intros ->. eexists. unfold Execute.resolveField, Execute.resolveField_step.
    rewrite Hd, Hres, Hdef. unfold bind. fold info.
    rewrite (Hrun (Raise (TypeError_ _))) by reflexivity.
    unfold Execute.completeValueCatchingError_step,
      Execute.completeValueWithLocatedError_step, tryCatch.
    rewrite Hnn. cbn [Execute.completeValue]. unfold Execute.completeValue_step.
    reflexivity.
Qed.

(** *** Values an object type rejects *)

(** When the type predicate of an object type answers no for a value, the
    completion of the value fails before any sub-field is resolved: the
    state is as it was. The failure is the error that names the type and
    the value converted to a string, with the field nodes, or what that
    conversion throws. A position whose type is not non-null is then null
    with the located failure recorded. *)
Theorem rejected_object_value fuel ctx returnType nodes info path result isTypeOf answer
    (s : State W) :
  isObjectType (ctx_schema ctx) returnType = true ->
  instanceofError result = false ->
  isNullish result = false ->
  isTypeOfOf (ctx_schema ctx) returnType = Some isTypeOf ->
  isTypeOf result (ctx_contextValue ctx) info = Ok answer ->
  truthy answer = false ->
  let failure :=
    match String_ ext result with
    | Ok got => rejectedValue returnType got nodes
    | Raise thrown => thrown
    end in
  Execute.completeValue ext (S fuel) ctx returnType nodes info path result s
  = (Throw failure, s)
  /\ Execute.completeValueCatchingError ext (S fuel) ctx returnType nodes info path
       result s
     = (Ret VNull,
        pushError (locatedError ext failure nodes
                     (Some (Execute.responsePathAsArray path))) s)
  /\ (forall got,
        String_ ext result = Ok got ->
        failure
        = GraphQLError_
            ("Expected value of type " ++ dquote ++ typeName returnType ++ dquote
             ++ " but got: " ++ got ++ ".")
            (Some (map NodeOfField nodes))).
Proof.
  intros Ho He Hn Hp Ha Ht failure.
  assert (H : Execute.completeValue ext (S fuel) ctx returnType nodes info path result s
              = (Throw failure, s)).
  { rewrite completeValue_object by done.
    unfold Execute.completeObjectValue, Execute.completeObjectValue_step.
    rewrite Hp. unfold bind at 1, liftResult at 1. rewrite Ha. cbn [ofResult].
    rewrite Ht. unfold bind, liftResult, Execute.invalidReturnTypeError. subst failure.
    destruct (String_ ext result); reflexivity. }
  split; [exact H|]. split.
  - destruct (isObjectType_dispatch Ho) as ((name & ->) & _).
    unfold Execute.completeValueCatchingError, Execute.completeValueCatchingError_step,
      Execute.completeValueWithLocatedError_step, tryCatch.
    cbn [isNonNull]. rewrite H. reflexivity.
  - intros got Hg. subst failure. rewrite Hg. reflexivity.
Qed.

End Failures.

(* ================================================================== *)
(** ** The operation and the fragments of the context *)
(* ================================================================== *)

Section Selection.

Context {W : Type} (ext : Externals W).

Lemma lastSuch_cons {A} (test : A -> bool) x l :
  lastSuch test (x :: l)
  = match lastSuch test l with
    | Some y => Some y
    | None => if test x then Some x else None
    end.
Proof.
  unfold lastSuch, find_. cbn [rev].
  induction (rev l) as [|y ys IH]; cbn; [reflexivity|].
  destruct (test y); [reflexivity|exact IH].
Qed.

Lemma forEachDefinition_selects operationName definitions operation fragments :
  forallb isExecutableDefinition definitions = true ->
  provided operationName = true
  \/ countOperations definitions + (if isSome operation then 1 else 0) <= 1 ->
  exists fragments',
    Execute.forEachDefinition operationName definitions operation fragments
    = Ok (match lastSuch (answersTo operationName) (operationsOf definitions) with
          | Some selected => Some selected
          | None => operation
          end, fragments')
    /\ forall name,
         fragments' !! name
         = match lastSuch (fun fragment => String.eqb (fragment_name fragment) name)
                   (fragmentsOf definitions) with
           | Some fragment => Some fragment
           | None => fragments !! name
           end.
Proof.
  revert operation fragments.
  induction definitions as [|definition rest IH]; intros operation fragments Hall Hn.
  - exists fragments. by split.
  - cbn [forallb] in Hall. apply andb_prop in Hall as [Hd Hall].
    destruct definition as [op|fragment|kind]; [| |discriminate];
      cbn [Execute.forEachDefinition operationsOf fragmentsOf flat_map app].
    + fold (operationsOf rest). fold (fragmentsOf rest). rewrite lastSuch_cons.
      assert (Hfirst : negb (provided operationName) && isSome operation = false).
      { destruct Hn as [-> |Hn]; [reflexivity|].
        destruct operation; cbn [isSome countOperations] in *; [lia|].
        by rewrite andb_false_r. }
      rewrite Hfirst.
      change (negb (provided operationName)
              || match operation_name op, operationName with
                 | Some name, Some wanted => String.eqb name wanted
                 | _, _ => false
                 end) with (answersTo operationName op).
      destruct (answersTo operationName op) eqn:Ha.
      * destruct (IH (Some op) fragments Hall) as (f' & Hrun & Hf).
        { destruct Hn as [Hn|Hn]; [by left|right].
          destruct operation; cbn [isSome countOperations] in *; lia. }
        exists f'. split; [|exact Hf]. rewrite Hrun.
        by destruct (lastSuch (answersTo operationName) (operationsOf rest)).
      * destruct (IH operation fragments Hall) as (f' & Hrun & Hf).
        { left. unfold answersTo in Ha. by destruct (provided operationName). }
        exists f'. split; [|exact Hf]. rewrite Hrun.
        by destruct (lastSuch (answersTo operationName) (operationsOf rest)).
    + fold (operationsOf rest). fold (fragmentsOf rest).
      destruct (IH operation (<[fragment_name fragment:=fragment]> fragments) Hall Hn)
        as (f' & Hrun & Hf).
      exists f'. split; [exact Hrun|]. intros name. rewrite Hf, lastSuch_cons.
      destruct (lastSuch (fun fragment0 => String.eqb (fragment_name fragment0) name)
                  (fragmentsOf rest)); [reflexivity|].
      destruct (String.eqb_spec (fragment_name fragment) name) as [<- |Hne].
      * by rewrite lookup_insert_eq.
      * by rewrite lookup_insert_ne.
Qed.

(** The operation and the fragments [buildExecutionContext] settles on, for
    a document of operation and fragment definitions with either an
    operation name or at most one operation. The operation is the last one
    the request asks for: the last of the given name, or the only one when
    no name is given; when there is none the construction fails, with the
    unknown-operation error for a name and with [Must provide an operation.]
    without one. A failure of [getVariableValues] is the failure of the
    construction. Otherwise the context holds the arguments as given, the
    coerced variables, the default field resolver when none is given, and,
    under each fragment name, the last definition of that name. *)
Theorem operation_selection schema document rootValue contextValue rawVariableValues
    operationName fieldResolver :
  let built :=
    Execute.buildExecutionContext ext schema document rootValue contextValue
      rawVariableValues operationName fieldResolver in
  forallb isExecutableDefinition document = true ->
  provided operationName = true \/ countOperations document <= 1 ->
  match lastSuch (answersTo operationName) (operationsOf document) with
  | None => built = Raise (unknownOperation operationName)
  | Some operation =>
      match getVariableValues ext schema
              (match operation_variableDefinitions operation with
               | Some defs => defs
               | None => []
               end)
              (match rawVariableValues with Some raw => raw | None => ∅ end) with
      | Raise e => built = Raise e
      | Ok variableValues =>
          exists fragments,
            built
            = Ok (mkContext schema fragments rootValue contextValue operation
                    variableValues
                    (match fieldResolver with
                     | Some resolver => resolver
                     | None => Execute.defaultFieldResolver ext
                     end))
            /\ forall name,
                 fragments !! name
                 = lastSuch (fun fragment => String.eqb (fragment_name fragment) name)
                     (fragmentsOf document)
      end
  end.
Proof.
  intros built Hall Hn. subst built.
  destruct (@forEachDefinition_selects operationName document None ∅ Hall)
    as (fragments & Hrun & Hf).
  { destruct Hn as [Hn|Hn]; [by left|right]. cbn [isSome]. lia. }
  unfold Execute.buildExecutionContext. rewrite Hrun. cbn [bindResult fst snd].
  destruct (lastSuch (answersTo operationName) (operationsOf document)) as [operation|].
  - destruct (getVariableValues ext schema
                (match operation_variableDefinitions operation with
                 | Some defs => defs
                 | None => []
                 end)
                (match rawVariableValues with Some raw => raw | None => ∅ end))
      as [variableValues|e]; [|reflexivity].
    exists fragments. split; [reflexivity|]. intros name. rewrite Hf.
    rewrite lookup_empty.
    by destruct (lastSuch (fun fragment => String.eqb (fragment_name fragment) name)
                   (fragmentsOf document)).
  - unfold unknownOperation. destruct operationName as [name|]; [|reflexivity].
    destruct (provided (Some name)); reflexivity.
Qed.

(** *** Directives *)

(** A node is excluded for a cause: [shouldIncludeNode] answers false only
    when the node has a [@skip] whose [if] coerces to true or an [@include]
    whose [if] coerces to false, and it fails only when the coercion of one
    of the two fails. A node with neither directive is included, in both
    executors, whatever other directives it has. *)
Theorem exclusion_has_a_cause ctx directives :
  (findDirective directives GraphQLSkipDirective = None ->
   findDirective directives GraphQLIncludeDirective = None ->
   Execute.shouldIncludeNode ext ctx directives = Ok true
   /\ Legacy.shouldIncludeNode ext ctx directives = Ok true)
  /\ (Execute.shouldIncludeNode ext ctx directives = Ok false ->
      coercedIf ext ctx directives GraphQLSkipDirective = Ok (Some (VBoolean true))
      \/ coercedIf ext ctx directives GraphQLIncludeDirective
         = Ok (Some (VBoolean false)))
  /\ (forall e,
        Execute.shouldIncludeNode ext ctx directives = Raise e ->
        coercedIf ext ctx directives GraphQLSkipDirective = Raise e
        \/ coercedIf ext ctx directives GraphQLIncludeDirective = Raise e).
Proof.
  unfold Execute.shouldIncludeNode, Legacy.shouldIncludeNode, coercedIf.
  split; [|split].
  - intros -> ->. by split.
  - destruct (findDirective directives GraphQLSkipDirective) as [skipNode|].
    + destruct (ifArgument ext ctx GraphQLSkipDirective skipNode) as [skipIf|e];
        cbn [bindResult]; [|discriminate].
      destruct skipIf as [| | |[|]|z|str|items|inh props|id|err]; cbn; try (intros _; by left);
        destruct (findDirective directives GraphQLIncludeDirective) as [includeNode|];
        cbn; try discriminate;
        destruct (ifArgument ext ctx GraphQLIncludeDirective includeNode)
          as [includeIf|e]; cbn; try discriminate;
        destruct includeIf as [| | |[|]|z'|str'|items'|inh' props'|id'|err']; cbn; try discriminate;
        intros _; by right.
    + cbn.
      destruct (findDirective directives GraphQLIncludeDirective) as [includeNode|];
        cbn; try discriminate.
      destruct (ifArgument ext ctx GraphQLIncludeDirective includeNode)
        as [includeIf|e]; cbn; try discriminate.
      destruct includeIf as [| | |[|]|z'|str'|items'|inh' props'|id'|err']; cbn; try discriminate.
      intros _. by right.
  - intros e.
    destruct (findDirective directives GraphQLSkipDirective) as [skipNode|].
    + destruct (ifArgument ext ctx GraphQLSkipDirective skipNode) as [skipIf|e0];
        cbn [bindResult]; [|intros [= ->]; by left].
      destruct skipIf as [| | |[|]|z|str|items|inh props|id|err]; cbn; try discriminate;
        destruct (findDirective directives GraphQLIncludeDirective) as [includeNode|];
        cbn; try discriminate;
        (destruct (ifArgument ext ctx GraphQLIncludeDirective includeNode)
           as [includeIf|e0]; cbn; [|intros [= ->]; by right]);
        destruct includeIf as [| | |[|]|z'|str'|items'|inh' props'|id'|err']; cbn; discriminate.
    + cbn.
      destruct (findDirective directives GraphQLIncludeDirective) as [includeNode|];
        cbn; try discriminate.
      destruct (ifArgument ext ctx GraphQLIncludeDirective includeNode)
        as [includeIf|e0]; cbn; [|intros [= ->]; by right].
      destruct includeIf as [| | |[|]|z'|str'|items'|inh' props'|id'|err']; cbn; discriminate.
Qed.

(** *** The entry point *)

(** [graphql] does not throw: a request that does not parse, a failure of
    validation and a failure thrown by [execute] each become a response with
    that one error and no data. Validation errors are the response as they
    are, and execution is not started then: no resolver is called and the
    world is as it was. *)
Theorem graphql_answers_with_errors parse validate execute
    (schema : GraphQLSchema W) requestString rootValue contextValue variableValues
    operationName (w : W) :
  let answer :=
    graphql parse validate execute schema requestString rootValue contextValue
      variableValues operationName w in
  let request := match requestString with Some r => r | None => EmptyString end in
  (forall e, fst answer <> Throw e)
  /\ (forall e,
        parse request = Raise e ->
        answer = (Ret (mkResult None (Some [e])), mkState [] [] w))
  /\ (forall documentAST first others,
        parse request = Ok documentAST ->
        validate schema documentAST = Ok (first :: others) ->
        answer = (Ret (mkResult None (Some (first :: others))), mkState [] [] w))
  /\ (forall documentAST e s,
        parse request = Ok documentAST ->
        validate schema documentAST = Ok [] ->
        execute schema documentAST rootValue contextValue variableValues operationName w
          = (Throw e, s) ->
        answer = (Ret (mkResult None (Some [e])), s))
  /\ (forall documentAST result s,
        parse request = Ok documentAST ->
        validate schema documentAST = Ok [] ->
        execute schema documentAST rootValue contextValue variableValues operationName w
          = (Ret result, s) ->
        answer = (Ret result, s)).
Proof.
  intros answer request. subst answer request. unfold graphql. repeat apply conj.
  - intros e.
    destruct (parse (match requestString with Some r => r | None => EmptyString end))
      as [documentAST|e0]; [|discriminate].
    destruct (validate schema documentAST) as [[|first others]|e0]; [|discriminate..].
    cbn.
    destruct (execute schema documentAST rootValue contextValue variableValues
                operationName w) as [[result|e0|] s]; discriminate.
  - intros e ->. reflexivity.
  - intros documentAST first others -> ->. reflexivity.
  - intros documentAST e s -> -> ->. reflexivity.
  - intros documentAST result s -> -> ->. reflexivity.
Qed.

End Selection.

(* ================================================================== *)
(** ** Termination of execution without fragments *)
(* ================================================================== *)

Section Ending.

Context {W : Type} (ext : Externals W).

Lemma nestingOf_cons selection rest :
  nestingOf (selection :: rest) = Nat.max (nesting selection) (nestingOf rest).
Proof. reflexivity. Qed.

Lemma nesting_field node : nesting (FIELD node) = S (nestingOf (subSelections node)).
Proof. destruct node as [alias name arguments directives [selections|]]; reflexivity. Qed.

Lemma nesting_inline typeCondition directives selections :
  nesting (INLINE_FRAGMENT typeCondition directives selections)
  = S (nestingOf selections).
Proof. reflexivity. Qed.

Lemma pushField_shallower depth fields name node :
  shallowerThan depth fields ->
  nestingOf (subSelections node) < depth ->
  shallowerThan depth (pushField fields name node).
Proof.
  unfold shallowerThan. intros Hf Hn.
  induction fields as [|[k ns] fields IH]; cbn [pushField].
  - repeat constructor. exact Hn.
  - apply Forall_cons in Hf as [Hk Hf]. destruct (String.eqb k name).
    + constructor; [|exact Hf]. cbn [snd] in *. apply Forall_app. split; [exact Hk|].
      by repeat constructor.
    + constructor; [exact Hk|]. by apply IH.
Qed.

(** What the fuel of a collection is enough for. *)
Lemma collectFields_flat ctx :
  ctx_fragments ctx = ∅ ->
  forall fuel runtimeType selections fields visited depth,
    nestingOf selections <= depth ->
    nestingOf selections < fuel ->
    shallowerThan depth fields ->
    match Execute.collectFields ext fuel ctx runtimeType selections fields visited with
    | Ret (fields', _) => shallowerThan depth fields'
    | Throw _ => True
    | OutOfFuel => False
    end.
Proof.
  intros Hfrag. induction fuel as [|fuel IHfuel]; intros runtimeType; [lia|].
  cbn [Execute.collectFields].
  induction selections as [|selection rest IH]; intros fields visited depth Hd Hf Hs;
    [exact Hs|].
  rewrite nestingOf_cons in Hd, Hf.
  assert (Hrest : forall fields' visited',
            shallowerThan depth fields' ->
            match Execute.collectFieldsLoop ext (Execute.collectFields ext fuel) ctx
                    runtimeType rest fields' visited' with
            | Ret (fields'', _) => shallowerThan depth fields''
            | Throw _ => True
            | OutOfFuel => False
            end).
  { intros fields' visited' Hs'. apply IH; [lia|lia|exact Hs']. }
  cbn [Execute.collectFieldsLoop].
  destruct selection as [node|typeCondition directives selectionSet|fragName directives].
  - destruct (Execute.shouldIncludeNode ext ctx (field_directives node)) as [[|]|e];
      [|by apply Hrest|exact I].
    apply Hrest. apply pushField_shallower; [exact Hs|].
    rewrite nesting_field in Hd. lia.
  - destruct (Execute.shouldIncludeNode ext ctx directives) as [included|e]; [|exact I].
    destruct (negb included
              || negb (Execute.doesFragmentConditionMatch ext ctx typeCondition
                         runtimeType)); [by apply Hrest|].
    rewrite nesting_inline in Hd, Hf.
    pose proof (IHfuel runtimeType selectionSet fields visited depth) as Hsub.
    destruct (Execute.collectFields ext fuel ctx runtimeType selectionSet fields visited)
      as [[f v]|e|].
    + apply Hrest. apply Hsub; [lia|lia|exact Hs].
    + exact I.
    + apply Hsub; [lia|lia|exact Hs].
  - destruct (bool_decide (fragName ∈ visited)); [by apply Hrest|].
    destruct (Execute.shouldIncludeNode ext ctx directives) as [[|]|e];
      [|by apply Hrest|exact I].
    rewrite Hfrag, lookup_empty. by apply Hrest.
Qed.

Lemma collectSubfields_flat ctx fuel returnType depth :
  ctx_fragments ctx = ∅ ->
  depth < fuel ->
  forall fieldNodes fields visited,
    Forall (fun node => nestingOf (subSelections node) <= depth) fieldNodes ->
    shallowerThan depth fields ->
    match Execute.collectSubfields ext fuel ctx returnType fieldNodes fields visited with
    | Ret (fields', _) => shallowerThan depth fields'
    | Throw _ => True
    | OutOfFuel => False
    end.
Proof.
  intros Hfrag Hfuel.
  induction fieldNodes as [|node rest IH]; intros fields visited Hn Hs; [exact Hs|].
  apply Forall_cons in Hn as [Hnode Hn]. cbn [Execute.collectSubfields].
  unfold subSelections in Hnode.
  destruct (field_selectionSet node) as [selectionSet|]; [|by apply IH].
  pose proof (@collectFields_flat ctx Hfrag fuel returnType selectionSet fields visited
                depth Hnode ltac:(lia) Hs) as Hsub.
  destruct (Execute.collectFields ext fuel ctx returnType selectionSet fields visited)
    as [[f v]|e|]; [by apply IH|exact I|exact Hsub].
Qed.

Lemma bind_fuel {A B} (m : M W A) (k : A -> M W B) (s : State W) :
  fst (m s) <> OutOfFuel ->
  (forall a s1, m s = (Ret a, s1) -> fst (k a s1) <> OutOfFuel) ->
  fst (bind m k s) <> OutOfFuel.
Proof.
  unfold bind. destruct (m s) as [[a|e|] s1]; cbn; intros H1 H2.
  - by apply H2.
  - discriminate.
  - done.
Qed.

Section Step.

Variable bound : nat.
Variable ctx : ExecutionContext W.

Hypothesis no_fragments : ctx_fragments ctx = ∅.

Hypothesis types_bounded :
  forall parentType fieldName fieldDef,
    Execute.getFieldDef ext (ctx_schema ctx) parentType fieldName = Some fieldDef ->
    typeDepth (fielddef_type fieldDef) <= bound.

Variable fuel : nat.

Variable rec :
  ExecutionContext W -> GraphQLType -> list FieldNode -> GraphQLResolveInfo ->
  ResponsePath -> Value -> M W Value.

Hypothesis rec_fuel :
  forall t nodes info path result (s : State W) depth,
    Forall (fun node => nestingOf (subSelections node) <= depth) nodes ->
    typeDepth t + (bound + 2) * depth + 2 <= fuel ->
    fst (rec ctx t nodes info path result s) <> OutOfFuel.

Lemma catchingError_fuel t nodes info path result (s : State W) :
  fst (rec ctx t nodes info path result s) <> OutOfFuel ->
  fst (Execute.completeValueCatchingError_step ext rec ctx t nodes info path result s)
    <> OutOfFuel.
Proof.
  unfold Execute.completeValueCatchingError_step,
    Execute.completeValueWithLocatedError_step, tryCatch.
  intros H. destruct (isNonNull t);
    destruct (rec ctx t nodes info path result s) as [[v|e|] s1]; cbn in *;
    solve [done | discriminate].
Qed.

Lemma resolveField_fuel parentType source nodes path (s : State W) depth :
  Forall (fun node => nestingOf (subSelections node) < depth) nodes ->
  (bound + 2) * depth + 1 <= fuel ->
  fst (Execute.resolveField_step ext rec ctx parentType source nodes path s) <> OutOfFuel.
Proof.
  intros Hn Hf. unfold Execute.resolveField_step.
  destruct nodes as [|node rest]; [discriminate|].
  destruct (Execute.getFieldDef ext (ctx_schema ctx) parentType (field_name node))
    as [fieldDef|] eqn:Hd; [|discriminate].
  apply bind_fuel.
  - destruct (resolveFieldValueOrError_returns ext ctx fieldDef (node :: rest)
                (match fielddef_resolve fieldDef with
                 | Some resolve => resolve
                 | None => ctx_fieldResolver ctx
                 end) source
                (Execute.buildResolveInfo ctx fieldDef (node :: rest) parentType path) s)
      as (r & s1 & -> & _ & Hm). by destruct r.
  - intros v s1 _. apply catchingError_fuel.
    pose proof (Forall_inv Hn) as Hnode. cbn beta in Hnode.
    apply (rec_fuel (depth := depth - 1)).
    + eapply Forall_impl; [exact Hn|]. intros x Hx. cbn beta in Hx. lia.
    + pose proof (types_bounded Hd). nia.
Qed.

Lemma reduceFields_fuel parentType source path fields results (s : State W) depth :
  shallowerThan depth fields ->
  (bound + 2) * depth + 1 <= fuel ->
  fst (Execute.reduceFields ext rec ctx parentType source path fields results s)
    <> OutOfFuel.
Proof.
  intros Hs Hf. revert results s.
  induction fields as [|[key nodes] fields IH]; intros results s; [discriminate|].
  apply Forall_cons in Hs as [Hnodes Hs]. cbn [snd] in Hnodes.
  cbn [Execute.reduceFields]. apply bind_fuel.
  - by apply (resolveField_fuel (depth := depth)).
  - intros v s1 _. destruct v; by apply IH.
Qed.

Lemma completeItems_fuel itemType nodes info path visits (s : State W) depth :
  Forall (fun node => nestingOf (subSelections node) <= depth) nodes ->
  typeDepth itemType + (bound + 2) * depth + 2 <= fuel ->
  fst (Execute.completeItems ext rec ctx itemType nodes info path visits s)
    <> OutOfFuel.
Proof.
  intros Hn Hf. revert s.
  induction visits as [|[index item] visits IH]; intros s; [discriminate|].
  cbn [Execute.completeItems]. apply bind_fuel.
  - apply catchingError_fuel. by apply (rec_fuel (depth := depth)).
  - intros v s1 _. apply bind_fuel; [apply IH|]. intros vs s2 _. discriminate.
Qed.

Lemma collectAndExecuteSubfields_fuel returnType nodes info path result (s : State W)
    depth :
  Forall (fun node => nestingOf (subSelections node) <= depth) nodes ->
  (bound + 2) * depth + 1 <= fuel ->
  fst (Execute.collectAndExecuteSubfields_step ext fuel rec ctx returnType nodes info
         path result s) <> OutOfFuel.
Proof.
  intros Hn Hf. unfold Execute.collectAndExecuteSubfields_step.
  assert (Hd : depth < fuel) by nia.
  pose proof (@collectSubfields_flat ctx fuel returnType depth no_fragments Hd nodes
                [] ∅ Hn ltac:(constructor)) as Hc.
  apply bind_fuel.
  - unfold liftOutcome. cbn.
    destruct (Execute.collectSubfields ext fuel ctx returnType nodes [] ∅) as [[f v]|e|];
      [discriminate|discriminate|done].
  - intros [f v] s1. unfold liftOutcome. intros [= Hr <-]. rewrite Hr in Hc.
    cbn [fst]. by apply (reduceFields_fuel (depth := depth)).
Qed.

Lemma completeObjectValue_fuel returnType nodes info path result (s : State W) depth :
  Forall (fun node => nestingOf (subSelections node) <= depth) nodes ->
  (bound + 2) * depth + 1 <= fuel ->
  fst (Execute.completeObjectValue_step ext fuel rec ctx returnType nodes info path
         result s) <> OutOfFuel.
Proof.
  intros Hn Hf. unfold Execute.completeObjectValue_step.
  destruct (isTypeOfOf (ctx_schema ctx) returnType) as [isTypeOf|];
    [|by apply (collectAndExecuteSubfields_fuel (depth := depth))].
  apply bind_fuel.
  - unfold liftResult. cbn.
    by destruct (isTypeOf result (ctx_contextValue ctx) info).
  - intros v s1 _. destruct (truthy v);
      [by apply (collectAndExecuteSubfields_fuel (depth := depth))|].
    apply bind_fuel.
    + unfold liftResult. cbn.
      by destruct (Execute.invalidReturnTypeError ext returnType result nodes).
    + intros e s2 _. discriminate.
Qed.

Lemma completeAbstractValue_fuel returnType nodes info path result (s : State W) depth :
  Forall (fun node => nestingOf (subSelections node) <= depth) nodes ->
  (bound + 2) * depth + 1 <= fuel ->
  fst (Execute.completeAbstractValue_step ext fuel rec ctx returnType nodes info path
         result s) <> OutOfFuel.
Proof.
  intros Hn Hf. unfold Execute.completeAbstractValue_step.
  apply bind_fuel.
  - unfold liftResult. cbn.
    by destruct (match resolveTypeOf (ctx_schema ctx) returnType with
                 | Some resolveType => resolveType result (ctx_contextValue ctx) info
                 | None =>
                     Execute.defaultResolveTypeFn (ctx_schema ctx) result
                       (ctx_contextValue ctx) info returnType
                 end).
  - intros runtimeType s1 _. apply bind_fuel.
    + unfold liftResult. cbn.
      by destruct (Execute.ensureValidRuntimeType ext runtimeType ctx returnType nodes
                     info result).
    + intros objectType s2 _. by apply (completeObjectValue_fuel (depth := depth)).
Qed.

Lemma completeValue_step_fuel returnType nodes info path result (s : State W) depth :
  Forall (fun node => nestingOf (subSelections node) <= depth) nodes ->
  typeDepth returnType + (bound + 2) * depth + 2 <= S fuel ->
  fst (Execute.completeValue_step ext fuel rec ctx returnType nodes info path result s)
    <> OutOfFuel.
Proof.
  intros Hn Hf. unfold Execute.completeValue_step.
  destruct (instanceofError result); [discriminate|].
  destruct returnType as [ofType|ofType|name]; cbn [typeDepth] in Hf.
  - apply bind_fuel.
    + apply (rec_fuel (depth := depth)); [exact Hn|lia].
    + intros v s1 _. destruct v; discriminate.
  - destruct (isNullish result); [discriminate|].
    unfold Execute.completeListValue_step.
    destruct (isCollection ext result); [|discriminate].
    apply bind_fuel.
    + apply (completeItems_fuel (depth := depth)); [exact Hn|lia].
    + intros vs s1 _. destruct (snd (forEach ext result)); discriminate.
  - destruct (isNullish result); [discriminate|].
    destruct (isLeafType (ctx_schema ctx) (GraphQLNamedType name)).
    { unfold Execute.completeLeafValue.
      destruct (serializeOf (ctx_schema ctx) (GraphQLNamedType name)) as [serialize|];
        [|discriminate].
      apply bind_fuel.
      - unfold liftResult. cbn. by destruct (serialize result).
      - intros v s1 _. destruct (isNullish v); [|discriminate].
        apply bind_fuel.
        + unfold liftResult. cbn. by destruct (String_ ext result).
        + intros received s2 _. discriminate. }
    destruct (isAbstractType (ctx_schema ctx) (GraphQLNamedType name)).
    { apply (completeAbstractValue_fuel (depth := depth)); [exact Hn|lia]. }
    destruct (isObjectType (ctx_schema ctx) (GraphQLNamedType name)); [|discriminate].
    apply (completeObjectValue_fuel (depth := depth)); [exact Hn|lia].
Qed.

End Step.

Lemma completeValue_fuel bound ctx :
  ctx_fragments ctx = ∅ ->
  (forall parentType fieldName fieldDef,
     Execute.getFieldDef ext (ctx_schema ctx) parentType fieldName = Some fieldDef ->
     typeDepth (fielddef_type fieldDef) <= bound) ->
  forall fuel t nodes info path result (s : State W) depth,
    Forall (fun node => nestingOf (subSelections node) <= depth) nodes ->
    typeDepth t + (bound + 2) * depth + 2 <= fuel ->
    fst (Execute.completeValue ext fuel ctx t nodes info path result s) <> OutOfFuel.
Proof.
  intros Hfrag Hb. induction fuel as [|fuel IH];
    intros t nodes info path result s depth Hn Hf; [lia|].
  cbn [Execute.completeValue].
  by apply (completeValue_step_fuel Hfrag Hb IH (depth := depth)).
Qed.

(** Execution ends when the context has no fragments: with a bound on the
    list and non-null wrappers of the field types of the schema, fuel above
    the nesting of the selection set times the bound plus two is enough for
    [executeOperation] to return or throw, and for [executeImpl] to answer,
    whatever the resolvers return. *)
Theorem execution_terminates_without_fragments bound fuel ctx operation rootValue
    (s : State W) :
  ctx_fragments ctx = ∅ ->
  (forall parentType fieldName fieldDef,
     Execute.getFieldDef ext (ctx_schema ctx) parentType fieldName = Some fieldDef ->
     typeDepth (fielddef_type fieldDef) <= bound) ->
  (bound + 2) * nestingOf (operation_selectionSet operation) < fuel ->
  fst (Execute.executeOperation ext fuel ctx operation rootValue s) <> OutOfFuel
  /\ (forall schema document contextValue variableValues operationName fieldResolver w,
        Execute.buildExecutionContext ext schema document rootValue contextValue
          variableValues operationName fieldResolver = Ok ctx ->
        operation = ctx_operation ctx ->
        fst (Execute.executeImpl ext fuel schema document rootValue contextValue
               variableValues operationName fieldResolver w) <> OutOfFuel).
Proof.
  intros Hfrag Hb Hf.
  assert (Hop : forall s0 : State W,
            fst (Execute.executeOperation ext fuel ctx operation rootValue s0)
            <> OutOfFuel).
  { intros s0. unfold Execute.executeOperation. apply bind_fuel.
    - unfold liftResult. cbn.
      by destruct (Execute.getOperationRootType (ctx_schema ctx) operation).
    - intros type s1 _.
      pose proof (@collectFields_flat ctx Hfrag fuel type
                    (operation_selectionSet operation) [] ∅
                    (nestingOf (operation_selectionSet operation)) ltac:(lia)
                    ltac:(nia) ltac:(constructor)) as Hc.
      apply bind_fuel.
      + unfold liftOutcome. cbn.
        destruct (Execute.collectFields ext fuel ctx type
                    (operation_selectionSet operation) [] ∅) as [[f v]|e|];
          [discriminate|discriminate|done].
      + intros [f v] s2. unfold liftOutcome. intros [= Hr <-]. rewrite Hr in Hc.
        cbn [fst]. unfold tryCatch.
        assert (Hrun : forall results,
                  fst (Execute.reduceFields ext (Execute.completeValue ext fuel) ctx
                         type rootValue PathRoot f results s1) <> OutOfFuel).
        { intros results.
          assert (Hrec : forall t nodes info path result (s3 : State W) depth,
                    Forall (fun node => nestingOf (subSelections node) <= depth) nodes ->
                    typeDepth t + (bound + 2) * depth + 2 <= fuel ->
                    fst (Execute.completeValue ext fuel ctx t nodes info path result s3)
                    <> OutOfFuel).
          { intros t nodes info path result s3 depth Hn Hd.
            by apply (completeValue_fuel Hfrag Hb (depth := depth)). }
          apply (reduceFields_fuel Hb Hrec
                   (depth := nestingOf (operation_selectionSet operation)));
            [exact Hc|lia]. }
        unfold Execute.executeFields, Execute.executeFieldsSerially,
          Execute.executeFields_step, Execute.executeFieldsSerially_step.
        destruct (operation_operation operation).
        * specialize (Hrun (VObject false [])).
          destruct (Execute.reduceFields ext (Execute.completeValue ext fuel) ctx type
                      rootValue PathRoot f (VObject false []) s1) as [[x|e|] s3];
            cbn in *; done.
        * specialize (Hrun (VObject true [])).
          destruct (Execute.reduceFields ext (Execute.completeValue ext fuel) ctx type
                      rootValue PathRoot f (VObject true []) s1) as [[x|e|] s3];
            cbn in *; done.
        * specialize (Hrun (VObject false [])).
          destruct (Execute.reduceFields ext (Execute.completeValue ext fuel) ctx type
                      rootValue PathRoot f (VObject false []) s1) as [[x|e|] s3];
            cbn in *; done.
        * specialize (Hrun (VObject false [])).
          destruct (Execute.reduceFields ext (Execute.completeValue ext fuel) ctx type
                      rootValue PathRoot f (VObject false []) s1) as [[x|e|] s3];
            cbn in *; done. }
  split; [apply Hop|].
  intros schema document contextValue variableValues operationName fieldResolver w
    Hbuilt ->.
  unfold Execute.executeImpl. rewrite Hbuilt.
  specialize (Hop (mkState [] [] w)).
  destruct (Execute.executeOperation ext fuel ctx (ctx_operation ctx) rootValue
              (mkState [] [] w)) as [[data|e|] s0]; cbn in *; done.
Qed.

End Ending.

(* ================================================================== *)
(** ** A fragment that spreads itself below a field *)
(* ================================================================== *)

Section Cycle.

Context {W : Type} (ext : Externals W).

(** The visited fragment names are kept per selection set, not along the
    fields: when a fragment selects a field of an object type and spreads
    itself in the selection set of that field, and the field is of that
    type again with a resolver that always returns a value to complete, the
    completion of the field recurses without bound: no fuel is enough for it
    to end. *)
Theorem fragment_cycle_below_a_field_never_ends ctx t self fragName fragment fieldDef
    args :
  let resolveFn :=
    match fielddef_resolve fieldDef with
    | Some resolve => resolve
    | None => ctx_fieldResolver ctx
    end in
  isObjectType (ctx_schema ctx) t = true ->
  isTypeOfOf (ctx_schema ctx) t = None ->
  ctx_fragments ctx !! fragName = Some fragment ->
  fragment_selectionSet fragment = [FIELD self] ->
  Execute.doesFragmentConditionMatch ext ctx (fragment_typeCondition fragment) t = true ->
  field_directives self = None ->
  field_selectionSet self = Some [FRAGMENT_SPREAD fragName None] ->
  Execute.getFieldDef ext (ctx_schema ctx) t (field_name self) = Some fieldDef ->
  fielddef_type fieldDef = t ->
  getArgumentValues ext (fielddef_args fieldDef) (field_arguments self)
    (ctx_variableValues ctx) = Ok args ->
  (forall source info w,
     exists v w',
       resolveFn source args (ctx_contextValue ctx) info w = (Ok v, w')
       /\ isNullish v = false /\ instanceofError v = false) ->
  forall fuel info path result (s : State W),
    isNullish result = false ->
    instanceofError result = false ->
    fst (Execute.completeValue ext fuel ctx t [self] info path result s) = OutOfFuel.
Proof.
  intros resolveFn Ho Hp Hf Hsel Hm Hdir Hsub Hd Ht Ha Hres.
  destruct (isObjectType_dispatch Ho) as ((name & Hname) & Hl & Hab).
  induction fuel as [|fuel IH]; intros info path result s Hn He; [reflexivity|].
  cbn [Execute.completeValue]. unfold Execute.completeValue_step.
  rewrite He. rewrite Hname in *. rewrite Hn, Hl, Hab, Ho.
  unfold Execute.completeObjectValue_step. rewrite Hp.
  unfold Execute.collectAndExecuteSubfields_step, bind at 1. unfold liftOutcome.
  cbn [Execute.collectSubfields]. rewrite Hsub.
  destruct fuel as [|fuel]; [reflexivity|].
  cbn [Execute.collectFields Execute.collectFieldsLoop].
  rewrite bool_decide_eq_false_2 by apply not_elem_of_empty.
  change (Execute.shouldIncludeNode ext ctx None) with (@Ok bool true).
  cbn iota. rewrite Hf, Hm. cbn [negb]. rewrite Hsel.
  destruct fuel as [|fuel]; [reflexivity|].
  cbn [Execute.collectFields Execute.collectFieldsLoop]. rewrite Hdir.
  change (Execute.shouldIncludeNode ext ctx None) with (@Ok bool true).
  cbn iota. cbn [pushField fst].
  unfold Execute.executeFields_step. cbn [Execute.reduceFields].
  unfold bind at 1. unfold Execute.resolveField_step. rewrite Hd.
  unfold bind at 1.
  unfold Execute.resolveFieldValueOrError, tryCatch, bind at 1, liftResult.
  rewrite Ha. cbn [ofResult]. unfold Execute.callResolver.
  fold resolveFn.
  destruct (Hres result
              (Execute.buildResolveInfo ctx fieldDef [self] (GraphQLNamedType name)
                 (Execute.addPath path (KeyName (getFieldEntryKey self))))
              (world s)) as (v & w' & Hv & Hvn & Hve).
  rewrite Hv. cbn [ofResult].
  unfold Execute.completeValueCatchingError_step,
    Execute.completeValueWithLocatedError_step, tryCatch.
  rewrite Ht. cbn [isNonNull].
  specialize (IH (Execute.buildResolveInfo ctx fieldDef [self] (GraphQLNamedType name)
                    (Execute.addPath path (KeyName (getFieldEntryKey self))))
                (Execute.addPath path (KeyName (getFieldEntryKey self))) v
                (mkState (errors s)
                   (calls s ++ [mkCall (GraphQLNamedType name) (field_name self) result])
                   w') Hvn Hve).
  cbn [info_parentType info_fieldName Execute.buildResolveInfo].
  destruct (Execute.completeValue ext (S (S fuel)) ctx (GraphQLNamedType name) [self]
              (Execute.buildResolveInfo ctx fieldDef [self] (GraphQLNamedType name)
                 (Execute.addPath path (KeyName (getFieldEntryKey self))))
              (Execute.addPath path (KeyName (getFieldEntryKey self))) v
              (mkState (errors s)
                 (calls s ++ [mkCall (GraphQLNamedType name) (field_name self) result])
                 w')) as [[x|e|] s1]; cbn in IH; try discriminate.
  reflexivity.
Qed.

End Cycle.

(* ================================================================== *)
(** ** Null data *)
(* ================================================================== *)

Section NullData.

Context {W : Type} (ext : Externals W).

(** The data of an operation is an object, or null; it is null only
    through a field of the root selection set that the schema knows: one
    of non-null type that threw a located failure, or one for which
    [new Error(thrown)] threw. That failure is then the last error of the
    list, recorded as the field threw it after the located errors of the
    run. So when every field collected from the root selection set is
    unknown or of a type that is not non-null, null data can only come
    with what such a conversion threw; and data that is not null comes
    with located errors only. *)
Theorem data_is_null_only_by_a_root_field_failure fuel ctx operation rootValue type
    fields visited data (s s' : State W) :
  Execute.getOperationRootType (ctx_schema ctx) operation = Ok type ->
  Execute.collectFields ext fuel ctx type (operation_selectionSet operation) [] ∅
    = Ret (fields, visited) ->
  Execute.executeOperation ext fuel ctx operation rootValue s = (Ret data, s') ->
  (data = VNull \/ exists inherits props, data = VObject inherits props)
  /\ (data = VNull ->
      exists recorded e key nodes fieldDef,
        errors s' = errors s ++ recorded ++ [e]
        /\ Forall (located ext) recorded
        /\ In (key, nodes) fields
        /\ fieldDefOf ext (ctx_schema ctx) type nodes = Some fieldDef
        /\ ((located ext e /\ isNonNull (fielddef_type fieldDef) = true)
            \/ unconverted ext e)
        /\ (forallb (nullableOrUnknown ext (ctx_schema ctx) type) fields = true ->
            unconverted ext e))
  /\ (data <> VNull -> recordsLocated ext s s').
Proof.
  intros Ht Hc. unfold Execute.executeOperation, bind, liftResult, liftOutcome.
  rewrite Ht. cbn [ofResult]. rewrite Hc. cbn [fst]. unfold tryCatch.
  destruct (collectFields_from_empty Hc) as [_ Hw].
  assert (Hrun : forall results,
            (let (o, s0) :=
               Execute.reduceFields ext (Execute.completeValue ext fuel) ctx type
                 rootValue PathRoot fields (VObject results []) s in
             match o with
             | Ret a => (Ret a, s0)
             | Throw e => (Ret VNull, pushError e s0)
             | OutOfFuel => (OutOfFuel, s0)
             end) = (Ret data, s') ->
            (data = VNull \/ exists inherits props, data = VObject inherits props)
            /\ (data = VNull ->
                exists recorded e key nodes fieldDef,
                  errors s' = errors s ++ recorded ++ [e]
                  /\ Forall (located ext) recorded
                  /\ In (key, nodes) fields
                  /\ fieldDefOf ext (ctx_schema ctx) type nodes = Some fieldDef
                  /\ ((located ext e /\ isNonNull (fielddef_type fieldDef) = true)
                      \/ unconverted ext e)
                  /\ (forallb (nullableOrUnknown ext (ctx_schema ctx) type) fields = true ->
                      unconverted ext e))
            /\ (data <> VNull -> recordsLocated ext s s')).
  { intros results.
    destruct (Execute.reduceFields ext (Execute.completeValue ext fuel) ctx type
                rootValue PathRoot fields (VObject results []) s) as [r0 s0] eqn:Hr.
    intros Hm.
    pose proof (reduceFields_inv (@completeValue_inv _ ext fuel) Hr)
      as ((new & Hnew & Hall) & G2 & G3).
    destruct r0 as [obj|e|]; revert Hm; intros [= <- <-].
    - apply reduceFields_object in Hr as (i & p & ->).
      split; [right; eauto|]. split; [discriminate|]. intros _. by exists new.
    - split; [by left|]. split; [|done]. intros _.
      destruct (reduceFields_cause (@completeValue_inv _ ext fuel) Hw Hr)
        as (key & nodes & fieldDef & Hin & Hd & Hcause).
      exists new, e, key, nodes, fieldDef. cbn. rewrite Hnew, <- app_assoc.
      split; [reflexivity|]. split; [exact Hall|]. split; [exact Hin|].
      split; [exact Hd|]. split; [exact Hcause|]. intros Hn. by apply (G3 Hn e). }
  unfold Execute.executeFields, Execute.executeFieldsSerially,
    Execute.executeFields_step, Execute.executeFieldsSerially_step.
  destruct (operation_operation operation); apply Hrun.
Qed.

End NullData.

(* ================================================================== *)
(** ** The properties on concrete runs *)
(* ================================================================== *)


Lemma shouldIncludeNode_skip_over_include_witness :
  Execute.shouldIncludeNode Demo.ext demoContext (skipAndInclude true true) = Ok false
  /\ Legacy.shouldIncludeNode Demo.ext demoContext (skipAndInclude true true) = Ok false.
Proof.
  apply (@shouldIncludeNode_skip_over_include _ Demo.ext demoContext
           (skipAndInclude true true) (Some true) (Some true)).
  - vm_compute. reflexivity.
  - intros _. vm_compute. reflexivity.
Defined.

(** C3, against the claim: with [@skip(if: false) @include(if: false)] on a
    node, the executor of src/execution/execute.js includes the node. *)
Lemma legacy_skip_hides_include :
  coercedIf Demo.ext demoContext (skipAndInclude false false) GraphQLSkipDirective
  = Ok (Some (VBoolean false))
  /\ coercedIf Demo.ext demoContext (skipAndInclude false false) GraphQLIncludeDirective
     = Ok (Some (VBoolean false))
  /\ Legacy.shouldIncludeNode Demo.ext demoContext (skipAndInclude false false) = Ok true.
Proof. vm_compute. repeat split. Qed.



Lemma non_null_position_is_never_null_witness :
  Execute.completeValue Demo.ext 2 demoContext (GraphQLNonNull Demo.String_t)
    [Demo.fieldNode "id"] (Demo.info Demo.Node_t "id" (GraphQLNonNull Demo.String_t)
                             (rootPath "id"))
    (rootPath "id") VNull demoState
  = (Throw nonNullViolation, demoState).
Proof.
  refine (proj2 (@non_null_position_is_never_null _ Demo.ext 0 demoContext Demo.String_t
    [Demo.fieldNode "id"]
    (Demo.info Demo.Node_t "id" (GraphQLNonNull Demo.String_t) (rootPath "id"))
    (rootPath "id") VNull demoState) _ _ _); reflexivity.
Defined.

Lemma response_keys_follow_grouping_witness :
  sublist
    (ownKeys (VObject false [("hello", VString "world"); ("bump", VNumber 0)]))
    (map fst [("hello", [Demo.fieldNode "hello"]);
              ("boyhowdy", [Demo.fieldNode "boyhowdy"]);
              ("bump", [Demo.fieldNode "bump"])]).
Proof.
  refine (proj1 (@response_keys_follow_grouping _ Demo.ext 1 demoContext Demo.Query_t
    VNull PathRoot
    [("hello", [Demo.fieldNode "hello"]); ("boyhowdy", [Demo.fieldNode "boyhowdy"]);
     ("bump", [Demo.fieldNode "bump"])]
    (VObject false [("hello", VString "world"); ("bump", VNumber 0)])
    demoState (mkState [] [mkCall Demo.Query_t "hello" VNull;
                           mkCall Demo.Query_t "bump" VNull] 1) _ _)).
  - apply (bool_decide_unpack _). vm_compute. exact I.
  - vm_compute. reflexivity.
Defined.

Lemma ambiguous_operation_fails_witness :
  Execute.executeImpl Demo.ext 5 Demo.schema twoOperations VNull VNull None None None 0
  = (Ret (mkResult None (Some [ambiguousOperation])), mkState [] [] 0).
Proof.
  destruct (@ambiguous_operation_fails _ Demo.ext Demo.schema twoOperations VNull VNull
              None None None) as (error & _ & Hexec & _ & _ & Hrun).
  - reflexivity.
  - simpl. lia.
  - rewrite Hrun. rewrite (Hexec eq_refl). reflexivity.
Defined.

(** C6, against the claim: a definition of another kind before the second
    operation fails the construction with the unsupported-definition error;
    and the executor of src/execution/execute.js, which keeps operations by
    name, builds a context for two anonymous operations and runs the
    second. *)
Lemma ambiguous_operation_counterexample :
  Execute.buildExecutionContext Demo.ext Demo.schema twoOperationsAndSchema VNull VNull
    None None None = Raise (unsupportedDefinition "SchemaDefinition")
  /\ unsupportedDefinition "SchemaDefinition" <> ambiguousOperation
  /\ Legacy.execute Demo.ext 5 Demo.schema twoOperations VNull None None 0
     = (Ret (mkResult (Some (VObject true [("bump", VNumber 0)])) None),
        mkState [] [mkCall Demo.Query_t "bump" VNull] 1).
Proof.
  split; [vm_compute; reflexivity|]. split; [discriminate|]. vm_compute. reflexivity.
Qed.

Lemma leaf_value_is_serialized_witness :
  Execute.completeValueCatchingError Demo.ext 1 demoContext Demo.Odd_t
    [Demo.fieldNode "even"] (Demo.info Demo.Query_t "even" Demo.Odd_t (rootPath "even"))
    (rootPath "even") (VNumber 2) demoState
  = (Ret VNull,
     pushError (locatedError Demo.ext (invalidLeafValue Demo.Odd_t "2")
                  [Demo.fieldNode "even"] (Some [KeyName "even"])) demoState).
Proof.
  refine (proj2 (proj1 (proj2 (@leaf_value_is_serialized _ Demo.ext 0 demoContext
     Demo.Odd_t [Demo.fieldNode "even"]
     (Demo.info Demo.Query_t "even" Demo.Odd_t (rootPath "even"))
     (rootPath "even") (VNumber 2) oddSerialize VNull demoState _ _ _ _ _)) "2" _ _));
    vm_compute; reflexivity.
Defined.

(** C4, against the claim: in the executor of src/execution/execute.js the
    scalar [Odd], which has no serialization of 2, completes 2 to null and
    records nothing. *)
Lemma legacy_leaf_null_is_silent :
  serializeOf Demo.schema Demo.Odd_t = Some oddSerialize
  /\ oddSerialize (VNumber 2) = Ok VNull
  /\ Legacy.completeValueCatchingError Demo.ext 1 demoContext Demo.Odd_t
       [Demo.fieldNode "even"] (Demo.info Demo.Query_t "even" Demo.Odd_t PathRoot)
       (VNumber 2) demoState
     = (Ret VNull, demoState).
Proof. repeat split; vm_compute; reflexivity. Qed.

Lemma abstract_value_runtime_type_witness :
  runtimeTypeCandidate demoContext Demo.Pet_t catValue
    (Demo.info Demo.Query_t "cat" Demo.Pet_t (rootPath "cat"))
  = Ok (RuntimeType Demo.Cat_t)
  /\ Execute.completeAbstractValue Demo.ext 1 demoContext Demo.Pet_t [fishField]
       (Demo.info Demo.Query_t "fish" Demo.Pet_t (rootPath "fish")) (rootPath "fish")
       fishValue demoState
     = (Throw (invalidRuntimeType Demo.Pet_t
                 (Demo.info Demo.Query_t "fish" Demo.Pet_t (rootPath "fish"))
                 "[object Object]" "undefined" [fishField]), demoState).
Proof.
  split.
  - refine (proj1 (proj2 (@abstract_value_runtime_type _ Demo.ext 1 demoContext Demo.Pet_t
      [Demo.fieldNode "cat"] (Demo.info Demo.Query_t "cat" Demo.Pet_t (rootPath "cat"))
      (rootPath "cat") catValue demoState)) [Demo.Dog_t] Demo.Cat_t [] _ _ _ _).
    + vm_compute. reflexivity.
    + reflexivity.
    + constructor; [|constructor]. right.
      exists (Demo.kindIs "dog"), (VBoolean false). repeat split; vm_compute; reflexivity.
    + exists (Demo.kindIs "cat"), (VBoolean true). repeat split; vm_compute; reflexivity.
  - refine (proj2 (proj1 (proj2 (proj2 (@abstract_value_runtime_type _ Demo.ext 1
      demoContext Demo.Pet_t [fishField]
      (Demo.info Demo.Query_t "fish" Demo.Pet_t (rootPath "fish"))
      (rootPath "fish") fishValue demoState))) _ _)).
    + vm_compute. reflexivity.
    + constructor; [|constructor; [|constructor]]; right.
      * exists (Demo.kindIs "dog"), (VBoolean false).
        repeat split; vm_compute; reflexivity.
      * exists (Demo.kindIs "cat"), (VBoolean false).
        repeat split; vm_compute; reflexivity.
Defined.

(** C5, against the claim: in the executor of src/execution/execute.js a
    value that no possible type of [Pet] accepts completes to null and
    records nothing. *)
Lemma legacy_undetermined_type_is_silent :
  getObjectType Demo.ext Demo.schema Demo.Pet_t fishValue
    (Demo.info Demo.Query_t "fish" Demo.Pet_t PathRoot) = Ok None
  /\ Legacy.completeValueCatchingError Demo.ext 2 demoContext Demo.Pet_t [fishField]
       (Demo.info Demo.Query_t "fish" Demo.Pet_t PathRoot) fishValue demoState
     = (Ret VNull, demoState).
Proof. split; vm_compute; reflexivity. Qed.



Lemma unknown_field_is_omitted_witness :
  Execute.executeFields Demo.ext 1 demoContext Demo.Query_t VNull PathRoot
    [("hello", [Demo.fieldNode "hello"]); ("boyhowdy", [Demo.fieldNode "boyhowdy"])]
    demoState
  = Execute.executeFields Demo.ext 1 demoContext Demo.Query_t VNull PathRoot
      [("hello", [Demo.fieldNode "hello"])] demoState.
Proof.
  refine (proj1 (proj2 (@unknown_field_is_omitted _ Demo.ext 1 demoContext Demo.Query_t
    VNull PathRoot [("hello", [Demo.fieldNode "hello"])] "boyhowdy"
    (Demo.fieldNode "boyhowdy") [] [] demoState _))).
  vm_compute. reflexivity.
Defined.



Lemma nonnull_failure_propagates_witness :
  Execute.completeValueCatchingError Demo.ext 3 demoContext Demo.Node_t [nodeField]
    nodeInfo (rootPath "node") nodeValue demoState
  = (Ret VNull,
     mkState
       [locatedError Demo.ext idFailure [nodeField] (Some [KeyName "node"])]
       [mkCall Demo.Node_t "id" nodeValue] 0)
  /\ Execute.completeValueCatchingError Demo.ext 3 demoContext
       (GraphQLList (GraphQLNonNull Demo.Strict_t)) [numbersField] numbersInfo
       (rootPath "numbers") (VArray [VNumber 1; VString "x"; VNumber 3]) demoState
     = (Ret VNull,
        mkState
          [locatedError Demo.ext
             (locatedError Demo.ext strictFailure [numbersField]
                (Some [KeyName "numbers"; KeyIndex 1]))
             [numbersField] (Some [KeyName "numbers"])]
          [] 0).
Proof.
  split.
  - refine (proj1 (proj2 (proj2 (proj2 (proj2 (proj2 (proj2 (proj2 (proj2 (proj2 (proj2
      (proj2 (proj2 (proj2 (proj2 (proj2
      (@nonnull_failure_propagates _ Demo.ext 2 demoContext))))))))))))))))
      Demo.Node_t [nodeField] nodeInfo (rootPath "node") nodeValue []
      "id" (Demo.fieldNode "id") [] [] ∅ (VObject false [])
      (mkFieldDef "id" (GraphQLNonNull Demo.String_t) [] None) VNull nonNullViolation
      demoState demoState
      (mkState [] [mkCall Demo.Node_t "id" nodeValue] 0)
      (mkState [] [mkCall Demo.Node_t "id" nodeValue] 0) _ _ _ _ _ _ _ _ _ _ _).
    + reflexivity.
    + reflexivity.
    + reflexivity.
    + vm_compute. reflexivity.
    + left. vm_compute. reflexivity.
    + vm_compute. reflexivity.
    + vm_compute. reflexivity.
    + vm_compute. reflexivity.
    + reflexivity.
    + vm_compute. reflexivity.
    + vm_compute. reflexivity.
  - refine (proj1 (proj2 (proj2 (proj2 (proj2 (proj2 (proj2 (proj2 (proj2 (proj2 (proj2
      (proj2 (proj2 (proj2 (proj2 (proj2 (proj2 (proj2
      (@nonnull_failure_propagates _ Demo.ext 1 demoContext))))))))))))))))))
      Demo.Strict_t [numbersField] numbersInfo (rootPath "numbers") [VNumber 1]
      (VString "x") [VNumber 3] [VNumber 1] strictFailure demoState demoState demoState
      _ _).
    + vm_compute. reflexivity.
    + vm_compute. reflexivity.
Defined.

Lemma drivers_agree_without_proto_key_witness :
  sameRun
    (Execute.executeFieldsSerially Demo.ext 1 demoContext Demo.Mutation_t VNull PathRoot
       [("hello", [Demo.fieldNode "hello"]); ("bump", [Demo.fieldNode "bump"])] demoState)
    (Execute.executeFields Demo.ext 1 demoContext Demo.Mutation_t VNull PathRoot
       [("hello", [Demo.fieldNode "hello"]); ("bump", [Demo.fieldNode "bump"])] demoState).
Proof.
  refine (proj1 (@drivers_agree_without_proto_key _ Demo.ext 1 demoContext Demo.Mutation_t
    VNull PathRoot
    [("hello", [Demo.fieldNode "hello"]); ("bump", [Demo.fieldNode "bump"])]
    demoState _)).
  cbn. intros [H|[H|[]]]; discriminate.
Defined.

(** C10, at the failing input [mutation { __proto__: hello }]: the
    write-mode driver assigns the result to [__proto__] of an object
    literal, which adds no own property, and returns an object without the
    key; the read-mode driver, which starts from [Object.create(null)],
    returns the key with its value. Both call the same resolver. *)
Theorem serial_driver_loses_proto_key :
  Execute.executeFieldsSerially Demo.ext 1 (Demo.context (Demo.mutation []) ∅)
    Demo.Mutation_t VNull PathRoot protoFields demoState
  = (Ret (VObject true []), mkState [] [mkCall Demo.Mutation_t "hello" VNull] 0)
  /\ Execute.executeFields Demo.ext 1 (Demo.context (Demo.mutation []) ∅)
       Demo.Mutation_t VNull PathRoot protoFields demoState
     = (Ret (VObject false [("__proto__", VString "world")]),
        mkState [] [mkCall Demo.Mutation_t "hello" VNull] 0).
Proof. split; vm_compute; reflexivity. Qed.

(* ================================================================== *)
(** ** The further properties on concrete runs *)
(* ================================================================== *)

Lemma collectFields_composes_witness :
  Execute.collectFields Demo.ext 2 demoContext Demo.Query_t
    (INLINE_FRAGMENT None None (selectFields ["hello"]) :: selectFields ["bump"]) [] ∅
  = Execute.collectFields Demo.ext 1 demoContext Demo.Query_t
      (selectFields ["hello"] ++ selectFields ["bump"]) [] ∅.
Proof.
  refine (proj1 (proj2 (@collectFields_composes _ Demo.ext 1 demoContext Demo.Query_t
    [] ∅)) None None (selectFields ["hello"]) (selectFields ["bump"]) _ _ _).
  - vm_compute. reflexivity.
  - vm_compute. reflexivity.
  - vm_compute. discriminate.
Defined.

Lemma collectFields_keeps_grouping_witness :
  (∅ : gset string) ⊆ {["F"]}
  /\ (exists added,
        map fst [("hello", [Demo.fieldNode "hello"; Demo.fieldNode "hello"]);
                 ("a", [Demo.fieldNode "a"])]
        = map fst [("hello", [Demo.fieldNode "hello"])] ++ added)
  /\ (forall key nodes,
        In (key, nodes) [("hello", [Demo.fieldNode "hello"])] ->
        exists more,
          In (key, nodes ++ more)
            [("hello", [Demo.fieldNode "hello"; Demo.fieldNode "hello"]);
             ("a", [Demo.fieldNode "a"])])
  /\ (NoDup (map fst [("hello", [Demo.fieldNode "hello"])]) ->
      NoDup (map fst [("hello", [Demo.fieldNode "hello"; Demo.fieldNode "hello"]);
                      ("a", [Demo.fieldNode "a"])]))
  /\ (wellGrouped [("hello", [Demo.fieldNode "hello"])] = true ->
      wellGrouped [("hello", [Demo.fieldNode "hello"; Demo.fieldNode "hello"]);
                   ("a", [Demo.fieldNode "a"])] = true).
Proof.
  apply (@collectFields_keeps_grouping _ Demo.ext 2 contextF Demo.Query_t
           [spreadF None; FIELD (Demo.fieldNode "hello"); spreadF None]
           [("hello", [Demo.fieldNode "hello"])] ∅).
  vm_compute. reflexivity.
Defined.

Lemma subfields_are_merged_witness :
  NoDup (map fst [("id", [Demo.fieldNode "id"; Demo.fieldNode "id"])])
  /\ wellGrouped [("id", [Demo.fieldNode "id"; Demo.fieldNode "id"])] = true.
Proof.
  refine (proj2 (proj2 (@subfields_are_merged _ Demo.ext 0 demoContext Demo.Node_t
    [nodeField; nodeField] nodeInfo (rootPath "node") nodeValue demoState))
    [("id", [Demo.fieldNode "id"; Demo.fieldNode "id"])] ∅ _).
  vm_compute. reflexivity.
Defined.

Lemma collectFields_terminates_witness :
  Execute.collectFields Demo.ext 3 cyclicContext Demo.Query_t
    [FRAGMENT_SPREAD "A" None] [] ∅ <> OutOfFuel
  /\ forall more,
       Execute.collectFields Demo.ext (more + 3) cyclicContext Demo.Query_t
         [FRAGMENT_SPREAD "A" None] [] ∅
       = Execute.collectFields Demo.ext 3 cyclicContext Demo.Query_t
           [FRAGMENT_SPREAD "A" None] [] ∅.
Proof.
  apply (@collectFields_terminates _ Demo.ext 1 3 cyclicContext Demo.Query_t
           [FRAGMENT_SPREAD "A" None] [] ∅).
  - intros name fragment H. cbn in H.
    apply lookup_insert_Some in H as [[_ <-]|[_ H]]; [cbn; lia|].
    apply lookup_insert_Some in H as [[_ <-]|[_ H]]; [cbn; lia|].
    by rewrite lookup_empty in H.
  - vm_compute. lia.
Defined.


Lemma known_fields_are_the_response_keys_witness :
  ownKeys (VObject false [("hello", VString "world"); ("bump", VNumber 0)])
  = map fst
      (List.filter (knownField Demo.ext (ctx_schema demoContext) Demo.Query_t)
         [("hello", [Demo.fieldNode "hello"]);
          ("boyhowdy", [Demo.fieldNode "boyhowdy"]);
          ("bump", [Demo.fieldNode "bump"])]).
Proof.
  refine (proj1 (@known_fields_are_the_response_keys _ Demo.ext 1 demoContext
    Demo.Query_t VNull PathRoot
    [("hello", [Demo.fieldNode "hello"]); ("boyhowdy", [Demo.fieldNode "boyhowdy"]);
     ("bump", [Demo.fieldNode "bump"])]
    (VObject false [("hello", VString "world"); ("bump", VNumber 0)])
    demoState (mkState [] [mkCall Demo.Query_t "hello" VNull;
                           mkCall Demo.Query_t "bump" VNull] 1) _) _).
  - apply (bool_decide_unpack _). vm_compute. exact I.
  - vm_compute. reflexivity.
Defined.

Lemma nullable_fields_absorb_failures_witness :
  Execute.resolveField Demo.ext 1 demoContext Demo.Query_t VNull [Demo.fieldNode "oops"]
    (rootPath "oops") demoState
  <> (Throw (Error_ "boom"), demoState).
Proof.
  refine (proj1 (@nullable_fields_absorb_failures _ Demo.ext 1 demoContext Demo.Query_t
    VNull (rootPath "oops") demoState) (Demo.fieldNode "oops") [] oopsField
    (Error_ "boom") (mkState [] [mkCall Demo.Query_t "oops" VNull] 0)
    (Error_ "boom") demoState _ _ _).
  - vm_compute. reflexivity.
  - reflexivity.
  - vm_compute. reflexivity.
Defined.


Lemma failures_before_field_execution_witness :
  Execute.executeImpl Demo.ext 3 queryOnlySchema
    [OPERATION_DEFINITION (Demo.mutation (selectFields ["bump"]))] VNull VNull None None
    None 0
  = (Throw (GraphQLError_ "Schema is not configured for mutations"
              (Some [NodeOfOperation (Demo.mutation (selectFields ["bump"]))])),
     mkState [] [] 0).
Proof.
  refine (proj1 (proj2 (@failures_before_field_execution _ Demo.ext 3 queryOnlySchema
    [OPERATION_DEFINITION (Demo.mutation (selectFields ["bump"]))] VNull VNull None None
    None 0))
    (mkContext queryOnlySchema ∅ VNull VNull (Demo.mutation (selectFields ["bump"])) ∅
       (Execute.defaultFieldResolver Demo.ext)) _ _ _).
  - reflexivity.
  - reflexivity.
Defined.

Lemma response_shape_witness :
  result_errors (mkResult (Some (VObject false [("oops", VNull);
                                                ("hello", VString "world")]))
                   (Some [oopsFailure])) <> Some [].
Proof.
  refine (proj1 (@response_shape _ Demo.ext 3 Demo.schema
    [OPERATION_DEFINITION (Demo.query (selectFields ["oops"; "hello"]))] VNull VNull
    None None None 0
    (mkResult (Some (VObject false [("oops", VNull); ("hello", VString "world")]))
       (Some [oopsFailure]))
    (mkState [oopsFailure]
       [mkCall Demo.Query_t "oops" VNull; mkCall Demo.Query_t "hello" VNull] 0) _)).
  vm_compute. reflexivity.
Defined.

Lemma argument_failure_is_a_field_error_witness :
  Execute.resolveField Demo.ext 1 demoContext Demo.Query_t VNull [typeField]
    (rootPath "__type") demoState
  = (Ret VNull,
     pushError (locatedError Demo.ext missingArgument [typeField]
                  (Some [KeyName "__type"])) demoState).
Proof.
  refine (proj1 (proj2 (proj2 (@argument_failure_is_a_field_error _ Demo.ext 0
    demoContext Demo.Query_t VNull typeField [] (rootPath "__type")
    Demo.TypeMetaFieldDef missingArgument demoState _ _))) missingArgument _).
  - reflexivity.
  - reflexivity.
  - reflexivity.
Defined.


Lemma field_resolves_to_completed_value_witness :
  Execute.resolveField Demo.ext 1 demoContext Demo.Query_t VNull [Demo.fieldNode "hello"]
    (rootPath "hello") demoState
  = (Ret (VString "world"),
     logCall demoState
       (Execute.buildResolveInfo demoContext helloField [Demo.fieldNode "hello"]
          Demo.Query_t (rootPath "hello")) VNull 0).
Proof.
  refine (proj2 (@field_resolves_to_completed_value _ Demo.ext 0 demoContext Demo.Query_t
    VNull (Demo.fieldNode "hello") [] (rootPath "hello") helloField ∅ (VString "world")
    0 demoState _ _ _)
    (fun v => let? converted := Demo.String_ v in Ok (VString converted))
    (VString "world") _ _ _ _ _ _); reflexivity.
Defined.

Lemma default_resolver_on_missing_source_witness :
  Execute.resolveField Demo.ext 1 demoContext Demo.Cat_t VUndefined
    [Demo.fieldNode "kind"] (rootPath "kind") demoState
  = (Ret VNull,
     logCall demoState
       (Execute.buildResolveInfo demoContext kindField [Demo.fieldNode "kind"]
          Demo.Cat_t (rootPath "kind")) VUndefined 0).
Proof.
  refine (proj1 (@default_resolver_on_missing_source _ Demo.ext 0 demoContext Demo.Cat_t
    VUndefined (Demo.fieldNode "kind") [] (rootPath "kind") kindField ∅ demoState
    _ _ _ _ _) _).
  - vm_compute. reflexivity.
  - reflexivity.
  - reflexivity.
  - reflexivity.
  - vm_compute. reflexivity.
  - exact I.
Defined.

Lemma rejected_object_value_witness :
  Execute.completeValue Demo.ext 1 demoContext Demo.Dog_t [fishField]
    (Demo.info Demo.Query_t "cat" Demo.Dog_t (rootPath "cat")) (rootPath "cat")
    catValue demoState
  = (Throw (rejectedValue Demo.Dog_t "[object Object]" [fishField]), demoState).
Proof.
  refine (proj1 (@rejected_object_value _ Demo.ext 0 demoContext Demo.Dog_t [fishField]
    (Demo.info Demo.Query_t "cat" Demo.Dog_t (rootPath "cat")) (rootPath "cat")
    catValue (Demo.kindIs "dog") (VBoolean false) demoState _ _ _ _ _ _));
    reflexivity.
Defined.

Lemma operation_selection_witness :
  exists fragments,
    Execute.buildExecutionContext Demo.ext Demo.schema namedOperations VNull VNull None
      (Some "A") None
    = Ok (mkContext Demo.schema fragments VNull VNull
            (namedQuery "A" (selectFields ["even"])) ∅
            (Execute.defaultFieldResolver Demo.ext))
    /\ forall name,
         fragments !! name
         = lastSuch (fun fragment => String.eqb (fragment_name fragment) name)
             (fragmentsOf namedOperations).
Proof.
  exact (@operation_selection _ Demo.ext Demo.schema namedOperations VNull VNull None
           (Some "A") None eq_refl (or_introl eq_refl)).
Defined.

Lemma exclusion_has_a_cause_witness :
  coercedIf Demo.ext demoContext (skipAndInclude false false) GraphQLSkipDirective
  = Ok (Some (VBoolean true))
  \/ coercedIf Demo.ext demoContext (skipAndInclude false false) GraphQLIncludeDirective
     = Ok (Some (VBoolean false)).
Proof.
  apply (proj1 (proj2 (@exclusion_has_a_cause _ Demo.ext demoContext
           (skipAndInclude false false)))).
  vm_compute. reflexivity.
Defined.

Lemma graphql_answers_with_errors_witness :
  graphql (fun _ => Ok twoOperations) (fun _ _ => Ok [validationError])
    (fun schema document rootValue contextValue variableValues operationName =>
       Execute.executeImpl Demo.ext 3 schema document rootValue contextValue
         variableValues operationName None)
    Demo.schema (Some "{ hello } { bump }") VNull VNull None None 0
  = (Ret (mkResult None (Some [validationError])), mkState [] [] 0).
Proof.
  refine (proj1 (proj2 (proj2 (@graphql_answers_with_errors _
    (fun _ => Ok twoOperations) (fun _ _ => Ok [validationError])
    (fun schema document rootValue contextValue variableValues operationName =>
       Execute.executeImpl Demo.ext 3 schema document rootValue contextValue
         variableValues operationName None)
    Demo.schema (Some "{ hello } { bump }") VNull VNull None None 0)))
    twoOperations validationError [] _ _); reflexivity.
Defined.

Lemma demo_types_bounded parentType fieldName fieldDef :
  Execute.getFieldDef Demo.ext (ctx_schema demoContext) parentType fieldName
    = Some fieldDef ->
  typeDepth (fielddef_type fieldDef) <= 1.
Proof.
  unfold Execute.getFieldDef.
  destruct (_ && _); [intros [= <-]; cbn; lia|].
  destruct (_ && _); [intros [= <-]; cbn; lia|].
  destruct (String.eqb _ _); [intros [= <-]; cbn; lia|].
  unfold getFields, typeDefinition. destruct parentType as [t|t|name]; [done..|].
  cbn [ctx_schema demoContext Demo.context Demo.schema schema_typeMap].
  destruct (Demo.typeMap !! name) as [definition|] eqn:Hd; [|done].
  apply elem_of_list_to_map_2 in Hd.
  repeat (apply elem_of_cons in Hd as [[= -> ->]|Hd];
          [unfold Demo.rootFields; cbn [lookupField];
           repeat (destruct (String.eqb _ fieldName);
                        [intros [= <-]; cbn; lia|]); done|]).
  by apply elem_of_nil in Hd.
Qed.

Lemma execution_terminates_without_fragments_witness :
  fst (Execute.executeOperation Demo.ext 7 demoContext (Demo.query [FIELD nodeField])
         VNull demoState) <> OutOfFuel.
Proof.
  apply (proj1 (@execution_terminates_without_fragments _ Demo.ext 1 7 demoContext
                  (Demo.query [FIELD nodeField]) VNull demoState eq_refl
                  demo_types_bounded ltac:(vm_compute; lia))).
Defined.

Lemma fragment_cycle_below_a_field_never_ends_witness :
  fst (Execute.completeValue Demo.ext 40 treeContext Tree_t [childNode]
         (Demo.info Tree_t "child" Tree_t (rootPath "child")) (rootPath "child")
         (VObject true []) demoState) = OutOfFuel.
Proof.
  apply (@fragment_cycle_below_a_field_never_ends _ Demo.ext treeContext Tree_t childNode
           "T" fragmentT childField ∅); try (vm_compute; reflexivity).
  intros source info w. exists (VObject true []), w. by repeat split.
Defined.

Lemma data_is_null_only_by_a_root_field_failure_witness :
  exists recorded e key nodes fieldDef,
    [schemaFailure] = [] ++ recorded ++ [e]
    /\ Forall (located Demo.ext) recorded
    /\ In (key, nodes) helloAndSchema
    /\ fieldDefOf Demo.ext Demo.schema Demo.Query_t nodes = Some fieldDef
    /\ ((located Demo.ext e /\ isNonNull (fielddef_type fieldDef) = true)
        \/ unconverted Demo.ext e)
    /\ (forallb (nullableOrUnknown Demo.ext Demo.schema Demo.Query_t) helloAndSchema
        = true -> unconverted Demo.ext e).
Proof.
  refine (proj1 (proj2 (@data_is_null_only_by_a_root_field_failure _ Demo.ext 2
    demoContext (Demo.query (selectFields ["hello"; "__schema"])) VNull Demo.Query_t
    helloAndSchema ∅ VNull demoState
    (mkState [schemaFailure]
       [mkCall Demo.Query_t "hello" VNull; mkCall Demo.Query_t "__schema" VNull] 0)
    _ _ _)) eq_refl); vm_compute; reflexivity.
Defined.
